(** * Long-term buy-and-hold portfolio: metrics, optimizer post-processing,
      Monte-Carlo sampling and rebalancing simulation

    A shallow embedding of [portfolio_utils.py] and
    [portfolio_optimization.py].

    Numbers.  Python/NumPy [float64] values are modelled as extended
    rationals: a finite value is an exact rational ([Fin q]), and the two
    infinities and NaN are kept as separate constructors with the IEEE rules
    for the special values (x/0, inf-inf, 0*inf, NaN propagation).  Rounding,
    overflow and the sign of zero are not modelled.  Inputs supplied by the
    caller (returns, weights, solver iterates) are finite, hence typed [Q];
    sums and products of finite values stay in [Q]; a value becomes a
    [pyfloat] where the source divides or calls a library function.
    Statements that depend on the last bit are made on binary64 numbers
    themselves (module [Binary64]).

    Library code that is not part of the repository (NumPy's [sqrt] and
    power, NumPy's global random generator, SciPy's [minimize], the calendar
    arithmetic behind [pd.Grouper]) is taken as an interface (a type class);
    the repository's functions are defined over any implementation of it. *)

From Stdlib Require Import QArith Qminmax Qabs Qround Lqa Lia ZArith List String
  Bool.
From Stdlib Require PrimFloat.
From stdpp Require Import gmap strings list fin_maps.
Import ListNotations.
Local Open Scope Q_scope.

(** ** Extended rationals standing for float64 *)

Inductive pyfloat : Type :=
| Fin (q : Q)
| Inf (neg : bool)
| NaN.

Definition Qneg_bool (q : Q) : bool := negb (Qle_bool 0 q).

Definition fopp (a : pyfloat) : pyfloat :=
  match a with
  | Fin x => Fin (- x)
  | Inf s => Inf (negb s)
  | NaN => NaN
  end.

Definition fadd (a b : pyfloat) : pyfloat :=
  match a, b with
  | NaN, _ | _, NaN => NaN
  | Fin x, Fin y => Fin (x + y)
  | Fin _, Inf s | Inf s, Fin _ => Inf s
  | Inf s, Inf t => if Bool.eqb s t then Inf s else NaN
  end.

Definition fsub (a b : pyfloat) : pyfloat := fadd a (fopp b).

Definition fmul (a b : pyfloat) : pyfloat :=
  match a, b with
  | NaN, _ | _, NaN => NaN
  | Fin x, Fin y => Fin (x * y)
  | Fin x, Inf s | Inf s, Fin x =>
      if Qeq_bool x 0 then NaN else Inf (xorb (Qneg_bool x) s)
  | Inf s, Inf t => Inf (xorb s t)
  end.

(** NumPy division: a finite non-zero value over zero is an infinity, 0/0 and
    inf/inf are NaN; no exception is raised. *)
Definition fdiv (a b : pyfloat) : pyfloat :=
  match a, b with
  | NaN, _ | _, NaN => NaN
  | Fin x, Fin y =>
      if Qeq_bool y 0
      then (if Qeq_bool x 0 then NaN else Inf (Qneg_bool x))
      else Fin (x / y)
  | Fin _, Inf _ => Fin 0
  | Inf s, Fin y => Inf (xorb s (Qneg_bool y))
  | Inf _, Inf _ => NaN
  end.

Definition fabs (a : pyfloat) : pyfloat :=
  match a with
  | Fin x => Fin (Qabs x)
  | Inf _ => Inf false
  | NaN => NaN
  end.

(** Python's [a != b] on floats: NaN differs from everything. *)
Definition fne (a b : pyfloat) : bool :=
  match a, b with
  | Fin x, Fin y => negb (Qeq_bool x y)
  | Inf s, Inf t => negb (Bool.eqb s t)
  | _, _ => true
  end.

(** [a < b]; false as soon as a NaN is involved. *)
Definition flt (a b : pyfloat) : bool :=
  match a, b with
  | NaN, _ | _, NaN => false
  | Fin x, Fin y => negb (Qle_bool y x)
  | Fin _, Inf s => negb s
  | Inf s, Fin _ => s
  | Inf s, Inf t => s && negb t
  end.

Definition fmax (a b : pyfloat) : pyfloat := if flt a b then b else a.
Definition fmin (a b : pyfloat) : pyfloat := if flt b a then b else a.

Definition is_nan (a : pyfloat) : bool :=
  match a with NaN => true | _ => false end.

(** The same value: finite values as rationals ([==]), special values
    literally (so that NaN is "the same" as NaN here, unlike [fne]). *)
Definition feq (a b : pyfloat) : Prop :=
  match a, b with
  | Fin x, Fin y => x == y
  | Inf s, Inf t => s = t
  | NaN, NaN => True
  | _, _ => False
  end.

Definition Qsum (l : list Q) : Q := fold_right Qplus 0 l.
Definition fsum (l : list pyfloat) : pyfloat := fold_right fadd (Fin 0) l.

(** Element-wise combination of two equally long vectors (NumPy broadcasting
    of two 1-d arrays of one shape). *)
Fixpoint map2 {A B C} (f : A -> B -> C) (l : list A) (k : list B) : list C :=
  match l, k with
  | a :: l', b :: k' => f a b :: map2 f l' k'
  | _, _ => []
  end.

(** ** Tables *)

(** Dates are day numbers. *)
Definition date := Z.

(** [pd.Series]: an index of dates with one value per date. *)
Definition Series (A : Type) := list (date * A).

(** [pd.DataFrame]: column labels and one row of values per index date. *)
Record DataFrame (A : Type) := mkDF {
  columns : list string;
  rows : list (date * list A)
}.
Arguments mkDF {A}.
Arguments columns {A}.
Arguments rows {A}.

Definition index {A} (df : DataFrame A) : list date := map fst (rows df).

(** Every row has one value per column (pandas frames are rectangular). *)
Definition rectangular {A} (df : DataFrame A) : Prop :=
  Forall (fun r => length (snd r) = length (columns df)) (rows df).

(** ** Errors raised by the Python code *)

Inductive exn := IndexError | ZeroDivisionError | KeyError | ValueError.

Inductive result (A : Type) :=
| Ok (a : A)
| Raise (e : exn).
Arguments Ok {A}.
Arguments Raise {A}.

Definition bind {A B} (r : result A) (k : A -> result B) : result B :=
  match r with
  | Ok a => k a
  | Raise e => Raise e
  end.

Notation "'do' x <- r ; k" := (bind r (fun x => k))
  (at level 10, x name, r at level 100, k at level 200).

(** ** External numeric library *)

Class NumpyMath := {
  np_sqrt : pyfloat -> pyfloat;
  np_power : pyfloat -> pyfloat -> pyfloat
}.

Definition TRADING_DAYS : Q := 252.

(** ** portfolio_utils.py: metrics *)

Section Metrics.
Context `{NumpyMath}.

(** [Series.mean()]: NaN on an empty series (0/0). *)
Definition mean (l : list Q) : pyfloat :=
  fdiv (Fin (Qsum l)) (Fin (inject_Z (Z.of_nat (length l)))).

(** [Series.std()], sample standard deviation (ddof = 1): the square root
    of the sample variance, which is 0/0 when there are fewer than two
    observations. *)
Definition std (l : list Q) : pyfloat :=
  match mean l with
  | Fin m =>
      np_sqrt (fdiv (Fin (Qsum (map (fun x => (x - m) * (x - m)) l)))
                    (Fin (inject_Z (Z.of_nat (length l)) - 1)))
  | _ => NaN
  end.

Definition annualized_vol (returns : Series Q) : pyfloat :=
  fmul (std (map snd returns)) (np_sqrt (Fin TRADING_DAYS)).

Definition sharpe_ratio (returns : Series Q) (risk_free : Q) : pyfloat :=
  let ann_ret := fmul (mean (map snd returns)) (Fin TRADING_DAYS) in
  let ann_vol := annualized_vol returns in
  if fne ann_vol (Fin 0) then fdiv (fsub ann_ret (Fin risk_free)) ann_vol
  else NaN.

(** [Series.cummax()] (skipna): the running maximum of the non-NaN values
    seen so far, NaN at the NaN positions. *)
Fixpoint cummax_from (acc : option pyfloat) (l : list pyfloat)
  : list pyfloat :=
  match l with
  | [] => []
  | x :: xs =>
      if is_nan x then NaN :: cummax_from acc xs
      else let m := match acc with
                    | None => x
                    | Some a => fmax a x
                    end in
           m :: cummax_from (Some m) xs
  end.
Definition cummax (l : list pyfloat) : list pyfloat := cummax_from None l.

(** [Series.min()] (skipna): the least non-NaN value; NaN if there is
    none. *)
Fixpoint series_min_from (acc : option pyfloat) (l : list pyfloat)
  : pyfloat :=
  match l with
  | [] => match acc with Some a => a | None => NaN end
  | x :: xs =>
      if is_nan x then series_min_from acc xs
      else series_min_from
             (Some (match acc with None => x | Some a => fmin a x end)) xs
  end.
Definition series_min (l : list pyfloat) : pyfloat := series_min_from None l.

Definition max_drawdown (values : Series Q) : result pyfloat :=
  match values with
  | [] => Raise IndexError                      (* values.iloc[0] *)
  | (_, v0) :: _ =>
      let cum := map (fun dv => fdiv (Fin (snd dv)) (Fin v0)) values in
      let roll_max := cummax cum in
      let dd := map2 (fun c m => fsub (fdiv c m) (Fin 1)) cum roll_max in
      Ok (series_min dd)
  end.

(** [cagr_from_value_series]: [values.index[-1]] raises on an empty
    series; [1 / years] is a division of Python floats and raises when the
    first and last date coincide. *)
Definition cagr_from_value_series (values : Series Q) : result pyfloat :=
  match values with
  | [] => Raise IndexError
  | (d0, v0) :: _ =>
      let '(dn, vn) := List.last values (d0, v0) in
      let days := (dn - d0)%Z in
      let years := inject_Z days / 365.25 in
      if Qeq_bool years 0 then Raise ZeroDivisionError
      else Ok (fsub (np_power (fdiv (Fin vn) (Fin v0)) (Fin (1 / years)))
                    (Fin 1))
  end.

(** [(1 + s).cumprod()] on a series. *)
Fixpoint cumprod_from (acc : Q) (l : Series Q) : Series Q :=
  match l with
  | [] => []
  | (d, r) :: l' => let acc' := acc * (1 + r) in
                    (d, acc') :: cumprod_from acc' l'
  end.
Definition cumprod1p (l : Series Q) : Series Q :=
  match l with
  | [] => []
  | (d, r) :: l' => (d, 1 + r) :: cumprod_from (1 + r) l'
  end.

Record Metrics := mkMetrics {
  CAGR : pyfloat;
  AnnualVol : pyfloat;
  Sharpe : pyfloat;
  MaxDrawdown : pyfloat
}.

Definition portfolio_metrics_from_returns
    (portfolio_rets : Series Q) (start_value risk_free : Q)
  : result Metrics :=
  let values := map (fun dv => (fst dv, snd dv * start_value))
                    (cumprod1p portfolio_rets) in
  do c <- cagr_from_value_series values;
  let v := annualized_vol portfolio_rets in
  let s := sharpe_ratio portfolio_rets risk_free in
  do m <- max_drawdown values;
  Ok (mkMetrics c v s m).
End Metrics.

(** ** Python dictionaries built by the code *)

(** A dictionary the code builds and returns: insertion-ordered, one entry
    per key; storing under an existing key overwrites in place. *)
Section Dict.
Context {K V : Type} `{EqDecision K}.

Fixpoint dict_set (k : K) (v : V) (d : list (K * V)) : list (K * V) :=
  match d with
  | [] => [(k, v)]
  | (k', v') :: d' =>
      if decide (k = k') then (k, v) :: d' else (k', v') :: dict_set k v d'
  end.

End Dict.

(** [[d.get(a, 0.0) for a in assets]] on a weight mapping supplied by the
    caller. *)
Definition weight_vector (assets : list string) (weights : gmap string Q)
  : list Q :=
  map (fun a => default 0 (weights !! a)) assets.

(** A vector divided by its own sum, [v / v.sum()]. *)
Definition normalize_row (v : list Q) : list pyfloat :=
  map (fun x => fdiv (Fin x) (Fin (Qsum v))) v.

(** ** portfolio_optimization.py: buy and hold *)

(** [(1 + returns).cumprod()], column by column down the rows. *)
Fixpoint cumprod_rows_from (acc : list Q) (l : list (date * list Q))
  : list (date * list Q) :=
  match l with
  | [] => []
  | (d, r) :: l' =>
      let acc' := map2 (fun a x => a * (1 + x)) acc r in
      (d, acc') :: cumprod_rows_from acc' l'
  end.

Definition cumprod_rows (l : list (date * list Q)) : list (date * list Q) :=
  match l with
  | [] => []
  | (d, r) :: l' =>
      let first := map (fun x => 1 + x) r in
      (d, first) :: cumprod_rows_from first l'
  end.

(** [values = cum.multiply(w0, axis=1)]: the tracked value of every asset at
    every date. *)
Definition buy_and_hold_values (returns : DataFrame Q)
    (init_weights : gmap string Q) : list (date * list Q) :=
  let assets := columns returns in
  let w0 := weight_vector assets init_weights in
  let cum := cumprod_rows (rows returns) in
  map (fun dr => (fst dr, map2 Qmult (snd dr) w0)) cum.

Definition weights_over_time_buy_and_hold (returns : DataFrame Q)
    (init_weights : gmap string Q) : DataFrame pyfloat :=
  let values := buy_and_hold_values returns init_weights in
  mkDF (columns returns)
       (map (fun dv => (fst dv, normalize_row (snd dv))) values).

(** ** portfolio_optimization.py: periodic rebalancing *)

(** The calendar behind [pd.Grouper(freq=freq)]: whether [freq] is a
    frequency alias pandas knows (the constructor raises ValueError on any
    other string), and the number of the period a date falls in. *)
Class PandasGrouper := {
  valid_freq : string -> bool;
  period_of : string -> date -> Z
}.

Definition Zlist_min (d : Z) (l : list Z) : Z := fold_right Z.min d l.
Definition Zlist_max (d : Z) (l : list Z) : Z := fold_right Z.max d l.

(** The rows of one period. *)
Definition period_group (P : date -> Z) (rs : list (date * list Q)) (k : Z)
  : list (date * list Q) :=
  List.filter (fun r => Z.eqb (P (fst r)) k) rs.

Section Rebalancing.
Context `{PandasGrouper}.

(** [returns.groupby(pd.Grouper(freq=freq))]: one group per period from the
    earliest to the latest one, in order, the empty ones included; a group
    holds the rows of its period in index order. *)
Definition groupby (freq : string) (returns : DataFrame Q)
  : list (list (date * list Q)) :=
  match rows returns with
  | [] => []
  | r0 :: _ =>
      let ps := map (fun r => period_of freq (fst r)) (rows returns) in
      let lo := Zlist_min (period_of freq (fst r0)) ps in
      let hi := Zlist_max (period_of freq (fst r0)) ps in
      map (period_group (period_of freq) (rows returns))
          (seqZ lo (hi - lo + 1))
  end.

Record sim_state := mkSim {
  sim_values : list Q;
  sim_weights : list (date * list pyfloat);
  sim_turnovers : list (date * pyfloat)
}.

(** [weights_df.loc[date, assets] = row] on a table whose index holds
    [date]. *)
Definition loc_set (d : date) (row : list pyfloat)
    (tbl : list (date * list pyfloat)) : list (date * list pyfloat) :=
  map (fun dr => if Z.eqb (fst dr) d then (fst dr, row) else dr) tbl.

(** [weights_df.loc[end_date].values]: the rows labelled [end_date], one
    row when the label occurs once in the index and a 2-d block of rows when
    it is repeated. *)
Definition loc_get (d : date) (tbl : list (date * list pyfloat))
  : result (list (list pyfloat)) :=
  match List.filter (fun dr => Z.eqb (fst dr) d) tbl with
  | [] => Raise KeyError
  | dr :: blk => Ok (map snd (dr :: blk))
  end.

(** One pass of the inner loop: compound the values, record the weights. *)
Definition step_date (st : sim_state) (dr : date * list Q) : sim_state :=
  let values := map2 (fun v r => v * (1 + r)) (sim_values st) (snd dr) in
  mkSim values
        (loc_set (fst dr) (normalize_row values) (sim_weights st))
        (sim_turnovers st).

(** [0.5 * np.abs(target - pre_weights).sum()]: [target] is broadcast over
    the rows of [pre_weights] and the sum runs over all the cells. *)
Definition turnover_of (target : list Q) (pre_weights : list (list pyfloat))
  : pyfloat :=
  fmul (Fin 0.5)
       (fsum (List.concat
                (map (fun row =>
                        map fabs (map2 (fun t p => fsub (Fin t) p) target row))
                     pre_weights))).

(** One pass of the outer loop.  [group.empty] holds for a group without
    rows and also for any group of a frame without columns. *)
Definition step_period (assets : list string) (target : list Q)
    (st : sim_state) (group : list (date * list Q)) : result sim_state :=
  match assets, group with
  | [], _ | _, [] => Ok st                          (* continue *)
  | _ :: _, r0 :: _ =>
      let st1 := fold_left step_date group st in
      let end_date := fst (List.last group r0) in
      do pre_weights <- loc_get end_date (sim_weights st1);
      let turnover := turnover_of target pre_weights in
      Ok (mkSim (map (fun t => Qsum (sim_values st1) * t) target)
                (sim_weights st1)
                (dict_set end_date turnover (sim_turnovers st1)))
  end.

Fixpoint run_periods (assets : list string) (target : list Q)
    (st : sim_state) (groups : list (list (date * list Q)))
  : result sim_state :=
  match groups with
  | [] => Ok st
  | g :: gs =>
      do st' <- step_period assets target st g;
      run_periods assets target st' gs
  end.

Definition simulate_rebalancing (returns : DataFrame Q)
    (target_weights : gmap string Q) (freq : string)
  : result (DataFrame pyfloat * Series pyfloat) :=
  let assets := columns returns in
  let target := weight_vector assets target_weights in
  let weights_df :=
    map (fun r => (fst r, repeat NaN (length assets))) (rows returns) in
  if valid_freq freq
  then
    do st <- run_periods assets target (mkSim target weights_df [])
                         (groupby freq returns);
    Ok (mkDF assets (sim_weights st), sim_turnovers st)
  else Raise ValueError.                   (* pd.Grouper(freq=freq) *)
End Rebalancing.

(** ** portfolio_optimization.py: the three optimizers *)

Inductive constraint_type := EqC | IneqC.

Record constraint := mkCons {
  ctype : constraint_type;
  cfun : list Q -> pyfloat
}.

Record solver_options := mkOptions { ftol : Q; maxiter : Z }.

Record OptimizeResult := mkRes {
  res_x : list Q;
  res_success : bool;
  res_message : string
}.

(** [scipy.optimize.minimize(fun, x0, method=, bounds=, constraints=,
    options=)], on a problem with at least one variable (on an empty one
    SciPy raises ValueError, which this interface leaves out). *)
Class ScipyOptimize := {
  minimize : (list Q -> pyfloat) -> list Q -> string -> list (Q * Q) ->
             list constraint -> solver_options -> OptimizeResult
}.

(** What a call hands back: the lines it printed and what it returned or
    raised. *)
Record outcome (A : Type) := mkOut {
  printed : list string;
  returned : result A
}.
Arguments mkOut {A}.
Arguments printed {A}.
Arguments returned {A}.

Definition fdot (u v : list pyfloat) : pyfloat := fsum (map2 fmul u v).

(** [w @ M] for a matrix given by its rows, [n] columns. *)
Definition vecmat (w : list pyfloat) (M : list (list pyfloat)) (n : nat)
  : list pyfloat :=
  map (fun j => fdot w (map (fun row => nth j row NaN) M)) (seq 0 n).

(** [M @ w]. *)
Definition matvec (M : list (list pyfloat)) (w : list pyfloat)
  : list pyfloat :=
  map (fun row => fdot row w) M.

Definition column_values (df : DataFrame Q) (j : nat) : list Q :=
  map (fun r => nth j (snd r) 0) (rows df).

(** One entry of [DataFrame.cov()] (ddof = 1). *)
Definition cov (xs ys : list Q) : pyfloat :=
  match mean xs, mean ys with
  | Fin mx, Fin my =>
      fdiv (Fin (Qsum (map2 (fun x y => (x - mx) * (y - my)) xs ys)))
           (Fin (inject_Z (Z.of_nat (length xs)) - 1))
  | _, _ => NaN
  end.

(** [returns.mean() * TRADING_DAYS] *)
Definition annualized_mean (returns : DataFrame Q) : list pyfloat :=
  map (fun j => fmul (mean (column_values returns j)) (Fin TRADING_DAYS))
      (seq 0 (length (columns returns))).

(** [returns.cov() * TRADING_DAYS] *)
Definition annualized_cov (returns : DataFrame Q) : list (list pyfloat) :=
  let n := length (columns returns) in
  map (fun i =>
         map (fun j => fmul (cov (column_values returns i)
                                 (column_values returns j))
                            (Fin TRADING_DAYS))
             (seq 0 n))
      (seq 0 n).

(** [np.clip(x, 0, 1)] *)
Definition clip01 (x : Q) : Q := Qmin (Qmax x 0) 1.

(** [{assets[i]: float(w[i]) for i in range(n)}] *)
Fixpoint weights_dict_from (assets : list string) (w : list pyfloat)
    (ixs : list nat) (d : list (string * pyfloat))
  : result (list (string * pyfloat)) :=
  match ixs with
  | [] => Ok d
  | i :: ixs' =>
      match assets !! i, w !! i with
      | Some a, Some v => weights_dict_from assets w ixs' (dict_set a v d)
      | _, _ => Raise IndexError
      end
  end.

Definition weights_dict (assets : list string) (w : list pyfloat) (n : nat)
  : result (list (string * pyfloat)) :=
  weights_dict_from assets w (seq 0 n) [].

Definition slsqp_options : solver_options := mkOptions (1 # 1000000000) 1000.

Section Optimizers.
Context `{NumpyMath} `{ScipyOptimize}.

(** The two siblings share everything after the solver call: the warning,
    the clipping, the renormalization and the dictionary. *)
Definition clip_and_renormalize (assets : list string) (n : nat)
    (res : OptimizeResult) : outcome (list (string * pyfloat)) :=
  let out := if res_success res then []
             else ["⚠ Optimization failed: " ++ res_message res]%string in
  let w_opt := map clip01 (res_x res) in
  let w_opt := normalize_row w_opt in
  mkOut out (weights_dict assets w_opt n).

Definition recommend_weights_for_target_return (returns : DataFrame Q)
    (target_annual_ret min_weight max_weight : Q)
  : outcome (list (string * pyfloat)) :=
  let assets := columns returns in
  let mean_ann := annualized_mean returns in
  let cov_ann := annualized_cov returns in
  let n := length assets in
  let obj := fun w : list Q =>
    fdot (vecmat (map Fin w) cov_ann n) (map Fin w) in
  let cons :=
    [ mkCons EqC (fun w => Fin (Qsum w - 1));
      mkCons IneqC (fun w => fsub (fdot (map Fin w) mean_ann)
                                  (Fin target_annual_ret)) ] in
  let bounds := repeat (min_weight, max_weight) n in
  match n with
  | O => mkOut [] (Raise ZeroDivisionError)             (* 1.0 / n *)
  | _ =>
      let x0 := repeat (1 / inject_Z (Z.of_nat n)) n in
      let res := minimize obj x0 "SLSQP" bounds cons slsqp_options in
      clip_and_renormalize assets n res
  end.

Definition recommend_weights_for_max_vol (returns : DataFrame Q)
    (max_annual_vol min_weight max_weight : Q)
  : outcome (list (string * pyfloat)) :=
  let assets := columns returns in
  let mean_ann := annualized_mean returns in
  let cov_ann := annualized_cov returns in
  let n := length assets in
  let obj := fun w : list Q => fopp (fdot (map Fin w) mean_ann) in
  let vol_con := fun w : list Q =>
    let vol := np_sqrt (fdot (vecmat (map Fin w) cov_ann n) (map Fin w)) in
    fsub (Fin max_annual_vol) vol in
  let cons :=
    [ mkCons EqC (fun w => Fin (Qsum w - 1));
      mkCons IneqC vol_con ] in
  let bounds := repeat (min_weight, max_weight) n in
  match n with
  | O => mkOut [] (Raise ZeroDivisionError)             (* 1.0 / n *)
  | _ =>
      let x0 := repeat (1 / inject_Z (Z.of_nat n)) n in
      let res := minimize obj x0 "SLSQP" bounds cons slsqp_options in
      clip_and_renormalize assets n res
  end.

Definition optimize_portfolio_sharpe (returns : DataFrame Q)
    (min_weight max_weight risk_free_rate : Q)
  : outcome (list (string * pyfloat)) :=
  let assets := columns returns in
  let n := length assets in
  let mean_returns := annualized_mean returns in
  let cov_matrix := annualized_cov returns in
  let neg_sharpe := fun w : list Q =>
    let port_return := fdot (map Fin w) mean_returns in
    let port_vol :=
      np_sqrt (fdot (map Fin w) (matvec cov_matrix (map Fin w))) in
    if fne port_vol (Fin 0)
    then fopp (fdiv (fsub port_return (Fin risk_free_rate)) port_vol)
    else Fin 1000000 in
  let constraints := [ mkCons EqC (fun w => Fin (Qsum w - 1)) ] in
  let bounds := repeat (min_weight, max_weight) n in
  let x0 := repeat (1 / inject_Z (Z.of_nat n)) n in
  let res := minimize neg_sharpe x0 "SLSQP" bounds constraints
                      slsqp_options in
  let out := if res_success res then []
             else ["⚠ Optimization warning: " ++ res_message res]%string in
  mkOut out (weights_dict assets (map Fin (res_x res)) n).
End Optimizers.

(** ** portfolio_optimization.py: random portfolios *)

(** NumPy's process-wide generator.  [np.random.seed(s)] replaces the global
    state by one computed from [s] alone (or raises on a seed it rejects);
    [np.random.dirichlet(alpha, size)] reads the global state and advances
    it. *)
Class NumpyRandom := {
  rng_state : Type;
  np_random_seed : Z -> result rng_state;
  np_random_dirichlet :
    list Q -> Z -> rng_state -> result (list (list Q)) * rng_state
}.

Fixpoint index_of (a : string) (l : list string) : option nat :=
  match l with
  | [] => None
  | b :: l' => if decide (a = b) then Some O else option_map S (index_of a l')
  end.

Fixpoint result_mapM {A B} (f : A -> result B) (l : list A)
  : result (list B) :=
  match l with
  | [] => Ok []
  | a :: l' => do b <- f a; do bs <- result_mapM f l'; Ok (b :: bs)
  end.

(** [portfolio_return_series]: [returns[cols].dot(w)]. *)
Definition portfolio_return_series (returns : DataFrame Q)
    (weights : list (string * Q)) : result (Series Q) :=
  let cols := map fst weights in
  let w := map snd weights in
  do idxs <- result_mapM
               (fun c => match index_of c (columns returns) with
                         | Some i => Ok i
                         | None => Raise KeyError
                         end) cols;
  Ok (map (fun r =>
             (fst r,
              Qsum (map2 Qmult (map (fun i => nth i (snd r) 0) idxs) w)))
          (rows returns)).

Record PortfolioSample := mkSample {
  s_CAGR : pyfloat;
  s_AnnualVol : pyfloat;
  s_Sharpe : pyfloat;
  s_MaxDrawdown : pyfloat;
  s_weights : list (string * Q);       (* the w_<asset> columns *)
  s_Return : pyfloat
}.

(** [{k(a): s[i] for i, a in enumerate(assets)}] *)
Fixpoint enumerate_dict (key : string -> string) (assets : list string)
    (s : list Q) (i : nat) (d : list (string * Q))
  : result (list (string * Q)) :=
  match assets with
  | [] => Ok d
  | a :: assets' =>
      match s !! i with
      | Some v => enumerate_dict key assets' s (S i) (dict_set (key a) v d)
      | None => Raise IndexError
      end
  end.

Section Sampler.
Context `{NumpyMath} `{NumpyRandom}.

(** The body of the loop over the samples. *)
Definition sample_row (returns : DataFrame Q) (s : list Q)
  : result PortfolioSample :=
  let assets := columns returns in
  do w <- enumerate_dict (fun a => a) assets s 0 [];
  do port_rets <- portfolio_return_series returns w;
  do mets <- portfolio_metrics_from_returns port_rets 1 0;
  do wcols <- enumerate_dict (fun a => "w_" ++ a)%string assets s 0 [];
  Ok (mkSample (CAGR mets) (AnnualVol mets) (Sharpe mets)
               (MaxDrawdown mets) wcols (CAGR mets)).

(** The function threads the process-wide generator state: it receives the
    state the process is in and hands back the state it leaves. *)
Definition generate_random_portfolios (returns : DataFrame Q)
    (num_portfolios : Z) (seed : Z) (g : rng_state)
  : result (list PortfolioSample) * rng_state :=
  match np_random_seed seed with
  | Raise e => (Raise e, g)
  | Ok g1 =>
      let assets := columns returns in
      let n := length assets in
      let '(drawn, g2) :=
        np_random_dirichlet (repeat 1 n) num_portfolios g1 in
      (do samples <- drawn;
       do rws <- result_mapM (sample_row returns) samples;
       match rws with
       | [] => Raise KeyError                       (* df["CAGR"] *)
       | _ => Ok rws
       end,
       g2)
  end.
End Sampler.

(** ** Reference definitions for the properties *)

(** Running maximum of a plain value series, [max(value(0..t))]. *)
Fixpoint running_max_from (acc : Q) (l : list Q) : list Q :=
  match l with
  | [] => []
  | v :: l' => let m := Qmax acc v in m :: running_max_from m l'
  end.

Definition running_max (l : list Q) : list Q :=
  match l with
  | [] => []
  | v :: l' => v :: running_max_from v l'
  end.

(** [value(t) / runningMax(value, 0..t) - 1] at every [t]. *)
Definition drawdowns (l : list Q) : list Q :=
  map2 (fun v m => v / m - 1) l (running_max l).

Definition Qlist_min (l : list Q) : Q :=
  match l with
  | [] => 0
  | x :: l' => fold_left Qmin l' x
  end.

(** The drawdown formula read off the metric's description: the minimum over
    time of [value(t) / runningMax(value, 0..t) - 1]. *)
Definition max_drawdown_formula (l : list Q) : Q := Qlist_min (drawdowns l).

Fixpoint nondecreasing (l : list Q) : Prop :=
  match l with
  | [] => True
  | x :: l' => match l' with
               | [] => True
               | y :: _ => x <= y /\ nondecreasing l'
               end
  end.

(** Buy and hold as it is described: every asset starts at its initial
    weight, and at each date its tracked value is multiplied by one plus its
    return on that date. *)
Definition tracked_values (returns : DataFrame Q)
    (init_weights : gmap string Q) : list (date * list Q) :=
  cumprod_rows_from (weight_vector (columns returns) init_weights)
                    (rows returns).

(** Two weight tables with the same labels and the same values. *)
Definition same_rows (a b : list (date * list pyfloat)) : Prop :=
  Forall2 (fun r1 r2 => fst r1 = fst r2 /\ Forall2 feq (snd r1) (snd r2)) a b.

Definition same_frame (a b : DataFrame pyfloat) : Prop :=
  columns a = columns b /\ same_rows (rows a) (rows b).

(** The rebalancing loop without the table: the value vector at the last date
    of a period, before it is reset. *)
Definition compound (values : list Q) (group : list (date * list Q))
  : list Q :=
  fold_left (fun v dr => map2 (fun x r => x * (1 + r)) v (snd dr)) group values.

(** The turnover of the specification: half the sum over the assets of
    |target weight - pre-rebalance weight|. *)
Definition turnover_formula (target : list Q) (pre_weights : list pyfloat)
  : pyfloat :=
  fmul (Fin 0.5)
       (fsum (map fabs (map2 (fun t p => fsub (Fin t) p) target pre_weights))).

(** The turnover records the loop is expected to leave: one per non-empty
    period, keyed by the period's last date, computed from the weights the
    values have drifted to; the values then restart from
    [totalValue * target]. *)
Fixpoint expected_turnovers (target values : list Q)
    (groups : list (list (date * list Q))) : list (date * pyfloat) :=
  match groups with
  | [] => []
  | [] :: gs => expected_turnovers target values gs
  | (r0 :: g) :: gs =>
      let v := compound values (r0 :: g) in
      (fst (List.last (r0 :: g) r0),
       turnover_formula target (normalize_row v))
        :: expected_turnovers target (map (fun t => Qsum v * t) target) gs
  end.

(** The last dates of the non-empty periods, in order. *)
Fixpoint end_dates (groups : list (list (date * list Q))) : list date :=
  match groups with
  | [] => []
  | [] :: gs => end_dates gs
  | (r0 :: g) :: gs => fst (List.last (r0 :: g) r0) :: end_dates gs
  end.

(** The value vectors the simulation can reach from a proper target when no
    return is -100% or worse: non-negative entries with a positive total. *)
Definition healthy (n : nat) (v : list Q) : Prop :=
  Forall (fun x => 0 <= x) v /\ 0 < Qsum v /\ length v = n.

(** A solver that keeps its iterate inside the box it is given. *)
Definition respects_bounds (solver : ScipyOptimize) : Prop :=
  forall obj x0 method bounds cons opts,
    length x0 = length bounds ->
    Forall (fun b => fst b <= snd b) bounds ->
    Forall2 (fun x b => fst b <= x /\ x <= snd b)
            (res_x (minimize obj x0 method bounds cons opts)) bounds.

(** ** The buy-and-hold path on binary64 numbers

    [weights_over_time_buy_and_hold] once more, on IEEE binary64 values with
    their rounding (the kernel's primitive floats), on the rows of the
    returns and the weight vector [w0]; a row is summed from left to
    right. *)
Module Binary64.
Import PrimFloat.
Local Open Scope float_scope.

Definition row_mul (a b : list float) : list float := map2 PrimFloat.mul a b.

(** [(1 + returns).cumprod()] *)
Fixpoint cumprod_from (acc : option (list float)) (l : list (list float))
  : list (list float) :=
  match l with
  | [] => []
  | r :: l' =>
      let a := match acc with
               | None => r
               | Some p => row_mul p r
               end in
      a :: cumprod_from (Some a) l'
  end.

Definition row_sum (r : list float) : float := fold_left PrimFloat.add r 0.

Definition weights_over_time_buy_and_hold (returns : list (list float))
    (w0 : list float) : list (list float) :=
  let cum := cumprod_from None (map (map (fun r => 1 + r)) returns) in
  let values := map (fun row => row_mul row w0) cum in
  map (fun row => map (fun v => v / row_sum row) row) values.



End Binary64.

(** ** Computable implementations of the library interfaces

    They let the definitions above run on concrete inputs.  The square root
    is exact on squares of rationals and rounds down otherwise, the power
    rounds its exponent down; the calendar has thirty-day periods and knows
    the aliases M, Q, 6M and A; the solver
    stops at the projection of the initial guess on the box; the generator
    keeps a counter and draws the centre of the simplex. *)

Definition simple_sqrt (a : pyfloat) : pyfloat :=
  match a with
  | Fin q =>
      if Qneg_bool q then NaN
      else Fin (Z.sqrt (Qnum q * Zpos (Qden q)) # Qden q)
  | Inf false => Inf false
  | Inf true => NaN
  | NaN => NaN
  end.

Definition simple_power (a b : pyfloat) : pyfloat :=
  match a, b with
  | Fin x, Fin y => Fin (Qpower x (Qfloor y))
  | _, _ => NaN
  end.

Definition simple_math : NumpyMath := Build_NumpyMath simple_sqrt simple_power.

Definition thirty_day_calendar : PandasGrouper :=
  Build_PandasGrouper
    (fun freq => existsb (String.eqb freq) ["M"; "Q"; "6M"; "A"]%string)
    (fun _ d => (d / 30)%Z).

Definition box_projection (x0 : list Q) (bounds : list (Q * Q)) : list Q :=
  map2 (fun x b => Qmin (Qmax x (fst b)) (snd b)) x0 bounds.

Definition projecting_solver : ScipyOptimize :=
  Build_ScipyOptimize
    (fun _ x0 _ bounds _ _ =>
       let x := box_projection x0 bounds in
       mkRes x (Qeq_bool (Qsum x) 1) "stopped at the projected initial guess").

Definition counter_generator : NumpyRandom :=
  Build_NumpyRandom Z
    (fun s => if ((0 <=? s) && (s <? 2 ^ 32))%Z then Ok s else Raise ValueError)
    (fun alpha size g =>
       if (size <? 0)%Z then (Raise ValueError, g)
       else (Ok (repeat (map (fun a => a / Qsum alpha) alpha) (Z.to_nat size)),
             (g + size * Z.of_nat (length alpha))%Z)).

(** ** Sample inputs *)

(** Two assets over four dates falling in the first, second and fourth
    thirty-day period. *)
Definition example_returns : DataFrame Q :=
  mkDF ["A"; "B"]%string
       [ (0%Z, [0.01; 0.00]); (1%Z, [-0.01; 0.01]);
         (45%Z, [0.02; -0.01]); (100%Z, [0.00; 0.02]) ].

Definition example_weights : gmap string Q :=
  <["A"%string := 0.6]> (<["B"%string := 0.4]> ∅).

Definition equal_weights : gmap string Q :=
  <["A"%string := 0.5]> (<["B"%string := 0.5]> ∅).

(** One period in which A gains 20% and B loses 20%: from the target
    (0.5, 0.5) the weights drift to (0.6, 0.4). *)
Definition drift_returns : DataFrame Q :=
  mkDF ["A"; "B"]%string [ (0%Z, [0.2; -0.2]) ].

(** A day on which nothing moves, and a day on which A's (log) return is
    below -1. *)
Definition flat_returns : DataFrame Q :=
  mkDF ["A"; "B"]%string [ (0%Z, [0; 0]) ].

Definition crash_returns : DataFrame Q :=
  mkDF ["A"; "B"]%string [ (0%Z, [-1.5; 0]) ].

(** Two rows with the same date, and a frame with two dates and no
    column. *)
Definition repeated_date_returns : DataFrame Q :=
  mkDF ["A"; "B"]%string [ (0%Z, [0.2; -0.2]); (0%Z, [0; 0]) ].

Definition no_column_returns : DataFrame Q :=
  mkDF [] [ (0%Z, []); (1%Z, []) ].

(** Target weights that add up to 4. *)
Definition leveraged_weights : gmap string Q :=
  <["A"%string := 2]> (<["B"%string := 2]> ∅).

(** A weight mapping that does not mention asset B. *)
Definition partial_weights : gmap string Q := <["A"%string := 1]> ∅.

Definition single_asset_returns : DataFrame Q :=
  mkDF ["A"]%string [ (0%Z, [0.01]); (1%Z, [-0.01]); (2%Z, [0.02]) ].

(** ** Further definitions *)

(** Values that are not finite. *)
Definition special (a : pyfloat) : Prop :=
  match a with Fin _ => False | _ => True end.

(** A row of portfolio weights in the proper sense: finite entries between 0
    and 1 that sum to 1. *)
Definition proper_weights (row : list pyfloat) : Prop :=
  feq (fsum row) (Fin 1) /\
  Forall (fun c => exists w, c = Fin w /\ 0 <= w /\ w <= 1) row.

(** Returns above -100%, one per column. *)
Definition ordinary_rows (n : nat) (rs : list (date * list Q)) : Prop :=
  Forall (fun r => length (snd r) = n /\ Forall (fun x => -1 < x) (snd r)) rs.

(** Rows on which nothing moves, one return per column. *)
Definition flat_rows (n : nat) (rs : list (date * list Q)) : Prop :=
  Forall (fun r => length (snd r) = n /\ Forall (fun x => x == 0) (snd r)) rs.

(** The rows of a weight table whose date satisfies [P] hold proper
    weights. *)
Definition table_ok (P : date -> Prop) (tbl : list (date * list pyfloat))
  : Prop :=
  Forall (fun dr => P (fst dr) -> proper_weights (snd dr)) tbl.

(** ** The rest of portfolio_utils.py *)

(** A Python number that is either a float or a complex number (what [**]
    returns for a negative base and a fractional exponent); complex values
    are kept opaque. *)
Inductive pynumber :=
| PyFloat (x : pyfloat)
| PyComplex.

Definition pn_sub (a b : pynumber) : pynumber :=
  match a, b with
  | PyFloat x, PyFloat y => PyFloat (fsub x y)
  | _, _ => PyComplex
  end.

(** Python's [x ** y] on two floats: a float, a complex number, or
    ZeroDivisionError (zero to a negative power). *)
Class PythonMath := {
  py_pow : Q -> Q -> result pynumber
}.

Class NumpyLog := {
  np_log : pyfloat -> pyfloat
}.

(** Dates are whole days.  [timestamp y m d] is [pd.Timestamp('y-m-d')] and
    [year_of] is [DatetimeIndex.year]. *)
Class PandasCalendar := {
  timestamp : Z -> Z -> Z -> date;
  year_of : date -> Z
}.

(** *** compute_returns *)

(** [prices / prices.shift(1)]: the first row has nothing before it. *)
Fixpoint ratios_from (prev : list Q) (l : list (date * list Q))
  : list (date * list pyfloat) :=
  match l with
  | [] => []
  | (d, r) :: l' =>
      (d, map2 (fun p q => fdiv (Fin p) (Fin q)) r prev) :: ratios_from r l'
  end.

Definition price_ratios (l : list (date * list Q))
  : list (date * list pyfloat) :=
  match l with
  | [] => []
  | (d, r) :: l' => (d, map (fun _ => NaN) r) :: ratios_from r l'
  end.

(** [DataFrame.dropna()]: the rows with a NaN are removed. *)
Definition dropna (l : list (date * list pyfloat))
  : list (date * list pyfloat) :=
  List.filter (fun r => negb (existsb is_nan (snd r))) l.

Section ComputeReturns.
Context `{NumpyLog}.

Definition compute_returns (prices : DataFrame Q) (method : string)
  : DataFrame pyfloat :=
  let ratios := price_ratios (rows prices) in
  if String.eqb method "log"
  then mkDF (columns prices)
            (dropna (map (fun r => (fst r, map np_log (snd r))) ratios))
  else mkDF (columns prices)                         (* pct_change *)
            (dropna (map (fun r => (fst r,
                                    map (fun x => fsub x (Fin 1)) (snd r)))
                         ratios)).
End ComputeReturns.

(** *** apply_annual_fees *)

(** [d.get(k, default)] on a dictionary given by its items. *)
Fixpoint items_get {V} (k : string) (d : list (string * V)) (default : V)
  : V :=
  match d with
  | [] => default
  | (k', v) :: d' => if decide (k = k') then v else items_get k d' default
  end.

Section Fees.
Context `{PythonMath}.

(** [(1 + v) ** (1 / TRADING_DAYS) - 1] *)
Definition daily_rate (annual : Q) (days : Q) : result pynumber :=
  do p <- py_pow (1 + annual) (1 / days);
  Ok (pn_sub p (PyFloat (Fin 1))).

(** The fees are the dictionary's items in insertion order; the column
    labels of the returns are taken to be distinct. *)
Definition apply_annual_fees (returns : DataFrame Q)
    (annual_fees : list (string * Q)) : result (DataFrame pynumber) :=
  do daily_fees <-
     result_mapM (fun kv => do f <- daily_rate (snd kv) TRADING_DAYS;
                            Ok (fst kv, f)) annual_fees;
  Ok (mkDF (columns returns)
           (map (fun r =>
                   (fst r,
                    map2 (fun col x =>
                            pn_sub (PyFloat (Fin x))
                                   (items_get col daily_fees
                                              (PyFloat (Fin 0))))
                         (columns returns) (snd r)))
                (rows returns))).
End Fees.

(** *** get_historical_riksbanken_rate and add_cash_returns *)

Section Cash.
Context `{PandasCalendar} `{PythonMath}.

Definition get_historical_riksbanken_rate (d : date) : Q :=
  if (d <? timestamp 2009 1 1)%Z then 0.035
  else if (d <? timestamp 2010 7 1)%Z then 0.005
  else if (d <? timestamp 2021 1 1)%Z then 0.000
  else if (d <? timestamp 2022 4 1)%Z then 0.000
  else if (d <? timestamp 2022 9 1)%Z then 0.0075
  else if (d <? timestamp 2022 11 1)%Z then 0.015
  else if (d <? timestamp 2022 12 1)%Z then 0.020
  else if (d <? timestamp 2023 2 1)%Z then 0.020
  else if (d <? timestamp 2023 9 1)%Z then 0.025
  else if (d <? timestamp 2024 1 1)%Z then 0.0275
  else if (d <? timestamp 2024 5 1)%Z then 0.035
  else 0.035.

(** [out[name] = values]: an existing column is overwritten in place, a new
    one is appended. *)
Definition set_column {A} (name : string) (values : list A)
    (df : DataFrame A) : DataFrame A :=
  match index_of name (columns df) with
  | Some j =>
      mkDF (columns df)
           (map2 (fun r v => (fst r, <[j := v]> (snd r))) (rows df) values)
  | None =>
      mkDF (columns df ++ [name])
           (map2 (fun r v => (fst r, snd r ++ [v])) (rows df) values)
  end.

(** [(1 + rate) ** (1 / trading_days) - 1], with Python's integer
    division by [trading_days] raising on zero. *)
Definition daily_cash_rate (rate : Q) (trading_days : Z) : result pynumber :=
  if (trading_days =? 0)%Z then Raise ZeroDivisionError
  else daily_rate rate (inject_Z trading_days).

Definition add_cash_returns (returns : DataFrame pynumber)
    (cash_rate : option Q) (bank_margin : Q) (use_riksbanken : bool)
    (trading_days : Z) : result (DataFrame pynumber) :=
  match use_riksbanken, cash_rate with
  | true, None =>
      do cash_rates <-
         result_mapM (fun d =>
                        let repo_rate := get_historical_riksbanken_rate d in
                        let effective_rate := repo_rate + bank_margin in
                        daily_cash_rate effective_rate trading_days)
                     (index returns);
      Ok (set_column "Cash" cash_rates returns)
  | _, _ =>
      let cash_rate := default 0.02 cash_rate in
      do daily_cash <- daily_cash_rate cash_rate trading_days;
      Ok (set_column "Cash" (repeat daily_cash (length (rows returns)))
                     returns)
  end.
End Cash.

(** *** apply_isk_simple_tax_on_annual *)

Section Isk.
Context `{PandasCalendar}.

(** [vals.groupby(yrs).apply(lambda s: s.index[-1])]: for every calendar year
    that has dates, in ascending order, the last of its dates. *)
Definition year_ends (idx : list date) : list date :=
  match idx with
  | [] => []
  | d0 :: _ =>
      let ys := map year_of idx in
      let lo := Zlist_min (year_of d0) ys in
      let hi := Zlist_max (year_of d0) ys in
      omap (fun y => last (List.filter (fun d => Z.eqb (year_of d) y) idx))
           (seqZ lo (hi - lo + 1))
  end.

(** [vals.loc[idx:] = vals.loc[idx:] - amount] on an index in increasing
    order: the entries from the one dated [idx] on. *)
Fixpoint deduct_from (idx : date) (amount : Q) (started : bool)
    (l : Series Q) : Series Q :=
  match l with
  | [] => []
  | (d, v) :: l' =>
      let s := started || Z.eqb d idx in
      (d, if s then v - amount else v) :: deduct_from idx amount s l'
  end.

(** [vals.loc[idx]] *)
Definition series_get (idx : date) (l : Series Q) : result Q :=
  match List.find (fun dv => Z.eqb (fst dv) idx) l with
  | Some dv => Ok (snd dv)
  | None => Raise KeyError
  end.

Definition tax_year (annual_tax_rate : Q) (vals : Series Q) (idx : date)
  : result (Series Q) :=
  do tax_base <- series_get idx vals;
  Ok (deduct_from idx (annual_tax_rate * tax_base) false vals).

Fixpoint tax_years (annual_tax_rate : Q) (vals : Series Q)
    (ends : list date) : result (Series Q) :=
  match ends with
  | [] => Ok vals
  | idx :: ends' =>
      do vals' <- tax_year annual_tax_rate vals idx;
      tax_years annual_tax_rate vals' ends'
  end.

Definition apply_isk_simple_tax_on_annual (values : Series Q)
    (annual_tax_rate : Q) : result (Series Q) :=
  tax_years annual_tax_rate values (year_ends (map fst values)).
End Isk.

(** *** A proleptic Gregorian calendar *)

(** Days since 1970-01-01 of a civil date, and the year of a day number. *)
Definition days_from_civil (y m d : Z) : Z :=
  let y' := (if m <=? 2 then y - 1 else y)%Z in
  let era := (y' / 400)%Z in
  let yoe := (y' - era * 400)%Z in
  let mp := ((m + 9) mod 12)%Z in
  let doy := ((153 * mp + 2) / 5 + d - 1)%Z in
  let doe := (yoe * 365 + yoe / 4 - yoe / 100 + doy)%Z in
  (era * 146097 + doe - 719468)%Z.

Definition year_from_days (z0 : Z) : Z :=
  let z := (z0 + 719468)%Z in
  let era := (z / 146097)%Z in
  let doe := (z - era * 146097)%Z in
  let yoe := ((doe - doe / 1460 + doe / 36524 - doe / 146096) / 365)%Z in
  let doy := (doe - (365 * yoe + yoe / 4 - yoe / 100))%Z in
  let mp := ((5 * doy + 2) / 153)%Z in
  let m := (if mp <? 10 then mp + 3 else mp - 9)%Z in
  (yoe + era * 400 + (if m <=? 2 then 1 else 0))%Z.

Definition civil_calendar : PandasCalendar :=
  Build_PandasCalendar days_from_civil year_from_days.

(** A power that is exact for the exponent 1 and rounds other exponents
    down, and a logarithm that only knows log 1 = 0. *)
Definition simple_pow : PythonMath :=
  Build_PythonMath
    (fun x y => if Qneg_bool x then Ok PyComplex
                else Ok (PyFloat (Fin (Qpower x (Qfloor y))))).

Definition simple_log : NumpyLog :=
  Build_NumpyLog
    (fun a => match a with
              | Fin q => if Qeq_bool q 1 then Fin 0
                         else if Qle_bool q 0 then NaN else Fin (q - 1)
              | Inf false => Inf false
              | _ => NaN
              end).

(** Prices of two assets on three days, and a portfolio value series across
    two year ends. *)
Definition example_prices : DataFrame Q :=
  mkDF ["A"; "B"]%string
       [ (0%Z, [100; 50]); (1%Z, [110; 45]); (2%Z, [121; 54]) ].

Definition example_values : Series Q :=
  [ (19000%Z, 100); (19357%Z, 110); (19400%Z, 120); (19722%Z, 130);
    (19800%Z, 125) ].

(** The column labelled [name], as a series of cells ([None] where a row is
    too short), if the frame has such a column. *)
Definition df_column {A} (name : string) (df : DataFrame A)
  : option (list (date * option A)) :=
  match index_of name (columns df) with
  | Some j => Some (map (fun r => (fst r, snd r !! j)) (rows df))
  | None => None
  end.

Definition sample_frame : DataFrame pynumber :=
  mkDF ["A"; "B"]%string
       [ (14000%Z, [PyFloat (Fin 0.01); PyFloat (Fin 0.02)]);
         (19300%Z, [PyFloat (Fin (-0.01)); PyFloat (Fin 0.00)]) ].

Definition sample_frame_with_cash : DataFrame pynumber :=
  mkDF ["Cash"; "A"]%string
       [ (14000%Z, [PyFloat (Fin 0.5); PyFloat (Fin 0.02)]);
         (19300%Z, [PyFloat (Fin 0.5); PyFloat (Fin 0.00)]) ].

(** Rows with the same dates and the same values. *)
Definition same_values (a b : list (date * list Q)) : Prop :=
  Forall2 (fun r1 r2 => fst r1 = fst r2 /\ Forall2 Qeq (snd r1) (snd r2)) a b.

Definition same_series (a b : Series Q) : Prop :=
  Forall2 (fun x y => fst x = fst y /\ snd x == snd y) a b.

(** Every row has [n] prices, none of them zero. *)
Definition nonzero_prices (n : nat) (rs : list (date * list Q)) : Prop :=
  Forall (fun r => length (snd r) = n /\ Forall (fun x => ~ x == 0) (snd r))
         rs.

(** * Properties *)

(** ** Extended rationals *)

Lemma feq_refl a : feq a a.
Proof. destruct a; simpl; auto. reflexivity. Qed.

Lemma feq_sym a b : feq a b -> feq b a.
Proof. destruct a, b; simpl; auto. intros E; symmetry; exact E. Qed.

Lemma feq_trans a b c : feq a b -> feq b c -> feq a c.
Proof.
  destruct a, b, c; simpl; try tauto; try congruence.
  intros E1 E2. rewrite E1. exact E2.
Qed.

#[export] Instance feq_equiv : Equivalence feq.
Proof. split; [exact feq_refl | exact feq_sym | exact feq_trans]. Qed.

Lemma Qeq_bool_false x y : Qeq_bool x y = false <-> ~ x == y.
Proof.
  split.
  - intros E F. apply Qeq_bool_iff in F. congruence.
  - intros F. destruct (Qeq_bool x y) eqn:E; [|reflexivity].
    apply Qeq_bool_iff in E. contradiction.
Qed.

Lemma Qle_bool_false x y : Qle_bool x y = false <-> y < x.
Proof.
  split.
  - intros E. apply Qnot_le_lt. intros F. apply Qle_bool_iff in F. congruence.
  - intros F. destruct (Qle_bool x y) eqn:E; [|reflexivity].
    apply Qle_bool_iff in E. lra.
Qed.

Lemma fdiv_Fin x y : ~ y == 0 -> fdiv (Fin x) (Fin y) = Fin (x / y).
Proof. intros Hy. simpl. apply Qeq_bool_false in Hy. now rewrite Hy. Qed.

Lemma fne_zero_false a : fne a (Fin 0) = false <-> feq a (Fin 0).
Proof.
  destruct a; simpl; try (split; [discriminate | tauto]).
  rewrite negb_false_iff. apply Qeq_bool_iff.
Qed.

Lemma fsum_Fin l : fsum (map Fin l) = Fin (Qsum l).
Proof. induction l as [|x l IH]; simpl; [reflexivity|]. now rewrite IH. Qed.

Lemma fmax_Fin a b : fmax (Fin a) (Fin b) = Fin (Qmax a b).
Proof.
  unfold fmax, flt, Qmax, GenericMinMax.gmax.
  destruct (Qle_bool b a) eqn:E; cbn [negb].
  - apply Qle_bool_iff in E. destruct (a ?= b) eqn:C; try reflexivity.
    apply Qlt_alt in C. lra.
  - apply Qle_bool_false in E.
    pose proof (proj1 (Qlt_alt a b) E) as C. now rewrite C.
Qed.

Lemma fmin_Fin a b : fmin (Fin a) (Fin b) = Fin (Qmin a b).
Proof.
  unfold fmin, flt, Qmin, GenericMinMax.gmin.
  destruct (Qle_bool a b) eqn:E; cbn [negb].
  - apply Qle_bool_iff in E. destruct (a ?= b) eqn:C; try reflexivity.
    apply Qgt_alt in C. lra.
  - apply Qle_bool_false in E.
    pose proof (proj1 (Qgt_alt a b) E) as C. now rewrite C.
Qed.

(** ** Metrics *)

(** C7. [sharpe_ratio] is a total function (it returns a float and never
    raises).  When the annualized volatility is exactly zero it returns the
    NaN sentinel; otherwise it returns
    (annualized mean - risk-free) / annualized volatility. *)
Theorem sharpe_ratio_zero_volatility `{NumpyMath}
    (returns : Series Q) (risk_free : Q) :
  (feq (annualized_vol returns) (Fin 0) ->
   sharpe_ratio returns risk_free = NaN) /\
  (~ feq (annualized_vol returns) (Fin 0) ->
   sharpe_ratio returns risk_free =
   fdiv (fsub (fmul (mean (map snd returns)) (Fin TRADING_DAYS))
              (Fin risk_free))
        (annualized_vol returns)).
Proof.
  unfold sharpe_ratio.
  destruct (fne (annualized_vol returns) (Fin 0)) eqn:E; split; intros Hv.
  - apply fne_zero_false in Hv. congruence.
  - reflexivity.
  - reflexivity.
  - apply fne_zero_false in E. contradiction.
Qed.

(** A constant return series has zero volatility: its Sharpe ratio is NaN. *)
Lemma sharpe_ratio_constant_series :
  @sharpe_ratio simple_math [(0%Z, 0.01); (1%Z, 0.01); (2%Z, 0.01)] 0 = NaN.
Proof.
  apply (proj1 (@sharpe_ratio_zero_volatility simple_math
                  [(0%Z, 0.01); (1%Z, 0.01); (2%Z, 0.01)] 0)).
  vm_compute. reflexivity.
Defined.

Lemma Qsum_repeat (c : Q) (n : nat) :
  Qsum (repeat c n) == inject_Z (Z.of_nat n) * c.
Proof.
  induction n as [|n IH].
  - simpl. ring.
  - rewrite Nat2Z.inj_succ. unfold Z.succ. rewrite inject_Z_plus.
    change (Qsum (repeat c (S n))) with (c + Qsum (repeat c n)).
    rewrite IH. ring.
Qed.

Lemma Qsum_all_zero (l : list Q) : Forall (fun x => x == 0) l -> Qsum l == 0.
Proof.
  induction 1 as [|x l Hx Hl IH]; simpl; [reflexivity|].
  rewrite Hx, IH. ring.
Qed.

(** X4: A series of two or more returns that are all zero has no volatility:
    whenever the square root maps zero to zero, its Sharpe ratio is NaN. *)
Theorem sharpe_ratio_zero_returns `{NumpyMath} (returns : Series Q)
    (risk_free : Q) :
  (forall q, q == 0 -> feq (np_sqrt (Fin q)) (Fin 0)) ->
  (2 <= length returns)%nat ->
  Forall (fun dv => snd dv = 0) returns ->
  sharpe_ratio returns risk_free = NaN.
Proof.
  intros Hsqrt Hlen Hconst.
  assert (Hl : map snd returns = repeat 0 (length returns)).
  { clear Hlen. induction Hconst as [|[d v] l Hv Hc IH]; simpl in *;
      [reflexivity|]. now rewrite Hv, IH. }
  unfold sharpe_ratio, annualized_vol, std, mean.
  rewrite Hl, repeat_length.
  set (n := inject_Z (Z.of_nat (length returns))).
  assert (Hn : 2 <= n).
  { unfold n. change 2 with (inject_Z 2). rewrite <- Zle_Qle. lia. }
  rewrite (fdiv_Fin _ n) by lra.
  rewrite (fdiv_Fin _ (n - 1)) by lra.
  set (m := Qsum (repeat 0 (length returns)) / n).
  assert (Hm : m == 0).
  { unfold m. rewrite Qsum_repeat. fold n. field. lra. }
  set (var := Qsum (map (fun x => (x - m) * (x - m))
                        (repeat 0 (length returns))) / (n - 1)).
  assert (Hvar : var == 0).
  { unfold var. rewrite Qsum_all_zero; [field; lra|].
    apply Forall_map, Forall_forall. intros x Hx.
    apply list_elem_of_In, repeat_spec in Hx. subst x. cbv beta.
    rewrite Hm. ring. }
  specialize (Hsqrt var Hvar).
  destruct (np_sqrt (Fin var)) as [z| |]; simpl in Hsqrt; try contradiction.
  destruct (np_sqrt (Fin TRADING_DAYS)) as [k|s|]; simpl.
  - assert (E : Qeq_bool (z * k) 0 = true)
      by (apply Qeq_bool_iff; rewrite Hsqrt; ring).
    now rewrite E.
  - assert (E : Qeq_bool z 0 = true) by (apply Qeq_bool_iff; exact Hsqrt).
    now rewrite E.
  - reflexivity.
Qed.

Lemma cummax_from_Fin (l : list Q) (acc : Q) :
  cummax_from (Some (Fin acc)) (map Fin l) = map Fin (running_max_from acc l).
Proof.
  revert acc. induction l as [|v l IH]; intros acc; simpl; [reflexivity|].
  rewrite fmax_Fin, IH. reflexivity.
Qed.

Lemma cummax_Fin (l : list Q) : cummax (map Fin l) = map Fin (running_max l).
Proof.
  destruct l as [|v l]; [reflexivity|].
  unfold cummax. simpl. now rewrite cummax_from_Fin.
Qed.

Lemma series_min_from_Fin (l : list Q) (acc : Q) :
  series_min_from (Some (Fin acc)) (map Fin l) = Fin (fold_left Qmin l acc).
Proof.
  revert acc. induction l as [|v l IH]; intros acc; simpl; [reflexivity|].
  rewrite fmin_Fin, IH. reflexivity.
Qed.

Lemma series_min_Fin (x : Q) (l : list Q) :
  series_min (map Fin (x :: l)) = Fin (Qlist_min (x :: l)).
Proof. unfold series_min. simpl. apply series_min_from_Fin. Qed.

Lemma drawdown_Fin (c m : list Q) :
  Forall (fun x => 0 < x) m ->
  map2 (fun c m => fsub (fdiv c m) (Fin 1)) (map Fin c) (map Fin m)
  = map Fin (map2 (fun v m => v / m - 1) c m).
Proof.
  intros Hm. revert c. induction Hm as [|y m Hy Hm IH]; intros [|x c];
    simpl; try reflexivity.
  rewrite IH. f_equal.
  assert (Hne : Qeq_bool y 0 = false) by (apply Qeq_bool_false; lra).
  rewrite Hne. reflexivity.
Qed.

Lemma running_max_from_pos (l : list Q) (acc : Q) :
  0 < acc -> Forall (fun x => 0 < x) (running_max_from acc l).
Proof.
  revert acc. induction l as [|v l IH]; intros acc Hacc; simpl; constructor.
  - pose proof (Q.le_max_l acc v). lra.
  - apply IH. pose proof (Q.le_max_l acc v). lra.
Qed.

Lemma running_max_pos (l : list Q) :
  Forall (fun x => 0 < x) l -> Forall (fun x => 0 < x) (running_max l).
Proof.
  intros Hl. destruct Hl as [|v l Hv Hl]; simpl; constructor; auto.
  now apply running_max_from_pos.
Qed.

(** On a series of positive values the code computes, exactly, the drawdown
    formula of the series rescaled by its first value. *)
Lemma max_drawdown_rescaled (d0 : date) (v0 : Q) (rest : Series Q) :
  Forall (fun dv => 0 < snd dv) ((d0, v0) :: rest) ->
  max_drawdown ((d0, v0) :: rest)
  = Ok (Fin (max_drawdown_formula
               (map (fun v => v / v0) (v0 :: map snd rest)))).
Proof.
  intros Hpos. unfold max_drawdown.
  assert (Hv0 : 0 < v0) by (inversion Hpos; assumption).
  assert (Hcum : map (fun dv : date * Q => fdiv (Fin (snd dv)) (Fin v0))
                     ((d0, v0) :: rest)
                 = map Fin (map (fun v => v / v0) (v0 :: map snd rest))).
  { change (v0 :: map snd rest) with (map snd ((d0, v0) :: rest)).
    rewrite !map_map. apply map_ext. intros [d v]. simpl.
    assert (Hne : Qeq_bool v0 0 = false) by (apply Qeq_bool_false; lra).
    now rewrite Hne. }
  rewrite Hcum, cummax_Fin, drawdown_Fin.
  - f_equal. unfold max_drawdown_formula, drawdowns. simpl.
    apply (series_min_Fin _ _).
  - apply running_max_pos. apply Forall_map.
    change (v0 :: map snd rest) with (map snd ((d0, v0) :: rest)).
    apply Forall_map. eapply Forall_impl; [exact Hpos|].
    intros [d v] Hv. simpl in *. apply Qlt_shift_div_l; lra.
Qed.

Lemma Qdiv_le_compat (a b k : Q) : 0 < k -> a <= b -> a / k <= b / k.
Proof.
  intros Hk Hab. unfold Qdiv. apply Qmult_le_compat_r; [exact Hab|].
  apply Qlt_le_weak, Qinv_lt_0_compat, Hk.
Qed.

Lemma Qmax_div (a b k : Q) : 0 < k -> Qmax (a / k) (b / k) == Qmax a b / k.
Proof.
  intros Hk. destruct (Q.max_spec_le a b) as [[Hle E]|[Hle E]]; rewrite E.
  - apply Q.max_r, Qdiv_le_compat; assumption.
  - apply Q.max_l, Qdiv_le_compat; assumption.
Qed.

Lemma drawdowns_from_scale (k : Q) (l : list Q) (acc acc' : Q) :
  0 < k -> 0 < acc -> acc' == acc / k ->
  Forall2 Qeq
    (map2 (fun v m => v / m - 1) (map (fun v => v / k) l)
          (running_max_from acc' (map (fun v => v / k) l)))
    (map2 (fun v m => v / m - 1) l (running_max_from acc l)).
Proof.
  intros Hk. revert acc acc'.
  induction l as [|v l IH]; intros acc acc' Hacc E; simpl; constructor.
  - rewrite E, Qmax_div by exact Hk.
    pose proof (Q.le_max_l acc v). field. split; lra.
  - apply IH.
    + pose proof (Q.le_max_l acc v). lra.
    + rewrite E. now apply Qmax_div.
Qed.

Lemma drawdowns_scale (k : Q) (l : list Q) :
  0 < k -> Forall (fun x => 0 < x) l ->
  Forall2 Qeq (drawdowns (map (fun v => v / k) l)) (drawdowns l).
Proof.
  intros Hk Hl. unfold drawdowns.
  destruct Hl as [|v l Hv Hl]; simpl; constructor.
  - field. split; lra.
  - apply drawdowns_from_scale; [exact Hk | exact Hv | reflexivity].
Qed.

Lemma fold_left_Qmin_proper (l l' : list Q) (a a' : Q) :
  Forall2 Qeq l l' -> a == a' -> fold_left Qmin l a == fold_left Qmin l' a'.
Proof.
  intros Hl. revert a a'.
  induction Hl as [|x y l l' Hxy Hl IH]; intros a a' Ha; simpl; [exact Ha|].
  apply IH. now rewrite Ha, Hxy.
Qed.

Lemma Qlist_min_proper (l l' : list Q) :
  Forall2 Qeq l l' -> Qlist_min l == Qlist_min l'.
Proof.
  intros [|x y l0 l0' Hxy Hl]; simpl; [reflexivity|].
  now apply fold_left_Qmin_proper.
Qed.

Lemma fold_left_Qmin_le (l : list Q) (a : Q) : fold_left Qmin l a <= a.
Proof.
  revert a. induction l as [|x l IH]; intros a; simpl; [lra|].
  pose proof (IH (Qmin a x)). pose proof (Q.le_min_l a x). lra.
Qed.

Lemma fold_left_Qmin_zero (l : list Q) (a : Q) :
  Forall (fun x => x == 0) l -> a == 0 -> fold_left Qmin l a == 0.
Proof.
  intros Hl. revert a.
  induction Hl as [|x l Hx Hl IH]; intros a Ha; simpl; [exact Ha|].
  apply IH. rewrite Ha, Hx. apply Q.min_id.
Qed.

Lemma drawdowns_from_monotone (l : list Q) (acc : Q) :
  0 < acc ->
  nondecreasing (acc :: l) ->
  Forall (fun x => x == 0) (map2 (fun v m => v / m - 1) l
                                 (running_max_from acc l)).
Proof.
  revert acc. induction l as [|v l IH]; intros acc Hacc Hmono; simpl;
    constructor.
  - destruct Hmono as [Hle _]. rewrite (Q.max_r acc v Hle).
    field. lra.
  - destruct Hmono as [Hle Hmono]. apply IH.
    + pose proof (Q.le_max_l acc v). lra.
    + destruct l as [|v' l]; [exact I|]. destruct Hmono as [Hle' Hmono].
      split; [|exact Hmono]. rewrite (Q.max_r acc v Hle). exact Hle'.
Qed.

Lemma max_drawdown_formula_nonpos (v : Q) (l : list Q) :
  0 < v -> max_drawdown_formula (v :: l) <= 0.
Proof.
  intros Hv. unfold max_drawdown_formula, drawdowns. simpl.
  pose proof (fold_left_Qmin_le
                (map2 (fun v m => v / m - 1) l (running_max_from v l))
                (v / v - 1)) as Hle.
  assert (E : v / v - 1 == 0) by (field; lra).
  rewrite E in Hle at 2. exact Hle.
Qed.

Lemma max_drawdown_formula_monotone (v : Q) (l : list Q) :
  0 < v -> nondecreasing (v :: l) -> max_drawdown_formula (v :: l) == 0.
Proof.
  intros Hv Hmono. unfold max_drawdown_formula, drawdowns. simpl.
  apply fold_left_Qmin_zero.
  - now apply drawdowns_from_monotone.
  - field. lra.
Qed.

(** C8. On a (non-empty) series of positive values [max_drawdown] returns
    the minimum over time of value(t) / runningMax(value, 0..t) - 1; the
    result is at most 0, and it is 0 when the series never decreases.  On
    [1.0, 1.2, 0.9, 1.1] it returns 0.9/1.2 - 1 = -0.25. *)
Theorem max_drawdown_is_min_drawdown :
  (forall values : Series Q,
      values <> [] ->
      Forall (fun dv => 0 < snd dv) values ->
      exists m : Q,
        max_drawdown values = Ok (Fin m) /\
        m == max_drawdown_formula (map snd values) /\
        m <= 0 /\
        (nondecreasing (map snd values) -> m == 0)) /\
  (forall d0 d1 d2 d3 : date,
      exists m : Q,
        max_drawdown [(d0, 1.0); (d1, 1.2); (d2, 0.9); (d3, 1.1)]
        = Ok (Fin m) /\
        m == 0.9 / 1.2 - 1 /\ m == -0.25).
Proof.
  assert (Hgen : forall values : Series Q,
      values <> [] ->
      Forall (fun dv => 0 < snd dv) values ->
      exists m : Q,
        max_drawdown values = Ok (Fin m) /\
        m == max_drawdown_formula (map snd values) /\
        m <= 0 /\
        (nondecreasing (map snd values) -> m == 0)).
  { intros [|[d0 v0] rest] Hne Hpos; [congruence|].
    assert (Hv0 : 0 < v0) by (inversion Hpos; assumption).
    assert (Hl : Forall (fun x => 0 < x) (map snd ((d0, v0) :: rest))).
    { apply Forall_map. exact Hpos. }
    eexists. split; [apply max_drawdown_rescaled; exact Hpos|].
    assert (E : max_drawdown_formula
                  (map (fun v => v / v0) (v0 :: map snd rest))
                == max_drawdown_formula (map snd ((d0, v0) :: rest))).
    { apply Qlist_min_proper, drawdowns_scale; assumption. }
    split; [exact E|]. rewrite E. simpl. split.
    - now apply max_drawdown_formula_nonpos.
    - intros Hmono. now apply max_drawdown_formula_monotone. }
  split; [exact Hgen|].
  intros d0 d1 d2 d3.
  destruct (Hgen [(d0, 1.0); (d1, 1.2); (d2, 0.9); (d3, 1.1)])
    as (m & Hm & Hf & _).
  - discriminate.
  - repeat constructor.
  - exists m. split; [exact Hm|]. rewrite Hf. split; vm_compute; reflexivity.
Qed.

(** The drawdown of [1.0, 1.2, 0.9, 1.1], by running the code. *)
Lemma max_drawdown_example :
  exists m : Q,
    max_drawdown [(0%Z, 1.0); (1%Z, 1.2); (2%Z, 0.9); (3%Z, 1.1)]
    = Ok (Fin m) /\ m == -0.25 /\ m <= 0.
Proof.
  destruct (proj1 max_drawdown_is_min_drawdown
              [(0%Z, 1.0); (1%Z, 1.2); (2%Z, 0.9); (3%Z, 1.1)])
    as (m & Hm & Hf & Hle & _).
  - discriminate.
  - repeat constructor.
  - exists m. split; [exact Hm|]. split; [|exact Hle].
    rewrite Hf. vm_compute. reflexivity.
Defined.

(** ** Weight vectors and normalization *)

Lemma Qsum_map_div (s : Q) (v : list Q) :
  Qsum (map (fun x => x / s) v) == Qsum v / s.
Proof.
  induction v as [|x v IH]; simpl.
  - unfold Qdiv. ring.
  - rewrite IH. unfold Qdiv. ring.
Qed.

Lemma Qsum_proper (v v' : list Q) : Forall2 Qeq v v' -> Qsum v == Qsum v'.
Proof.
  induction 1 as [|x y v v' Hxy Hv IH]; simpl; [reflexivity|].
  now rewrite Hxy, IH.
Qed.

Lemma Qsum_scale (c : Q) (v v' : list Q) :
  Forall2 (fun a b => a == c * b) v' v -> Qsum v' == c * Qsum v.
Proof.
  induction 1 as [|x y v' v Hxy Hv IH]; simpl; [ring|].
  rewrite Hxy, IH. ring.
Qed.

Lemma normalize_row_Fin (v : list Q) :
  ~ Qsum v == 0 ->
  normalize_row v = map (fun x => Fin (x / Qsum v)) v.
Proof.
  intros Hs. unfold normalize_row. apply map_ext. intros x.
  now apply fdiv_Fin.
Qed.

Lemma fadd_proper (a a' b b' : pyfloat) :
  feq a a' -> feq b b' -> feq (fadd a b) (fadd a' b').
Proof.
  destruct a, a', b, b'; simpl; try tauto; try congruence.
  - intros E1 E2. now rewrite E1, E2.
  - intros -> ->. destruct (Bool.eqb neg0 neg2); simpl; auto.
Qed.

Lemma fsum_proper (l l' : list pyfloat) :
  Forall2 feq l l' -> feq (fsum l) (fsum l').
Proof.
  induction 1 as [|x y l l' Hxy Hl IH]; simpl; [reflexivity|].
  now apply fadd_proper.
Qed.

(** A normalized row sums to one as soon as the row's sum is not zero. *)
Lemma normalize_row_sum (v : list Q) :
  ~ Qsum v == 0 -> feq (fsum (normalize_row v)) (Fin 1).
Proof.
  intros Hs. rewrite normalize_row_Fin by exact Hs.
  rewrite <- (map_map (fun x => x / Qsum v) Fin), fsum_Fin. simpl.
  rewrite Qsum_map_div. field. exact Hs.
Qed.

Lemma Qneg_bool_scale (c x x' : Q) :
  0 < c -> x' == c * x -> Qneg_bool x' = Qneg_bool x.
Proof.
  intros Hc E. unfold Qneg_bool. f_equal.
  destruct (Qle_bool 0 x) eqn:Hx.
  - apply Qle_bool_iff in Hx. apply Qle_bool_iff. rewrite E. nra.
  - apply Qle_bool_false in Hx. apply Qle_bool_false. rewrite E. nra.
Qed.

Lemma Qeq_bool_zero_scale (c x x' : Q) :
  0 < c -> x' == c * x -> Qeq_bool x' 0 = Qeq_bool x 0.
Proof.
  intros Hc E. destruct (Qeq_bool x 0) eqn:Hx.
  - apply Qeq_bool_iff in Hx. apply Qeq_bool_iff. rewrite E, Hx. ring.
  - apply Qeq_bool_false in Hx. apply Qeq_bool_false. rewrite E.
    intros F. apply Hx. nra.
Qed.

Lemma fdiv_scale (c x x' s s' : Q) :
  0 < c -> x' == c * x -> s' == c * s ->
  feq (fdiv (Fin x') (Fin s')) (fdiv (Fin x) (Fin s)).
Proof.
  intros Hc Ex Es. simpl.
  rewrite (Qeq_bool_zero_scale c s s' Hc Es),
          (Qeq_bool_zero_scale c x x' Hc Ex),
          (Qneg_bool_scale c x x' Hc Ex).
  destruct (Qeq_bool s 0) eqn:Hs.
  - destruct (Qeq_bool x 0); simpl; auto.
  - simpl. apply Qeq_bool_false in Hs. rewrite Ex, Es. field.
    split; [exact Hs | lra].
Qed.

(** Normalization cancels a positive common factor, also in the degenerate
    rows: the zero sum, the signs and the zero entries are preserved. *)
Lemma normalize_row_scale (c : Q) (v v' : list Q) :
  0 < c -> Forall2 (fun a b => a == c * b) v' v ->
  Forall2 feq (normalize_row v') (normalize_row v).
Proof.
  intros Hc Hv. unfold normalize_row.
  pose proof (Qsum_scale c v v' Hv) as Hs.
  revert Hs. generalize (Qsum v') (Qsum v). intros s' s Hs.
  induction Hv as [|x' x v' v Hx Hv IH]; simpl; constructor; auto.
  now apply (fdiv_scale c).
Qed.

Lemma normalize_row_proper (v v' : list Q) :
  Forall2 Qeq v' v -> Forall2 feq (normalize_row v') (normalize_row v).
Proof.
  intros Hv. apply (normalize_row_scale 1); [lra|].
  eapply Forall2_impl; [exact Hv|]. intros a b E. simpl. rewrite E. ring.
Qed.

(** ** Buy and hold *)

Lemma compound_step_rel (acc w0 v r : list Q) :
  Forall2 Qeq (map2 Qmult acc w0) v ->
  Forall2 Qeq (map2 Qmult (map2 (fun a x => a * (1 + x)) acc r) w0)
              (map2 (fun a x => a * (1 + x)) v r).
Proof.
  revert w0 v r. induction acc as [|a acc IH]; intros [|w w0] v r Hrel;
    simpl in Hrel; inversion Hrel; subst; destruct r as [|x r]; simpl;
    constructor.
  - match goal with E : _ == _ |- _ => rewrite <- E end. ring.
  - now apply IH.
Qed.

Lemma first_step_rel (r w0 : list Q) :
  Forall2 Qeq (map2 Qmult (map (fun x => 1 + x) r) w0)
              (map2 (fun a x => a * (1 + x)) w0 r).
Proof.
  revert w0. induction r as [|x r IH]; intros [|w w0]; simpl; constructor.
  - ring.
  - apply IH.
Qed.

Lemma values_tracked_from (w0 : list Q) (l : list (date * list Q))
    (acc v : list Q) :
  Forall2 Qeq (map2 Qmult acc w0) v ->
  Forall2 (fun r1 r2 => fst r1 = fst r2 /\ Forall2 Qeq (snd r1) (snd r2))
          (map (fun dr => (fst dr, map2 Qmult (snd dr) w0))
               (cumprod_rows_from acc l))
          (cumprod_rows_from v l).
Proof.
  revert acc v. induction l as [|[d r] l IH]; intros acc v Hrel; simpl;
    constructor.
  - simpl. split; [reflexivity|]. now apply compound_step_rel.
  - apply IH. now apply compound_step_rel.
Qed.

(** The values the code tracks ([cum * w0]) are the values of the
    description (start at the weight, multiply by one plus the return). *)
Lemma buy_and_hold_values_tracked (returns : DataFrame Q)
    (init_weights : gmap string Q) :
  Forall2 (fun r1 r2 => fst r1 = fst r2 /\ Forall2 Qeq (snd r1) (snd r2))
          (buy_and_hold_values returns init_weights)
          (tracked_values returns init_weights).
Proof.
  unfold buy_and_hold_values, tracked_values, cumprod_rows.
  destruct (rows returns) as [|[d r] l]; simpl; constructor.
  - simpl. split; [reflexivity|]. apply first_step_rel.
  - apply values_tracked_from, first_step_rel.
Qed.

(** C6. Whenever no date has tracked values summing to zero, the buy-and-hold
    weight path has, at every date, the weights value / (sum of the values
    on that date), and they sum to 1. *)
Theorem buy_and_hold_weights_sum_to_one (returns : DataFrame Q)
    (init_weights : gmap string Q) :
  Forall (fun dv => ~ Qsum (snd dv) == 0)
         (tracked_values returns init_weights) ->
  Forall2 (fun dv dw =>
             fst dw = fst dv /\
             Forall2 feq (snd dw)
                     (map (fun v => Fin (v / Qsum (snd dv))) (snd dv)) /\
             feq (fsum (snd dw)) (Fin 1))
          (tracked_values returns init_weights)
          (rows (weights_over_time_buy_and_hold returns init_weights)).
Proof.
  intros Hnd. unfold weights_over_time_buy_and_hold. simpl.
  pose proof (buy_and_hold_values_tracked returns init_weights) as Hrel.
  revert Hnd Hrel.
  generalize (tracked_values returns init_weights).
  generalize (buy_and_hold_values returns init_weights).
  intros vals tr Hnd Hrel.
  induction Hrel as [|[d v] [d' t] vals tr [Hd Hv] Hrel IH]; simpl;
    [constructor|].
  inversion Hnd as [|? ? Hs Hnd']; subst. simpl in *. subst d'.
  constructor; [|now apply IH].
  simpl. split; [reflexivity|].
  assert (Hn : Forall2 feq (normalize_row v) (normalize_row t))
    by now apply normalize_row_proper.
  split.
  - rewrite <- normalize_row_Fin by exact Hs. exact Hn.
  - etransitivity; [apply fsum_proper; exact Hn|].
    now apply normalize_row_sum.
Qed.





(** Storing 0 for an asset the mapping does not mention changes no entry of
    the weight vector. *)
Lemma weight_vector_default (assets : list string) (w : gmap string Q)
    (a : string) :
  w !! a = None ->
  weight_vector assets (<[a := 0]> w) = weight_vector assets w.
Proof.
  intros Hnone. unfold weight_vector. apply map_ext. intros b.
  rewrite lookup_insert. destruct (decide (a = b)) as [->|Hne];
    [now rewrite Hnone | reflexivity].
Qed.

(** ** Periodic rebalancing *)

Lemma loc_set_index (d : date) (row : list pyfloat)
    (tbl : list (date * list pyfloat)) :
  map fst (loc_set d row tbl) = map fst tbl.
Proof.
  unfold loc_set. rewrite map_map. apply map_ext. intros [d' r]. simpl.
  now destruct (Z.eqb d' d).
Qed.

Lemma loc_set_fresh (d : date) (row : list pyfloat)
    (tbl : list (date * list pyfloat)) :
  ~ In d (map fst tbl) -> loc_set d row tbl = tbl.
Proof.
  unfold loc_set. induction tbl as [|[d' r] tbl IH]; [reflexivity|].
  cbn [map fst In]. intros Hnin.
  destruct (Z.eqb d' d) eqn:E.
  - apply Z.eqb_eq in E. tauto.
  - f_equal. apply IH. tauto.
Qed.

Lemma filter_label_absent (d : date) (tbl : list (date * list pyfloat)) :
  ~ In d (map fst tbl) ->
  List.filter (fun dr => Z.eqb (fst dr) d) tbl = [].
Proof.
  induction tbl as [|[d' r] tbl IH]; [reflexivity|].
  cbn [map fst In List.filter]. intros Hnin.
  destruct (Z.eqb_spec d' d) as [->|Hne]; [tauto|]. apply IH. tauto.
Qed.

(** A label of the index is always found. *)
Lemma loc_get_known (d : date) (tbl : list (date * list pyfloat)) :
  In d (map fst tbl) -> exists blk, loc_get d tbl = Ok blk.
Proof.
  intros Hin. unfold loc_get.
  destruct (List.filter (fun dr => Z.eqb (fst dr) d) tbl) as [|dr blk] eqn:E;
    [|eauto].
  exfalso. apply List.in_map_iff in Hin. destruct Hin as (dr & <- & Hdr).
  assert (Hf : In dr (List.filter (fun dr0 => Z.eqb (fst dr0) (fst dr)) tbl))
    by (apply List.filter_In; split; [exact Hdr | apply Z.eqb_refl]).
  rewrite E in Hf. destruct Hf.
Qed.

(** On an index without repeated dates the row just written is read back
    alone. *)
Lemma loc_get_set (d : date) (row : list pyfloat)
    (tbl : list (date * list pyfloat)) :
  List.NoDup (map fst tbl) -> In d (map fst tbl) ->
  loc_get d (loc_set d row tbl) = Ok [row].
Proof.
  intros Hnd Hin.
  assert (E : List.filter (fun dr => Z.eqb (fst dr) d) (loc_set d row tbl)
              = [(d, row)]).
  { induction tbl as [|[d' r] tbl IH]; [destruct Hin|].
    cbn [map fst] in Hnd, Hin. inversion Hnd as [|? ? Hn Hnd']; subst.
    unfold loc_set. cbn [map fst]. fold (loc_set d row tbl).
    destruct (Z.eqb_spec d' d) as [->|Hne].
    - cbn [List.filter fst]. rewrite Z.eqb_refl. f_equal.
      rewrite (loc_set_fresh d row tbl Hn).
      now apply filter_label_absent.
    - cbn [List.filter fst].
      destruct (Z.eqb_spec d' d) as [->|_]; [congruence|].
      apply IH; [exact Hnd'|]. destruct Hin as [->|Hin]; [congruence | exact Hin]. }
  unfold loc_get. rewrite E. reflexivity.
Qed.

(** On a single row the code's turnover is the formula of the
    specification. *)
Lemma turnover_of_single (target : list Q) (row : list pyfloat) :
  turnover_of target [row] = turnover_formula target row.
Proof.
  unfold turnover_of, turnover_formula. cbn [map List.concat].
  now rewrite app_nil_r.
Qed.

Lemma fold_step_date_values (g : list (date * list Q)) (st : sim_state) :
  sim_values (fold_left step_date g st) = compound (sim_values st) g.
Proof.
  unfold compound. revert st. induction g as [|r g IH]; intros st; simpl;
    [reflexivity|]. now rewrite IH.
Qed.

Lemma fold_step_date_turnovers (g : list (date * list Q)) (st : sim_state) :
  sim_turnovers (fold_left step_date g st) = sim_turnovers st.
Proof.
  revert st. induction g as [|r g IH]; intros st; simpl; [reflexivity|].
  now rewrite IH.
Qed.

Lemma fold_step_date_index (g : list (date * list Q)) (st : sim_state) :
  map fst (sim_weights (fold_left step_date g st)) = map fst (sim_weights st).
Proof.
  revert st. induction g as [|r g IH]; intros st; simpl; [reflexivity|].
  rewrite IH. simpl. apply loc_set_index.
Qed.

(** The row read back at the period's last date is the normalized value
    vector the period ended with (the dates of the table being distinct). *)
Lemma fold_step_date_last (r0 : date * list Q) (g : list (date * list Q))
    (st : sim_state) :
  List.NoDup (map fst (sim_weights st)) ->
  In (fst (List.last (r0 :: g) r0)) (map fst (sim_weights st)) ->
  loc_get (fst (List.last (r0 :: g) r0))
          (sim_weights (fold_left step_date (r0 :: g) st))
  = Ok [normalize_row (compound (sim_values st) (r0 :: g))].
Proof.
  destruct (exists_last (l := r0 :: g)) as (g' & rl & E); [discriminate|].
  rewrite E, last_last. intros Hnd Hin.
  rewrite <- fold_step_date_values, fold_left_app. simpl.
  apply loc_get_set; now rewrite fold_step_date_index.
Qed.

Lemma dict_set_fresh {K V} `{EqDecision K} (k : K) (v : V)
    (d : list (K * V)) :
  ~ In k (map fst d) -> dict_set k v d = d ++ [(k, v)].
Proof.
  induction d as [|[k' v'] d IH]; simpl; intros Hnin; [reflexivity|].
  destruct (decide (k = k')) as [->|Hne]; [tauto|].
  rewrite IH; [reflexivity | tauto].
Qed.

Lemma last_in (r0 : date * list Q) (g : list (date * list Q)) :
  In (List.last (r0 :: g) r0) (r0 :: g).
Proof.
  destruct (exists_last (l := r0 :: g)) as (g' & rl & E); [discriminate|].
  rewrite E, last_last. apply List.in_or_app. right. left. reflexivity.
Qed.

(** A frame without columns: every group is empty and the loop does
    nothing. *)
Lemma run_periods_no_column (target : list Q)
    (gs : list (list (date * list Q))) (st : sim_state) :
  run_periods [] target st gs = Ok st.
Proof. induction gs as [|g gs IH]; simpl; [reflexivity | exact IH]. Qed.

(** One group with rows, in a frame with columns: the period's last date
    gets a turnover and the values restart from [total * target]. *)
Lemma step_period_returns (assets : list string) (target : list Q)
    (st : sim_state) (r0 : date * list Q) (g : list (date * list Q)) :
  assets <> [] ->
  In (fst (List.last (r0 :: g) r0)) (map fst (sim_weights st)) ->
  exists t,
    step_period assets target st (r0 :: g)
    = Ok (mkSim (map (fun t => Qsum (compound (sim_values st) (r0 :: g)) * t)
                     target)
                (sim_weights (fold_left step_date (r0 :: g) st))
                (dict_set (fst (List.last (r0 :: g) r0)) t
                          (sim_turnovers st))).
Proof.
  intros Ha Hin. destruct assets as [|a assets]; [congruence|].
  destruct (loc_get_known (fst (List.last (r0 :: g) r0))
              (sim_weights (fold_left step_date (r0 :: g) st)))
    as (blk & Hget); [now rewrite fold_step_date_index|].
  exists (turnover_of target blk).
  unfold step_period. rewrite Hget. unfold bind.
  now rewrite fold_step_date_values, fold_step_date_turnovers.
Qed.

(** With distinct dates the turnover is the formula of the specification at
    the weights the values drifted to. *)
Lemma step_period_nonempty (assets : list string) (target : list Q)
    (st : sim_state) (r0 : date * list Q) (g : list (date * list Q)) :
  let v := compound (sim_values st) (r0 :: g) in
  let d := fst (List.last (r0 :: g) r0) in
  assets <> [] ->
  List.NoDup (map fst (sim_weights st)) ->
  In d (map fst (sim_weights st)) ->
  exists tbl,
    step_period assets target st (r0 :: g)
    = Ok (mkSim (map (fun t => Qsum v * t) target) tbl
                (dict_set d (turnover_formula target (normalize_row v))
                          (sim_turnovers st))) /\
    map fst tbl = map fst (sim_weights st) /\
    loc_get d tbl = Ok [normalize_row v].
Proof.
  intros v d Ha Hnd Hin. subst v d.
  destruct assets as [|a assets]; [congruence|].
  pose proof (fold_step_date_last r0 g st Hnd Hin) as Hget.
  exists (sim_weights (fold_left step_date (r0 :: g) st)).
  split; [|split; [apply fold_step_date_index | exact Hget]].
  unfold step_period. rewrite Hget. unfold bind.
  now rewrite turnover_of_single, fold_step_date_values,
    fold_step_date_turnovers.
Qed.

(** The loop never raises: the dates it looks up are dates of the table.
    In a frame with columns it leaves one turnover per group with rows,
    keyed by the group's last date. *)
Lemma run_periods_returns (assets : list string) (target : list Q)
    (gs : list (list (date * list Q))) (st : sim_state) :
  (forall g r, In g gs -> In r g -> In (fst r) (map fst (sim_weights st))) ->
  List.NoDup (map fst (sim_turnovers st) ++ end_dates gs) ->
  exists st',
    run_periods assets target st gs = Ok st' /\
    map fst (sim_weights st') = map fst (sim_weights st) /\
    (assets <> [] ->
     map fst (sim_turnovers st') = map fst (sim_turnovers st) ++ end_dates gs).
Proof.
  destruct assets as [|a assets].
  { intros _ _. exists st. rewrite run_periods_no_column.
    split; [reflexivity|]. split; [reflexivity | congruence]. }
  revert st. induction gs as [|g gs IH]; intros st Hidx Hnd.
  - exists st. simpl. rewrite app_nil_r. auto.
  - destruct g as [|r0 g].
    + simpl. apply IH; [|exact Hnd].
      intros g' r Hg' Hr. apply (Hidx g' r); [right; exact Hg' | exact Hr].
    + assert (Hin : In (fst (List.last (r0 :: g) r0))
                       (map fst (sim_weights st))).
      { apply (Hidx (r0 :: g)); [left; reflexivity | apply last_in]. }
      destruct (step_period_returns (a :: assets) target st r0 g
                  ltac:(discriminate) Hin) as (t & Hstep).
      change (end_dates ((r0 :: g) :: gs))
        with (fst (List.last (r0 :: g) r0) :: end_dates gs) in Hnd.
      assert (Hfresh : ~ In (fst (List.last (r0 :: g) r0))
                            (map fst (sim_turnovers st))).
      { apply List.NoDup_remove_2 in Hnd. intros F. apply Hnd.
        apply List.in_or_app. left. exact F. }
      rewrite (dict_set_fresh _ _ _ Hfresh) in Hstep.
      match type of Hstep with _ = Ok ?st1 =>
        destruct (IH st1) as (st' & Hrun & Hidx' & Hkeys) end.
      * cbn [sim_weights]. rewrite fold_step_date_index. intros g' r Hg' Hr.
        apply (Hidx g' r); [right; exact Hg' | exact Hr].
      * cbn [sim_turnovers]. rewrite map_app, <- app_assoc. simpl. exact Hnd.
      * exists st'.
        change (run_periods (a :: assets) target st ((r0 :: g) :: gs))
          with (bind (step_period (a :: assets) target st (r0 :: g))
                     (fun st1 => run_periods (a :: assets) target st1 gs)).
        rewrite Hstep. simpl bind. split; [exact Hrun|].
        split.
        -- rewrite Hidx'. cbn [sim_weights]. apply fold_step_date_index.
        -- intros _. rewrite (Hkeys ltac:(discriminate)).
           cbn [sim_turnovers]. rewrite map_app, <- app_assoc. reflexivity.
Qed.

(** With distinct dates and at least one column the turnover record is the
    expected one. *)
Lemma run_periods_turnovers (assets : list string) (target : list Q)
    (gs : list (list (date * list Q))) (st : sim_state) :
  assets <> [] ->
  List.NoDup (map fst (sim_weights st)) ->
  (forall g r, In g gs -> In r g -> In (fst r) (map fst (sim_weights st))) ->
  List.NoDup (map fst (sim_turnovers st) ++ end_dates gs) ->
  exists st',
    run_periods assets target st gs = Ok st' /\
    sim_turnovers st'
    = sim_turnovers st ++ expected_turnovers target (sim_values st) gs /\
    map fst (sim_weights st') = map fst (sim_weights st).
Proof.
  intros Ha. revert st. induction gs as [|g gs IH]; intros st Hdist Hidx Hnd.
  - exists st. simpl. rewrite app_nil_r. auto.
  - destruct g as [|r0 g].
    + destruct assets as [|a assets]; [congruence|].
      simpl. apply IH; [exact Hdist | | exact Hnd].
      intros g' r Hg' Hr. apply (Hidx g' r); [right; exact Hg' | exact Hr].
    + assert (Hin : In (fst (List.last (r0 :: g) r0))
                       (map fst (sim_weights st))).
      { apply (Hidx (r0 :: g)); [left; reflexivity | apply last_in]. }
      destruct (step_period_nonempty assets target st r0 g Ha Hdist Hin)
        as (tbl & Hstep & Htbl & _).
      change (end_dates ((r0 :: g) :: gs))
        with (fst (List.last (r0 :: g) r0) :: end_dates gs) in Hnd.
      assert (Hfresh : ~ In (fst (List.last (r0 :: g) r0))
                            (map fst (sim_turnovers st))).
      { apply List.NoDup_remove_2 in Hnd. intros F. apply Hnd.
        apply List.in_or_app. left. exact F. }
      rewrite (dict_set_fresh _ _ _ Hfresh) in Hstep.
      match type of Hstep with _ = Ok ?st1 =>
        destruct (IH st1) as (st' & Hrun & Hturn & Hidx') end.
      * simpl. now rewrite Htbl.
      * simpl. rewrite Htbl. intros g' r Hg' Hr.
        apply (Hidx g' r); [right; exact Hg' | exact Hr].
      * simpl. rewrite map_app, <- app_assoc. simpl. exact Hnd.
      * exists st'.
        change (run_periods assets target st ((r0 :: g) :: gs))
          with (bind (step_period assets target st (r0 :: g))
                     (fun st1 => run_periods assets target st1 gs)).
        rewrite Hstep. simpl bind. split; [exact Hrun|].
        split; [|now rewrite Hidx'].
        rewrite Hturn. simpl. now rewrite <- app_assoc.
Qed.

Section Grouping.
Variable P : date -> Z.
Variable rs : list (date * list Q).

Lemma last_in_group (k : Z) (r0 : date * list Q) (g : list (date * list Q)) :
  period_group P rs k = r0 :: g -> P (fst (List.last (r0 :: g) r0)) = k.
Proof.
  intros E.
  assert (Hl : In (List.last (r0 :: g) r0) (period_group P rs k)).
  { rewrite E. destruct (exists_last (l := r0 :: g)) as (g' & rl & E');
      [discriminate|].
    rewrite E', last_last. apply List.in_or_app. right. left. reflexivity. }
  apply List.filter_In in Hl. destruct Hl as [_ Hl].
  now apply Z.eqb_eq in Hl.
Qed.

Lemma end_dates_period (ks : list Z) (d : date) :
  In d (end_dates (map (period_group P rs) ks)) -> In (P d) ks.
Proof.
  induction ks as [|k ks IH]; simpl; [tauto|].
  destruct (period_group P rs k) as [|r0 g] eqn:E; [auto|].
  intros [<- | Hin]; [left | right; auto].
  symmetry. exact (last_in_group k r0 g E).
Qed.

(** Periods do not share dates, so their last dates are all different. *)
Lemma end_dates_NoDup (ks : list Z) :
  List.NoDup ks -> List.NoDup (end_dates (map (period_group P rs) ks)).
Proof.
  induction 1 as [|k ks Hk Hks IH]; simpl; [constructor|].
  destruct (period_group P rs k) as [|r0 g] eqn:E; [exact IH|].
  constructor; [|exact IH].
  intros Hin. apply end_dates_period in Hin.
  apply Hk. rewrite <- (last_in_group k r0 g E). exact Hin.
Qed.

Lemma group_rows (ks : list Z) (g : list (date * list Q))
    (r : date * list Q) :
  In g (map (period_group P rs) ks) -> In r g -> In r rs.
Proof.
  intros Hg Hr. apply List.in_map_iff in Hg. destruct Hg as (k & <- & _).
  apply List.filter_In in Hr. tauto.
Qed.
End Grouping.

Lemma groupby_rows `{PandasGrouper} (freq : string) (returns : DataFrame Q)
    (g : list (date * list Q)) (r : date * list Q) :
  In g (groupby freq returns) -> In r g -> In r (rows returns).
Proof.
  unfold groupby. destruct (rows returns) as [|r0 l] eqn:E; [simpl; tauto|].
  apply group_rows.
Qed.

Lemma groupby_end_dates_NoDup `{PandasGrouper} (freq : string)
    (returns : DataFrame Q) :
  List.NoDup (end_dates (groupby freq returns)).
Proof.
  unfold groupby. destruct (rows returns) as [|r0 l] eqn:E; [constructor|].
  apply (end_dates_NoDup (period_of freq)). apply NoDup_ListNoDup, NoDup_seqZ.
Qed.

Lemma Qsum_nonneg (v : list Q) : Forall (fun x => 0 <= x) v -> 0 <= Qsum v.
Proof. induction 1 as [|x v Hx Hv IH]; simpl; lra. Qed.

Lemma turnover_diffs_Fin (f : Q -> Q) (target v : list Q) :
  map fabs (map2 (fun t p => fsub (Fin t) p) target
                 (map (fun x => Fin (f x)) v))
  = map Fin (map Qabs (map2 Qminus target (map f v))).
Proof.
  revert v. induction target as [|t target IH]; intros [|x v]; simpl;
    try reflexivity.
  now rewrite IH.
Qed.

Lemma turnover_Fin (target v : list Q) :
  ~ Qsum v == 0 ->
  turnover_formula target (normalize_row v)
  = Fin (0.5 * Qsum (map Qabs (map2 Qminus target
                                    (map (fun x => x / Qsum v) v)))).
Proof.
  intros Hs. unfold turnover_formula.
  rewrite normalize_row_Fin by exact Hs.
  now rewrite turnover_diffs_Fin, fsum_Fin.
Qed.

Lemma abs_diff_sum_bound (t p : list Q) :
  Forall (fun x => 0 <= x) t -> Forall (fun x => 0 <= x) p ->
  0 <= Qsum (map Qabs (map2 Qminus t p)) /\
  Qsum (map Qabs (map2 Qminus t p)) <= Qsum t + Qsum p.
Proof.
  intros Ht. revert p. induction Ht as [|a t Ha Ht IH]; intros p Hp.
  - simpl. pose proof (Qsum_nonneg p Hp). lra.
  - destruct Hp as [|b p Hb Hp].
    + simpl. pose proof (Qsum_nonneg t Ht). lra.
    + change (Qsum (map Qabs (map2 Qminus (a :: t) (b :: p))))
        with (Qabs (a - b) + Qsum (map Qabs (map2 Qminus t p))).
      change (Qsum (a :: t)) with (a + Qsum t).
      change (Qsum (b :: p)) with (b + Qsum p).
      destruct (IH p Hp) as [IH1 IH2].
      pose proof (Qabs_nonneg (a - b)).
      assert (Qabs (a - b) <= a + b) by (apply Qabs_Qle_condition; lra).
      lra.
Qed.

Lemma step_nonneg (v row : list Q) :
  Forall (fun x => 0 <= x) v -> Forall (fun r => -1 < r) row ->
  Forall (fun x => 0 <= x) (map2 (fun x r => x * (1 + r)) v row).
Proof.
  intros Hv. revert row. induction Hv as [|x v Hx Hv IH]; intros row Hrow;
    [constructor|].
  destruct Hrow as [|r row Hr Hrow]; simpl; constructor; [nra | now apply IH].
Qed.

Lemma step_sum_pos (v row : list Q) :
  Forall (fun x => 0 <= x) v -> Forall (fun r => -1 < r) row ->
  length row = length v -> 0 < Qsum v ->
  0 < Qsum (map2 (fun x r => x * (1 + r)) v row).
Proof.
  intros Hv. revert row. induction Hv as [|x v Hx Hv IH]; intros row Hrow Hlen;
    simpl; [lra|].
  destruct Hrow as [|r row Hr Hrow]; [discriminate|]. simpl in *.
  intros Hs.
  pose proof (Qsum_nonneg _ (step_nonneg v row Hv Hrow)) as Hrest.
  destruct (Qlt_le_dec 0 x) as [Hpos | Hzero].
  - nra.
  - assert (0 < Qsum v) by lra.
    assert (0 < Qsum (map2 (fun x r => x * (1 + r)) v row))
      by (apply IH; auto).
    nra.
Qed.

Lemma map2_length_eq {A B C} (f : A -> B -> C) (l : list A) (k : list B) :
  length k = length l -> length (map2 f l k) = length l.
Proof.
  revert k. induction l as [|a l IH]; intros [|b k]; simpl; try discriminate;
    auto.
Qed.

Lemma compound_healthy (n : nat) (g : list (date * list Q)) (v : list Q) :
  healthy n v ->
  Forall (fun r => length (snd r) = n /\ Forall (fun x => -1 < x) (snd r)) g ->
  healthy n (compound v g).
Proof.
  intros Hv Hg. revert v Hv. unfold compound.
  induction Hg as [|[d row] g [Hlen Hrow] Hg IH]; intros v Hv; simpl;
    [exact Hv|].
  apply IH. destruct Hv as (Hnn & Hs & Hl). simpl in *. repeat split.
  - now apply step_nonneg.
  - apply step_sum_pos; auto. congruence.
  - rewrite map2_length_eq; congruence.
Qed.

Lemma Qsum_map_mult (s : Q) (v : list Q) :
  Qsum (map (fun t => s * t) v) == s * Qsum v.
Proof. induction v as [|x v IH]; simpl; [ring|]. rewrite IH. ring. Qed.

Lemma rebalance_healthy (target : list Q) (s : Q) :
  Forall (fun x => 0 <= x) target -> Qsum target == 1 -> 0 < s ->
  healthy (length target) (map (fun t => s * t) target).
Proof.
  intros Ht Hs Hpos. repeat split.
  - apply Forall_map. eapply Forall_impl; [exact Ht|]. intros x Hx.
    cbv beta in *. nra.
  - rewrite Qsum_map_mult, Hs. lra.
  - apply length_map.
Qed.

Lemma turnover_healthy_bounded (target v : list Q) :
  Forall (fun x => 0 <= x) target -> Qsum target == 1 ->
  healthy (length target) v ->
  exists q,
    turnover_formula target (normalize_row v) = Fin q /\ 0 <= q /\ q <= 1.
Proof.
  intros Ht Hs (Hnn & Hpos & _).
  eexists. split; [apply turnover_Fin; lra|].
  assert (Hp : Forall (fun x => 0 <= x) (map (fun x => x / Qsum v) v)).
  { apply Forall_map. eapply Forall_impl; [exact Hnn|]. intros x Hx.
    cbv beta in *. apply Qle_shift_div_l; lra. }
  destruct (abs_diff_sum_bound target _ Ht Hp) as [H1 H2].
  rewrite Qsum_map_div, Hs in H2.
  assert (E : Qsum v / Qsum v == 1) by (field; lra).
  rewrite E in H2. lra.
Qed.

Lemma expected_turnovers_bounded (target : list Q)
    (gs : list (list (date * list Q))) (v : list Q) :
  Forall (fun x => 0 <= x) target -> Qsum target == 1 ->
  healthy (length target) v ->
  Forall (Forall (fun r => length (snd r) = length target /\
                           Forall (fun x => -1 < x) (snd r))) gs ->
  Forall (fun dt => exists q, snd dt = Fin q /\ 0 <= q /\ q <= 1)
         (expected_turnovers target v gs).
Proof.
  intros Ht Hs Hv Hgs. revert v Hv.
  induction Hgs as [|g gs Hg Hgs IH]; intros v Hv; simpl; [constructor|].
  destruct g as [|r0 g]; [now apply IH|].
  pose proof (compound_healthy _ _ v Hv Hg) as Hc.
  constructor.
  - simpl. now apply turnover_healthy_bounded.
  - apply IH. apply rebalance_healthy; auto. now destruct Hc as (_ & Hpos & _).
Qed.

Lemma weight_vector_length (assets : list string) (w : gmap string Q) :
  length (weight_vector assets w) = length assets.
Proof. apply length_map. Qed.

(** On a frequency pandas knows the whole simulation returns: its weight
    table has the columns and the dates of the returns, and a frame with
    columns gets one turnover per group with rows, keyed by the group's last
    date. *)
Lemma simulate_rebalancing_returns `{PandasGrouper} (returns : DataFrame Q)
    (target_weights : gmap string Q) (freq : string) :
  valid_freq freq = true ->
  exists tbl turnovers,
    simulate_rebalancing returns target_weights freq
    = Ok (mkDF (columns returns) tbl, turnovers) /\
    map fst tbl = index returns /\
    (columns returns <> [] ->
     map fst turnovers = end_dates (groupby freq returns)).
Proof.
  intros Hfreq. unfold simulate_rebalancing. rewrite Hfreq.
  set (target := weight_vector (columns returns) target_weights).
  set (tbl0 := map (fun r : date * list Q =>
                      (fst r, repeat NaN (length (columns returns))))
                   (rows returns)).
  assert (Hidx0 : map fst tbl0 = index returns).
  { unfold tbl0, index. rewrite map_map. reflexivity. }
  destruct (run_periods_returns (columns returns) target
              (groupby freq returns) (mkSim target tbl0 []))
    as (st' & Hrun & Hidx & Hkeys).
  - simpl. rewrite Hidx0. intros g r Hg Hr.
    apply List.in_map. eapply groupby_rows; eassumption.
  - simpl. apply groupby_end_dates_NoDup.
  - exists (sim_weights st'), (sim_turnovers st'). rewrite Hrun. simpl in *.
    split; [reflexivity|]. split; [now rewrite Hidx | exact Hkeys].
Qed.

(** With distinct dates and at least one column the turnover record is the
    expected one. *)
Lemma simulate_rebalancing_run `{PandasGrouper} (returns : DataFrame Q)
    (target_weights : gmap string Q) (freq : string) :
  valid_freq freq = true ->
  columns returns <> [] ->
  List.NoDup (index returns) ->
  exists tbl,
    simulate_rebalancing returns target_weights freq
    = Ok (mkDF (columns returns) tbl,
          expected_turnovers
            (weight_vector (columns returns) target_weights)
            (weight_vector (columns returns) target_weights)
            (groupby freq returns)) /\
    map fst tbl = index returns.
Proof.
  intros Hfreq Hcols Hdist. unfold simulate_rebalancing. rewrite Hfreq.
  set (target := weight_vector (columns returns) target_weights).
  set (tbl0 := map (fun r : date * list Q =>
                      (fst r, repeat NaN (length (columns returns))))
                   (rows returns)).
  assert (Hidx0 : map fst tbl0 = index returns).
  { unfold tbl0, index. rewrite map_map. reflexivity. }
  destruct (run_periods_turnovers (columns returns) target
              (groupby freq returns) (mkSim target tbl0 []) Hcols)
    as (st' & Hrun & Hturn & Hidx).
  - simpl. now rewrite Hidx0.
  - simpl. rewrite Hidx0. intros g r Hg Hr.
    apply List.in_map. eapply groupby_rows; eassumption.
  - simpl. apply groupby_end_dates_NoDup.
  - exists (sim_weights st'). rewrite Hrun. simpl in *.
    rewrite Hturn. split; [reflexivity|]. now rewrite Hidx.
Qed.

Lemma groupby_single `{PandasGrouper} (freq : string) (cols : list string)
    (r : date * list Q) :
  groupby freq (mkDF cols [r]) = [[r]].
Proof.
  unfold groupby. simpl.
  rewrite Z.min_id, Z.max_id.
  replace (period_of freq (fst r) - period_of freq (fst r) + 1)%Z
    with 1%Z by lia.
  unfold seqZ, period_group. simpl. now rewrite Z.eqb_refl.
Qed.

(** C4 (amended). On a frequency pandas accepts, for a returns matrix with
    at least one asset column and distinct dates, the simulation returns one
    turnover record per period that has dates and none for a period without
    dates: the record is keyed by the period's last date and equals
    0.5 * sum |target - pre-rebalance weight| at that date, and the next
    period starts from total value * target; the weight table has exactly
    the dates of the input.  When the matrix is rectangular, the target
    weights are non-negative and sum to 1 and every return is above -1, each
    recorded turnover lies in [0,1].  A one-period drift from the target
    (0.5, 0.5) to the weights (0.6, 0.4) records the turnover 0.1. *)
Theorem simulate_rebalancing_turnover `{PandasGrouper}
    (returns : DataFrame Q) (target_weights : gmap string Q) (freq : string) :
  valid_freq freq = true ->
  columns returns <> [] ->
  NoDup (index returns) ->
  (exists weights_df turnovers,
      simulate_rebalancing returns target_weights freq
      = Ok (weights_df, turnovers) /\
      turnovers
      = expected_turnovers (weight_vector (columns returns) target_weights)
                           (weight_vector (columns returns) target_weights)
                           (groupby freq returns) /\
      index weights_df = index returns /\
      (rectangular returns ->
       Forall (fun x => 0 <= x)
              (weight_vector (columns returns) target_weights) ->
       Qsum (weight_vector (columns returns) target_weights) == 1 ->
       Forall (fun r => Forall (fun x => -1 < x) (snd r)) (rows returns) ->
       Forall (fun dt => exists q, snd dt = Fin q /\ 0 <= q /\ q <= 1)
              turnovers)) /\
  (forall (assets : list string) (target : list Q) (st : sim_state),
      step_period assets target st [] = Ok st) /\
  (forall (target : list Q) (st : sim_state) (r0 : date * list Q)
          (g : list (date * list Q)),
      let v := compound (sim_values st) (r0 :: g) in
      let d := fst (List.last (r0 :: g) r0) in
      List.NoDup (map fst (sim_weights st)) ->
      In d (map fst (sim_weights st)) ->
      exists tbl,
        step_period (columns returns) target st (r0 :: g)
        = Ok (mkSim (map (fun t => Qsum v * t) target) tbl
                    (dict_set d (turnover_formula target (normalize_row v))
                              (sim_turnovers st))) /\
        loc_get d tbl = Ok [normalize_row v]) /\
  (exists wa wb q,
      simulate_rebalancing drift_returns equal_weights freq
      = Ok (mkDF ["A"; "B"]%string [(0%Z, [Fin wa; Fin wb])],
            [(0%Z, Fin q)]) /\
      wa == 0.6 /\ wb == 0.4 /\ q == 0.1).
Proof.
  intros Hfreq Hcols Hdates. split; [|split; [|split]].
  - destruct (simulate_rebalancing_run returns target_weights freq Hfreq
                Hcols (proj1 (NoDup_ListNoDup _) Hdates))
      as (tbl & Hrun & Hidx).
    eexists _, _. split; [exact Hrun|]. split; [reflexivity|].
    split; [exact Hidx|].
    intros Hrect Hnn Hsum Hret.
    apply expected_turnovers_bounded; auto.
    + split; [exact Hnn|]. split; [lra | reflexivity].
    + apply Forall_forall. intros g Hg. apply Forall_forall. intros r Hr.
      apply list_elem_of_In in Hg, Hr.
      pose proof (groupby_rows freq returns g r Hg Hr) as Hin.
      apply list_elem_of_In in Hin.
      rewrite weight_vector_length. split.
      * exact (proj1 (Forall_forall _ _) Hrect r Hin).
      * exact (proj1 (Forall_forall _ _) Hret r Hin).
  - intros [|a assets] target st; reflexivity.
  - intros target st r0 g v d Hnd Hin.
    destruct (step_period_nonempty (columns returns) target st r0 g Hcols
                Hnd Hin) as (tbl & Hstep & _ & Hget).
    exists tbl. split; assumption.
  - unfold simulate_rebalancing, drift_returns. rewrite Hfreq.
    cbn [columns rows]. rewrite groupby_single. vm_compute.
    eexists _, _, _. split; [reflexivity|]. repeat split.
Qed.

(** Closed facts about concrete rationals and tables, by evaluation. *)
Ltac by_evaluation :=
  vm_compute;
  repeat first [ reflexivity | discriminate | (intro; discriminate)
               | constructor ].

(** The simulation on the sample returns (thirty-day periods): three
    non-empty periods, three records, all within [0,1]. *)
Lemma simulate_rebalancing_example :
  exists weights_df turnovers,
    @simulate_rebalancing thirty_day_calendar example_returns example_weights
                          "M"
    = Ok (weights_df, turnovers) /\
    map fst turnovers = [1%Z; 45%Z; 100%Z] /\
    Forall (fun dt => exists q, snd dt = Fin q /\ 0 <= q /\ q <= 1) turnovers.
Proof.
  destruct (proj1 (@simulate_rebalancing_turnover thirty_day_calendar
                     example_returns example_weights "M"
                     ltac:(reflexivity) ltac:(discriminate)
                     ltac:(compute_done)))
    as (w & t & Hrun & Hexp & _ & Hbound).
  exists w, t. split; [exact Hrun|]. split.
  - rewrite Hexp. vm_compute. reflexivity.
  - apply Hbound; by_evaluation.
Defined.

(** C4, as stated, fails in four ways.  A turnover above 1 is recorded when
    the target weights add up to 4, and also when they add up to 1 but a
    return is below -1.  When the last date of a period is repeated in the
    index, [.loc] reads a block of two rows and the recorded turnover is 0.2,
    twice the 0.1 that the formula gives for the drift to (0.6, 0.4).  In a
    frame without columns every group is [empty]: the period has dates but
    gets no turnover record.  And on a frequency pandas does not know the
    call raises ValueError and records nothing. *)
Lemma turnover_above_one :
  (exists w q,
      @simulate_rebalancing thirty_day_calendar flat_returns leveraged_weights
                            "M"
      = Ok (w, [(0%Z, Fin q)]) /\ 1 < q) /\
  (exists w q,
      @simulate_rebalancing thirty_day_calendar crash_returns equal_weights
                            "M"
      = Ok (w, [(0%Z, Fin q)]) /\ 1 < q) /\
  (exists wa wb q f,
      @simulate_rebalancing thirty_day_calendar repeated_date_returns
                            equal_weights "M"
      = Ok (mkDF ["A"; "B"]%string
                 [(0%Z, [Fin wa; Fin wb]); (0%Z, [Fin wa; Fin wb])],
            [(0%Z, Fin q)]) /\
      turnover_formula [0.5; 0.5] [Fin wa; Fin wb] = Fin f /\
      wa == 0.6 /\ wb == 0.4 /\ f == 0.1 /\ q == 0.2) /\
  @simulate_rebalancing thirty_day_calendar no_column_returns equal_weights
                        "M"
  = Ok (mkDF [] [(0%Z, []); (1%Z, [])], []) /\
  @simulate_rebalancing thirty_day_calendar drift_returns equal_weights
                        "bogus"
  = Raise ValueError.
Proof.
  split; [|split; [|split; [|split]]].
  - eexists _, _. split; [vm_compute; reflexivity | by_evaluation].
  - eexists _, _. split; [vm_compute; reflexivity | by_evaluation].
  - eexists _, _, _, _. split; [vm_compute; reflexivity|].
    split; [vm_compute; reflexivity|]. repeat split.
  - vm_compute. reflexivity.
  - vm_compute. reflexivity.
Qed.

(** C10. An asset of the returns matrix that the weight mapping does not
    mention is looked up with the default 0.0: its entry of the weight
    vector is 0, both simulations behave exactly as if the mapping held 0
    for it, and on a frequency pandas accepts the rebalancing simulation
    does not raise. *)
Theorem missing_assets_weigh_zero `{PandasGrouper} (returns : DataFrame Q)
    (weights : gmap string Q) (a : string) (freq : string) :
  weights !! a = None ->
  weight_vector (columns returns) weights
  = map (fun b => if decide (b = a) then 0 else default 0 (weights !! b))
        (columns returns) /\
  weights_over_time_buy_and_hold returns weights
  = weights_over_time_buy_and_hold returns (<[a := 0]> weights) /\
  simulate_rebalancing returns weights freq
  = simulate_rebalancing returns (<[a := 0]> weights) freq /\
  (valid_freq freq = true ->
   exists out, simulate_rebalancing returns weights freq = Ok out).
Proof.
  intros Hnone. split; [|split; [|split]].
  - unfold weight_vector. apply map_ext. intros b.
    destruct (decide (b = a)) as [->|Hne]; [now rewrite Hnone | reflexivity].
  - unfold weights_over_time_buy_and_hold, buy_and_hold_values.
    now rewrite weight_vector_default.
  - unfold simulate_rebalancing. now rewrite weight_vector_default.
  - intros Hfreq.
    destruct (simulate_rebalancing_returns returns weights freq Hfreq)
      as (tbl & t & Hrun & _).
    eexists. exact Hrun.
Qed.

(** Asset B is missing from the mapping: it is held at weight 0, and the
    rebalancing simulation returns. *)
Lemma missing_asset_example :
  weight_vector (columns example_returns) partial_weights = [1; 0] /\
  weights_over_time_buy_and_hold example_returns partial_weights
  = weights_over_time_buy_and_hold example_returns
      (<["B"%string := 0]> partial_weights) /\
  exists out,
    @simulate_rebalancing thirty_day_calendar example_returns partial_weights
                          "M" = Ok out.
Proof.
  destruct (@missing_assets_weigh_zero thirty_day_calendar example_returns
              partial_weights "B"%string "M"%string ltac:(reflexivity))
    as (Hvec & Hbh & _ & Hok).
  split; [rewrite Hvec; reflexivity|]. split; [exact Hbh|].
  apply Hok. reflexivity.
Defined.

(** The buy-and-hold path of the sample returns with weights (0.6, 0.4). *)
Lemma buy_and_hold_example :
  Forall2 (fun dv dw =>
             fst dw = fst dv /\
             Forall2 feq (snd dw)
                     (map (fun v => Fin (v / Qsum (snd dv))) (snd dv)) /\
             feq (fsum (snd dw)) (Fin 1))
          (tracked_values example_returns example_weights)
          (rows (weights_over_time_buy_and_hold example_returns
                   example_weights)).
Proof.
  apply buy_and_hold_weights_sum_to_one. by_evaluation.
Defined.



(** ** Optimizer post-processing *)

Lemma zip_fst_subset {A B} (l : list A) (k : list B) (a : A) :
  In a (map fst (zip l k)) -> In a l.
Proof.
  revert k. induction l as [|x l IH]; intros [|y k]; simpl; try tauto.
  intros [->|Hin]; [now left | right; eauto].
Qed.

Lemma weights_dict_from_zip (assets : list string) (w : list pyfloat)
    (k i : nat) :
  NoDup assets -> length w = length assets ->
  (i + k)%nat = length assets ->
  weights_dict_from assets w (seq i k) (zip (take i assets) (take i w))
  = Ok (zip assets w).
Proof.
  intros Hnd Hlen. revert i. induction k as [|k IH]; intros i Hik; simpl.
  - rewrite !take_ge by lia. reflexivity.
  - destruct (lookup_lt_is_Some_2 assets i) as [a Ha]; [lia|].
    destruct (lookup_lt_is_Some_2 w i) as [v Hv]; [lia|].
    rewrite Ha, Hv.
    rewrite dict_set_fresh.
    + rewrite <- (IH (S i)) by lia. f_equal.
      rewrite (take_S_r assets i a Ha), (take_S_r w i v Hv).
      rewrite zip_with_app; [reflexivity|].
      rewrite !length_take. lia.
    + intros Hin. apply zip_fst_subset in Hin.
      rewrite <- (take_drop_middle assets i a Ha) in Hnd.
      apply NoDup_app in Hnd. destruct Hnd as (_ & Hdis & _).
      apply list_elem_of_In in Hin. apply (Hdis a Hin). left.
Qed.

(** With distinct asset names the dictionary pairs every asset with its
    weight, in column order. *)
Lemma weights_dict_zip (assets : list string) (w : list pyfloat) :
  NoDup assets -> length w = length assets ->
  weights_dict assets w (length assets) = Ok (zip assets w).
Proof.
  intros Hnd Hlen. unfold weights_dict.
  apply (weights_dict_from_zip assets w (length assets) 0 Hnd Hlen).
  reflexivity.
Qed.

Lemma snd_zip_eq {A B} (l : list A) (k : list B) :
  length k = length l -> map snd (zip l k) = k.
Proof.
  revert k. induction l as [|x l IH]; intros [|y k]; simpl; try discriminate;
    auto.
  intros Hlen. f_equal. apply IH. lia.
Qed.

Lemma fst_zip_eq {A B} (l : list A) (k : list B) :
  length k = length l -> map fst (zip l k) = l.
Proof.
  revert k. induction l as [|x l IH]; intros [|y k]; simpl; try discriminate;
    auto.
  intros Hlen. f_equal. apply IH. lia.
Qed.

(** What the two siblings do after the solver returns: whenever the clipped
    iterate does not sum to zero, the weights they return sum to 1. *)
Lemma clip_and_renormalize_sums_to_one (assets : list string)
    (res : OptimizeResult) :
  NoDup assets -> length (res_x res) = length assets ->
  ~ Qsum (map clip01 (res_x res)) == 0 ->
  exists d,
    returned (clip_and_renormalize assets (length assets) res) = Ok d /\
    map fst d = assets /\
    feq (fsum (map snd d)) (Fin 1).
Proof.
  intros Hnd Hlen Hs. unfold clip_and_renormalize. simpl.
  assert (Hl : length (normalize_row (map clip01 (res_x res)))
               = length assets).
  { unfold normalize_row. now rewrite !length_map. }
  rewrite weights_dict_zip by assumption.
  eexists. split; [reflexivity|]. split; [now apply fst_zip_eq|].
  rewrite snd_zip_eq by exact Hl. now apply normalize_row_sum.
Qed.

Lemma clip01_inside (x : Q) : 0 <= x -> x <= 1 -> clip01 x == x.
Proof.
  intros H0 H1. unfold clip01. rewrite (Q.max_l x 0 H0). now apply Q.min_l.
Qed.

Lemma Qmin_Qmax_inside (x lo hi : Q) :
  lo <= hi -> lo <= Qmin (Qmax x lo) hi /\ Qmin (Qmax x lo) hi <= hi.
Proof.
  intros Hle. split; [|apply Q.le_min_r].
  apply Q.min_glb; [apply Q.le_max_r | exact Hle].
Qed.

Lemma projecting_solver_respects_bounds : respects_bounds projecting_solver.
Proof.
  intros obj x0 method bounds cons opts Hlen Hb. simpl.
  revert x0 Hlen. induction Hb as [|b bounds Hb Hbs IH]; intros [|x x0] Hlen;
    simpl in *; try discriminate; constructor.
  - now apply Qmin_Qmax_inside.
  - apply IH. lia.
Qed.

Lemma solver_iterate_in_box (solver : ScipyOptimize) :
  respects_bounds solver ->
  forall obj x0 method (lo hi : Q) (n : nat) cons opts,
    length x0 = n -> lo <= hi ->
    length (res_x (minimize obj x0 method (repeat (lo, hi) n) cons opts)) = n
    /\ Forall (fun x => lo <= x /\ x <= hi)
              (res_x (minimize obj x0 method (repeat (lo, hi) n) cons opts)).
Proof.
  intros Hsolver obj x0 method lo hi n cons opts Hlen Hle.
  pose proof (Hsolver obj x0 method (repeat (lo, hi) n) cons opts) as Hbox.
  rewrite repeat_length in Hbox. specialize (Hbox Hlen).
  assert (Hb : Forall (fun b : Q * Q => fst b <= snd b) (repeat (lo, hi) n)).
  { apply Forall_forall. intros b Hb. apply list_elem_of_In in Hb.
    apply repeat_spec in Hb. now subst b. }
  specialize (Hbox Hb). split.
  - apply Forall2_length in Hbox. now rewrite repeat_length in Hbox.
  - revert Hbox. generalize (res_x (minimize obj x0 method (repeat (lo, hi) n)
                                             cons opts)).
    clear. induction n as [|n IH]; intros l Hl; simpl in Hl;
      inversion Hl; subst; constructor; auto.
Qed.

Lemma clipped_sum_positive (lo hi : Q) (l : list Q) :
  0 < lo -> hi <= 1 -> l <> [] ->
  Forall (fun x => lo <= x /\ x <= hi) l ->
  ~ Qsum (map clip01 l) == 0.
Proof.
  intros Hlo Hhi Hne Hl.
  assert (Hpos : 0 < Qsum (map clip01 l)); [|lra].
  destruct Hl as [|x l [Hx1 Hx2] Hl]; [congruence|].
  change (Qsum (map clip01 (x :: l)))
    with (clip01 x + Qsum (map clip01 l)).
  rewrite clip01_inside by lra.
  assert (0 <= Qsum (map clip01 l)); [|lra].
  apply Qsum_nonneg, Forall_map. eapply Forall_impl; [exact Hl|].
  intros y [Hy1 Hy2]. cbv beta. rewrite clip01_inside; lra.
Qed.

(** Name the solver's result [res] and recall that it lies in the box. *)
Ltac iterate_in_box Hsolver res Hlen Hbox :=
  match goal with
  | res := minimize ?o ?x ?m (repeat (?lo, ?hi) ?n) ?c ?op |- _ =>
      destruct (solver_iterate_in_box _ Hsolver o x m lo hi n c op eq_refl
                  ltac:(by_evaluation)) as [Hlen Hbox];
      fold res in Hlen, Hbox
  end.

(** C1, at the failing input: two assets, every weight boxed into
    [0.1, 0.3], so that no point of the box sums to 1.  With any solver that
    stays in the box, the two siblings clip and renormalize and return
    weights summing to 1, whereas [optimize_portfolio_sharpe] returns the
    iterate as it is: its weights sum to at most 0.6. *)
Theorem sharpe_weights_not_renormalized `{NumpyMath} (solver : ScipyOptimize)
    (rws : list (date * list Q)) (target_annual_ret max_annual_vol rf : Q) :
  respects_bounds solver ->
  let returns := mkDF ["A"; "B"]%string rws in
  (exists d,
      returned (recommend_weights_for_target_return returns target_annual_ret
                                                    0.1 0.3) = Ok d /\
      map fst d = ["A"; "B"]%string /\ feq (fsum (map snd d)) (Fin 1)) /\
  (exists d,
      returned (recommend_weights_for_max_vol returns max_annual_vol 0.1 0.3)
      = Ok d /\
      map fst d = ["A"; "B"]%string /\ feq (fsum (map snd d)) (Fin 1)) /\
  (exists d s,
      returned (optimize_portfolio_sharpe returns 0.1 0.3 rf) = Ok d /\
      map fst d = ["A"; "B"]%string /\ fsum (map snd d) = Fin s /\
      s <= 0.6 /\ 0.000001 < Qabs (s - 1)).
Proof.
  intros Hsolver returns.
  assert (Hnd : NoDup ["A"; "B"]%string) by compute_done.
  split; [|split].
  - unfold recommend_weights_for_target_return.
    cbn [columns returns length].
    match goal with |- context [clip_and_renormalize _ _ ?r] =>
      set (res := r) end.
    iterate_in_box Hsolver res Hlen Hbox.
    apply (clip_and_renormalize_sums_to_one ["A"; "B"]%string res Hnd Hlen).
    apply (clipped_sum_positive 0.1 0.3);
      [by_evaluation | by_evaluation | | exact Hbox].
    intros E. rewrite E in Hlen. discriminate.
  - unfold recommend_weights_for_max_vol.
    cbn [columns returns length].
    match goal with |- context [clip_and_renormalize _ _ ?r] =>
      set (res := r) end.
    iterate_in_box Hsolver res Hlen Hbox.
    apply (clip_and_renormalize_sums_to_one ["A"; "B"]%string res Hnd Hlen).
    apply (clipped_sum_positive 0.1 0.3);
      [by_evaluation | by_evaluation | | exact Hbox].
    intros E. rewrite E in Hlen. discriminate.
  - unfold optimize_portfolio_sharpe.
    cbn [columns returns length returned].
    match goal with |- context [res_x ?r] => set (res := r) end.
    iterate_in_box Hsolver res Hlen Hbox.
    destruct (res_x res) as [|a [|b [|c l]]]; try discriminate.
    inversion Hbox as [|? ? [Ha1 Ha2] Hbox']; subst.
    inversion Hbox' as [|? ? [Hb1 Hb2] _]; subst.
    exists [("A"%string, Fin a); ("B"%string, Fin b)], (a + (b + 0)).
    split; [reflexivity|]. split; [reflexivity|]. split; [reflexivity|].
    split; [lra|]. rewrite Qabs_neg; lra.
Qed.

(** With the projecting solver and the weights boxed into [0.1, 0.3] the
    Sharpe optimizer hands back (0.3, 0.3). *)
Lemma sharpe_weights_example :
  exists d s,
    returned (@optimize_portfolio_sharpe simple_math projecting_solver
                example_returns 0.1 0.3 0) = Ok d /\
    map fst d = ["A"; "B"]%string /\ fsum (map snd d) = Fin s /\ s <= 0.6 /\
    0.000001 < Qabs (s - 1).
Proof.
  exact (proj2 (proj2 (@sharpe_weights_not_renormalized simple_math
                         projecting_solver (rows example_returns) 0.05 0.2 0
                         projecting_solver_respects_bounds))).
Defined.

(** When the box is [0, 0] the clipped iterate sums to zero and the
    renormalization of the siblings divides 0 by 0. *)
Example renormalize_zero_iterate :
  returned (@recommend_weights_for_max_vol simple_math projecting_solver
              example_returns 0.2 0 0)
  = Ok [("A"%string, NaN); ("B"%string, NaN)].
Proof. vm_compute. reflexivity. Qed.

(** C5, at the failing input: one asset whose weight is boxed into
    [0.1, 0.5].  With any solver that stays in the box the two siblings
    return the weight 1.0 (the clipped iterate divided by itself), whereas
    [optimize_portfolio_sharpe] returns the iterate, at most 0.5. *)
Theorem single_asset_sharpe_weight `{NumpyMath} (solver : ScipyOptimize)
    (rws : list (date * list Q)) (target_annual_ret max_annual_vol rf : Q) :
  respects_bounds solver ->
  let returns := mkDF ["A"]%string rws in
  (exists w,
      returned (recommend_weights_for_target_return returns target_annual_ret
                                                    0.1 0.5)
      = Ok [("A"%string, Fin w)] /\ w == 1) /\
  (exists w,
      returned (recommend_weights_for_max_vol returns max_annual_vol 0.1 0.5)
      = Ok [("A"%string, Fin w)] /\ w == 1) /\
  (exists a,
      returned (optimize_portfolio_sharpe returns 0.1 0.5 rf)
      = Ok [("A"%string, Fin a)] /\ a <= 0.5 /\ ~ a == 1).
Proof.
  intros Hsolver returns.
  assert (Hone : forall res : OptimizeResult,
             length (res_x res) = 1%nat ->
             Forall (fun x => 0.1 <= x /\ x <= 0.5) (res_x res) ->
             exists w,
               returned (clip_and_renormalize ["A"%string] 1 res)
               = Ok [("A"%string, Fin w)] /\ w == 1).
  { intros res Hlen Hbox. unfold clip_and_renormalize. cbn [returned].
    destruct (res_x res) as [|a [|b l]]; try discriminate.
    inversion Hbox as [|? ? [Ha1 Ha2] _]; subst.
    assert (Hc : clip01 a == a) by (apply clip01_inside; lra).
    unfold normalize_row. cbn [map Qsum fold_right].
    rewrite fdiv_Fin by (rewrite Hc; lra).
    eexists. split; [reflexivity|]. rewrite Hc. field. lra. }
  split; [|split].
  - unfold recommend_weights_for_target_return.
    cbn [columns returns length].
    match goal with |- context [clip_and_renormalize _ _ ?r] =>
      set (res := r) end.
    iterate_in_box Hsolver res Hlen Hbox. now apply Hone.
  - unfold recommend_weights_for_max_vol.
    cbn [columns returns length].
    match goal with |- context [clip_and_renormalize _ _ ?r] =>
      set (res := r) end.
    iterate_in_box Hsolver res Hlen Hbox. now apply Hone.
  - unfold optimize_portfolio_sharpe.
    cbn [columns returns length returned].
    match goal with |- context [res_x ?r] => set (res := r) end.
    iterate_in_box Hsolver res Hlen Hbox.
    destruct (res_x res) as [|a [|b l]]; try discriminate.
    inversion Hbox as [|? ? [Ha1 Ha2] _]; subst.
    exists a. split; [reflexivity|]. split; [exact Ha2 | lra].
Qed.

(** With the projecting solver and the weight boxed into [0.1, 0.5] the
    Sharpe optimizer hands back 0.5 for the only asset. *)
Lemma single_asset_sharpe_example :
  exists a,
    returned (@optimize_portfolio_sharpe simple_math projecting_solver
                single_asset_returns 0.1 0.5 0)
    = Ok [("A"%string, Fin a)] /\ a <= 0.5 /\ ~ a == 1.
Proof.
  exact (proj2 (proj2 (@single_asset_sharpe_weight simple_math
                         projecting_solver (rows single_asset_returns)
                         0.05 0.2 0 projecting_solver_respects_bounds))).
Defined.

(** ** Random portfolios *)

(** C3. The samples and their metrics are a function of (returns,
    numPortfolios, seed): whatever state the process-wide generator is in,
    the call returns the same rows in the same order; in particular calling
    twice in a row gives the same rows both times. *)
Theorem generate_random_portfolios_deterministic `{NumpyMath} `{NumpyRandom}
    (returns : DataFrame Q) (num_portfolios seed : Z) (g g' : rng_state) :
  fst (generate_random_portfolios returns num_portfolios seed g)
  = fst (generate_random_portfolios returns num_portfolios seed g') /\
  (let first := generate_random_portfolios returns num_portfolios seed g in
   let second :=
     generate_random_portfolios returns num_portfolios seed (snd first) in
   fst second = fst first).
Proof.
  unfold generate_random_portfolios.
  destruct (np_random_seed seed) as [g1|e]; simpl.
  - destruct (np_random_dirichlet _ num_portfolios g1) as [drawn g2].
    simpl. split; reflexivity.
  - split; reflexivity.
Qed.

(** C2 (amended). The seed is an explicit parameter, and the call reseeds
    the process-wide generator with it and draws from that generator: when
    the seed is accepted, the state the process held before is overwritten
    without being read, and the state left behind is the one the Dirichlet
    draw reaches from the freshly seeded state. *)
Theorem generate_random_portfolios_reseeds `{NumpyMath} `{NumpyRandom}
    (returns : DataFrame Q) (num_portfolios seed : Z) (g g' s : rng_state) :
  np_random_seed seed = Ok s ->
  snd (generate_random_portfolios returns num_portfolios seed g)
  = snd (np_random_dirichlet (repeat 1 (length (columns returns)))
                             num_portfolios s) /\
  generate_random_portfolios returns num_portfolios seed g
  = generate_random_portfolios returns num_portfolios seed g'.
Proof.
  intros Hseed. unfold generate_random_portfolios. rewrite Hseed.
  destruct (np_random_dirichlet _ num_portfolios s) as [drawn g2].
  split; reflexivity.
Qed.

(** With the counting generator, seed 42 and two draws over two assets leave
    the state 46, whatever it was before. *)
Lemma generate_random_portfolios_reseeds_example :
  snd (@generate_random_portfolios simple_math counter_generator
         example_returns 2 42 7%Z) = 46%Z /\
  @generate_random_portfolios simple_math counter_generator
     example_returns 2 42 7%Z
  = @generate_random_portfolios simple_math counter_generator
      example_returns 2 42 1000%Z.
Proof.
  destruct (@generate_random_portfolios_reseeds simple_math counter_generator
              example_returns 2 42 7%Z 1000%Z 42%Z eq_refl) as [Hs He].
  split; [rewrite Hs; reflexivity | exact He].
Defined.

(** C2, as stated, fails: the process-wide state is not left unchanged. *)
Lemma global_state_overwritten :
  snd (@generate_random_portfolios simple_math counter_generator
         example_returns 2 42 7%Z) <> 7%Z.
Proof. vm_compute. discriminate. Qed.

(** * Further properties of the metrics *)

Lemma running_max_from_proper (l l' : list Q) (a a' : Q) :
  Forall2 Qeq l l' -> a == a' ->
  Forall2 Qeq (running_max_from a l) (running_max_from a' l').
Proof.
  intros Hl. revert a a'.
  induction Hl as [|x y l l' Hxy Hl IH]; intros a a' Ha; simpl; constructor.
  - now rewrite Ha, Hxy.
  - apply IH. now rewrite Ha, Hxy.
Qed.

Lemma running_max_proper (l l' : list Q) :
  Forall2 Qeq l l' -> Forall2 Qeq (running_max l) (running_max l').
Proof.
  intros [|x y l0 l0' Hxy Hl]; simpl; constructor; auto.
  now apply running_max_from_proper.
Qed.

Lemma drawdowns_proper (l l' : list Q) :
  Forall2 Qeq l l' -> Forall2 Qeq (drawdowns l) (drawdowns l').
Proof.
  intros Hl. unfold drawdowns.
  pose proof (running_max_proper l l' Hl) as Hm. revert Hm.
  generalize (running_max l) (running_max l'). intros m m' Hm.
  revert m m' Hm.
  induction Hl as [|x y l l' Hxy Hl IH]; intros m m' Hm;
    destruct Hm as [|a b m m' Hab Hm]; simpl; constructor.
  - now rewrite Hxy, Hab.
  - now apply IH.
Qed.

Lemma fold_left_Qmin_above (b : Q) (l : list Q) (a : Q) :
  Forall (fun x => b < x) l -> b < a -> b < fold_left Qmin l a.
Proof.
  intros Hl. revert a. induction Hl as [|x l Hx Hl IH]; intros a Ha; simpl;
    [exact Ha|].
  apply IH. destruct (Q.min_spec a x) as [[_ E]|[_ E]]; rewrite E; assumption.
Qed.

Lemma drawdowns_from_above (l : list Q) (acc : Q) :
  0 < acc -> Forall (fun x => 0 < x) l ->
  Forall (fun e => -1 < e)
         (map2 (fun v m => v / m - 1) l (running_max_from acc l)).
Proof.
  intros Hacc Hl. revert acc Hacc.
  induction Hl as [|v l Hv Hl IH]; intros acc Hacc; simpl; constructor.
  - pose proof (Q.le_max_l acc v) as Hm.
    assert (0 < v / Qmax acc v) by (apply Qlt_shift_div_l; lra). lra.
  - apply IH. pose proof (Q.le_max_l acc v). lra.
Qed.

Lemma max_drawdown_formula_above (v : Q) (l : list Q) :
  0 < v -> Forall (fun x => 0 < x) l -> -1 < max_drawdown_formula (v :: l).
Proof.
  intros Hv Hl. unfold max_drawdown_formula, drawdowns. simpl.
  apply fold_left_Qmin_above.
  - now apply drawdowns_from_above.
  - assert (E : v / v - 1 == 0) by (field; lra). rewrite E. lra.
Qed.

Lemma rescaled_positive (v0 : Q) (l : list Q) :
  0 < v0 -> Forall (fun x => 0 < x) l ->
  Forall (fun x => 0 < x) (map (fun v => v / v0) l).
Proof.
  intros Hv0 Hl. apply Forall_map. eapply Forall_impl; [exact Hl|].
  intros x Hx. cbv beta in *. apply Qlt_shift_div_l; lra.
Qed.

(** X1: A drawdown is a loss of at most everything: on a non-empty series of
    positive values [max_drawdown] is a finite number in [-1, 0]. *)
Theorem max_drawdown_range (values : Series Q) :
  values <> [] ->
  Forall (fun dv => 0 < snd dv) values ->
  exists m : Q, max_drawdown values = Ok (Fin m) /\ -1 <= m /\ m <= 0.
Proof.
  intros Hne Hpos. destruct values as [|[d0 v0] rest]; [congruence|].
  assert (Hv0 : 0 < v0) by (inversion Hpos; assumption).
  assert (Hrest : Forall (fun x => 0 < x) (map snd rest)).
  { apply Forall_map. inversion Hpos; assumption. }
  eexists. split; [apply max_drawdown_rescaled; exact Hpos|].
  cbn [map]. split.
  - apply Qlt_le_weak, max_drawdown_formula_above.
    + apply Qlt_shift_div_l; lra.
    + now apply rescaled_positive.
  - apply max_drawdown_formula_nonpos. apply Qlt_shift_div_l; lra.
Qed.

Lemma max_drawdown_range_example :
  exists m : Q,
    max_drawdown [(0%Z, 1.0); (1%Z, 1.2); (2%Z, 0.9); (3%Z, 1.1)]
    = Ok (Fin m) /\ -1 <= m /\ m <= 0.
Proof.
  apply max_drawdown_range; [discriminate | repeat constructor].
Defined.

(** X2: The drawdown does not depend on the unit the values are expressed in:
    multiplying a series of positive values by a positive factor leaves
    [max_drawdown] unchanged. *)
Theorem max_drawdown_scale_invariant (values : Series Q) (c : Q) :
  0 < c -> values <> [] ->
  Forall (fun dv => 0 < snd dv) values ->
  exists m m' : Q,
    max_drawdown values = Ok (Fin m) /\
    max_drawdown (map (fun dv => (fst dv, c * snd dv)) values) = Ok (Fin m') /\
    m' == m.
Proof.
  intros Hc Hne Hpos. destruct values as [|[d0 v0] rest]; [congruence|].
  assert (Hv0 : 0 < v0) by (inversion Hpos; assumption).
  assert (Hpos' : Forall (fun dv : date * Q => 0 < snd dv)
                         (map (fun dv => (fst dv, c * snd dv))
                              ((d0, v0) :: rest))).
  { apply Forall_map. eapply Forall_impl; [exact Hpos|].
    intros [d v] Hv. simpl in *. nra. }
  eexists _, _. split; [apply max_drawdown_rescaled; exact Hpos|].
  split; [apply (max_drawdown_rescaled d0 (c * v0)); exact Hpos'|].
  apply Qlist_min_proper, drawdowns_proper. cbn [map].
  constructor; [field; lra|].
  rewrite !map_map. clear Hne Hpos Hpos'.
  induction rest as [|[d v] rest IH]; simpl; constructor; [|exact IH].
  field. lra.
Qed.

Lemma max_drawdown_scale_example :
  exists m m' : Q,
    max_drawdown [(0%Z, 1.0); (1%Z, 1.2); (2%Z, 0.9); (3%Z, 1.1)]
    = Ok (Fin m) /\
    max_drawdown [(0%Z, 100 * 1.0); (1%Z, 100 * 1.2); (2%Z, 100 * 0.9);
                  (3%Z, 100 * 1.1)] = Ok (Fin m') /\
    m' == m.
Proof.
  apply (max_drawdown_scale_invariant
           [(0%Z, 1.0); (1%Z, 1.2); (2%Z, 0.9); (3%Z, 1.1)] 100);
    [reflexivity | discriminate | repeat constructor].
Defined.

Lemma fdiv_by_zero_special (x v0 : Q) :
  v0 == 0 -> special (fdiv (Fin x) (Fin v0)).
Proof.
  intros Hz. simpl. apply Qeq_bool_iff in Hz. rewrite Hz.
  destruct (Qeq_bool x 0); exact I.
Qed.

Lemma fmax_special (a b : pyfloat) :
  special a -> special b -> special (fmax a b).
Proof. unfold fmax. destruct (flt a b); auto. Qed.

Lemma drawdown_special_nan (c m : pyfloat) :
  special c -> special m -> fsub (fdiv c m) (Fin 1) = NaN.
Proof. destruct c, m; simpl; tauto. Qed.

Lemma cummax_from_special (l : list pyfloat) (acc : option pyfloat) :
  Forall special l ->
  match acc with Some a => special a | None => True end ->
  Forall special (cummax_from acc l).
Proof.
  intros Hl. revert acc. induction Hl as [|x l Hx Hl IH]; intros acc Hacc;
    simpl; [constructor|].
  destruct (is_nan x); constructor; try exact I.
  - now apply IH.
  - destruct acc as [a|]; [now apply fmax_special | exact Hx].
  - apply IH. destruct acc as [a|]; [now apply fmax_special | exact Hx].
Qed.

Lemma cummax_from_length (l : list pyfloat) (acc : option pyfloat) :
  length (cummax_from acc l) = length l.
Proof.
  revert acc. induction l as [|x l IH]; intros acc; simpl; [reflexivity|].
  destruct (is_nan x); simpl; now rewrite IH.
Qed.

Lemma drawdowns_special_nan (c m : list pyfloat) :
  Forall special c -> Forall special m ->
  Forall (fun e => e = NaN)
         (map2 (fun c m => fsub (fdiv c m) (Fin 1)) c m).
Proof.
  intros Hc. revert m. induction Hc as [|x c Hx Hc IH]; intros m Hm;
    [constructor|].
  destruct Hm as [|y m Hy Hm]; simpl; constructor.
  - now apply drawdown_special_nan.
  - now apply IH.
Qed.

Lemma series_min_from_all_nan (l : list pyfloat) (acc : option pyfloat) :
  Forall (fun e => e = NaN) l ->
  series_min_from acc l = match acc with Some a => a | None => NaN end.
Proof.
  intros Hl. revert acc. induction Hl as [|x l Hx Hl IH]; intros acc; simpl;
    [reflexivity|]. subst x. simpl. apply IH.
Qed.

(** X3: A series that starts at zero: every rescaled value is 0/0 or an
    infinity, every drawdown is NaN, and [max_drawdown] returns NaN (it does
    not raise). *)
Theorem max_drawdown_zero_start (d0 : date) (v0 : Q) (rest : Series Q) :
  v0 == 0 -> max_drawdown ((d0, v0) :: rest) = Ok NaN.
Proof.
  intros Hz. unfold max_drawdown. f_equal.
  set (cum := map (fun dv : date * Q => fdiv (Fin (snd dv)) (Fin v0))
                  ((d0, v0) :: rest)).
  assert (Hcum : Forall special cum).
  { unfold cum. apply Forall_map, Forall_forall. intros [d v] _.
    now apply fdiv_by_zero_special. }
  unfold series_min. rewrite series_min_from_all_nan; [reflexivity|].
  apply drawdowns_special_nan; [exact Hcum|].
  unfold cummax. now apply cummax_from_special.
Qed.

Lemma max_drawdown_zero_start_example :
  max_drawdown [(0%Z, 0); (1%Z, 1.2); (2%Z, -0.9)] = Ok NaN.
Proof. apply max_drawdown_zero_start. reflexivity. Defined.

Lemma simple_sqrt_zero (q : Q) :
  q == 0 -> feq (@np_sqrt simple_math (Fin q)) (Fin 0).
Proof.
  intros Hq. simpl. unfold simple_sqrt.
  assert (Hn : Qnum q = 0%Z).
  { unfold Qeq in Hq. simpl in Hq. lia. }
  assert (Hb : Qneg_bool q = false).
  { unfold Qneg_bool. apply negb_false_iff, Qle_bool_iff. rewrite Hq. lra. }
  rewrite Hb, Hn. simpl. reflexivity.
Qed.

(** Three dates without any return, run through the sample square root. *)
Lemma sharpe_ratio_zero_returns_example :
  @sharpe_ratio simple_math [(0%Z, 0); (1%Z, 0); (5%Z, 0)] 0.01 = NaN.
Proof.
  apply (@sharpe_ratio_zero_returns simple_math _ 0.01).
  - exact simple_sqrt_zero.
  - simpl. lia.
  - repeat constructor.
Defined.

(** X5: Fewer than two observations: the sample standard deviation is 0/0, and
    the Sharpe ratio is NaN whenever the square root passes NaN through. *)
Theorem sharpe_ratio_short_series `{NumpyMath} (returns : Series Q)
    (risk_free : Q) :
  np_sqrt NaN = NaN ->
  (length returns <= 1)%nat ->
  sharpe_ratio returns risk_free = NaN.
Proof.
  intros Hsqrt Hlen.
  destruct returns as [|[d x] [|r rest]]; [| |simpl in Hlen; lia].
  - unfold sharpe_ratio, annualized_vol, std, mean. simpl. reflexivity.
  - unfold sharpe_ratio, annualized_vol, std, mean.
    cbn [map snd length Qsum fold_right].
    change (inject_Z (Z.of_nat 1)) with 1.
    rewrite (fdiv_Fin (x + 0) 1) by lra.
    assert (E : fdiv (Fin ((x - (x + 0) / 1) * (x - (x + 0) / 1) + 0))
                     (Fin (1 - 1)) = NaN).
    { unfold fdiv.
      assert (E1 : Qeq_bool (1 - 1) 0 = true) by reflexivity.
      assert (E2 : Qeq_bool ((x - (x + 0) / 1) * (x - (x + 0) / 1) + 0) 0
                   = true) by (apply Qeq_bool_iff; field).
      now rewrite E1, E2. }
    rewrite E, Hsqrt. reflexivity.
Qed.

Lemma simple_sqrt_nan : @np_sqrt simple_math NaN = NaN.
Proof. reflexivity. Qed.

Lemma sharpe_ratio_short_example :
  @sharpe_ratio simple_math [(0%Z, 0.02)] 0 = NaN.
Proof.
  apply (@sharpe_ratio_short_series simple_math);
    [exact simple_sqrt_nan | simpl; lia].
Defined.

Lemma cumprod_from_dates (l : Series Q) (acc : Q) :
  map fst (cumprod_from acc l) = map fst l.
Proof.
  revert acc. induction l as [|[d r] l IH]; intros acc; simpl;
    [reflexivity|]. now rewrite IH.
Qed.

Lemma cumprod1p_dates (l : Series Q) : map fst (cumprod1p l) = map fst l.
Proof.
  destruct l as [|[d r] l]; simpl; [reflexivity|].
  now rewrite cumprod_from_dates.
Qed.

Lemma last_date {A} (l : list (date * A)) (d : date) (a : A) :
  fst (List.last l (d, a)) = List.last (map fst l) d.
Proof.
  induction l as [|x l IH]; [reflexivity|].
  destruct l as [|y l]; [reflexivity|]. exact IH.
Qed.

Lemma years_zero (dn d0 : Z) :
  Qeq_bool (inject_Z (dn - d0) / 365.25) 0 = true <-> dn = d0.
Proof.
  rewrite Qeq_bool_iff. split.
  - intros E.
    assert (E' : inject_Z (dn - d0) == 0).
    { assert (S : inject_Z (dn - d0)
                  == inject_Z (dn - d0) / 365.25 * 365.25) by field.
      rewrite S, E. ring. }
    unfold Qeq in E'. simpl in E'. lia.
  - intros ->. rewrite Z.sub_diag. reflexivity.
Qed.

Lemma max_drawdown_nonempty (x : date * Q) (l : Series Q) :
  exists m, max_drawdown (x :: l) = Ok m.
Proof. destruct x as [d v]. eexists. reflexivity. Qed.

Lemma portfolio_metrics_cases `{NumpyMath}
    (portfolio_rets : Series Q) (start_value risk_free : Q) :
  match portfolio_rets with
  | [] =>
      portfolio_metrics_from_returns portfolio_rets start_value risk_free
      = Raise IndexError
  | (d0, _) :: _ =>
      (List.last (map fst portfolio_rets) d0 = d0 ->
       portfolio_metrics_from_returns portfolio_rets start_value risk_free
       = Raise ZeroDivisionError) /\
      (List.last (map fst portfolio_rets) d0 <> d0 ->
       exists m,
         portfolio_metrics_from_returns portfolio_rets start_value risk_free
         = Ok m)
  end.
Proof.
  destruct portfolio_rets as [|[d0 r0] rest]; [reflexivity|].
  unfold portfolio_metrics_from_returns.
  assert (Hdates : map fst (map (fun dv : date * Q =>
                                   (fst dv, snd dv * start_value))
                                (cumprod1p ((d0, r0) :: rest)))
                   = map fst ((d0, r0) :: rest)).
  { rewrite map_map. simpl map at 1.
    rewrite <- (cumprod1p_dates ((d0, r0) :: rest)). reflexivity. }
  revert Hdates.
  generalize (map (fun dv : date * Q => (fst dv, snd dv * start_value))
                  (cumprod1p ((d0, r0) :: rest))).
  intros [|[e0 v0] vs] Hdates; [discriminate|].
  assert (He0 : e0 = d0) by (simpl in Hdates; congruence).
  subst e0.
  unfold cagr_from_value_series.
  destruct (List.last ((d0, v0) :: vs) (d0, v0)) as [dn vn] eqn:El.
  assert (Hdn : dn = List.last (map fst ((d0, r0) :: rest)) d0).
  { rewrite <- Hdates, <- (last_date _ d0 v0), El. reflexivity. }
  rewrite <- Hdn. split; intros Hd.
  - apply years_zero in Hd. rewrite Hd. reflexivity.
  - destruct (Qeq_bool (inject_Z (dn - d0) / 365.25) 0) eqn:E.
    + apply years_zero in E. contradiction.
    + unfold bind at 1.
      destruct (max_drawdown_nonempty (d0, v0) vs) as [m Hm].
      rewrite Hm. simpl. eexists. reflexivity.
Qed.

(** X6: [portfolio_metrics_from_returns] needs a series that spans two
    different dates: it raises IndexError on an empty series,
    ZeroDivisionError when the first and the last date coincide (a single
    observation, for one), and returns the four metrics in every other case.
    *)
Theorem portfolio_metrics_needs_two_dates `{NumpyMath}
    (portfolio_rets : Series Q) (start_value risk_free : Q) :
  match portfolio_rets with
  | [] =>
      portfolio_metrics_from_returns portfolio_rets start_value risk_free
      = Raise IndexError
  | (d0, _) :: _ =>
      (List.last (map fst portfolio_rets) d0 = d0 ->
       portfolio_metrics_from_returns portfolio_rets start_value risk_free
       = Raise ZeroDivisionError) /\
      (List.last (map fst portfolio_rets) d0 <> d0 ->
       exists m,
         portfolio_metrics_from_returns portfolio_rets start_value risk_free
         = Ok m)
  end.
Proof. apply portfolio_metrics_cases. Qed.

Lemma portfolio_metrics_single_observation :
  @portfolio_metrics_from_returns simple_math [(7%Z, 0.01)] 1 0
  = Raise ZeroDivisionError.
Proof.
  exact (proj1 (@portfolio_metrics_needs_two_dates simple_math
                  [(7%Z, 0.01)] 1 0) eq_refl).
Defined.

(** * Further properties of the portfolio return series *)

Lemma index_of_None (a : string) (l : list string) :
  ~ In a l -> index_of a l = None.
Proof.
  induction l as [|b l IH]; simpl; [reflexivity|]. intros Hnin.
  destruct (decide (a = b)) as [->|Hne]; [tauto|].
  rewrite IH; [reflexivity | tauto].
Qed.

Lemma result_mapM_raise {A B} (f : A -> result B) (l : list A) (x : A)
    (e : exn) :
  In x l -> f x = Raise e ->
  (forall y e', f y = Raise e' -> e' = e) ->
  result_mapM f l = Raise e.
Proof.
  intros Hin Hx Honly. induction l as [|a l IH]; [destruct Hin|].
  simpl. destruct (f a) as [b|e'] eqn:Ea; simpl.
  - destruct Hin as [->|Hin]; [congruence|]. now rewrite IH.
  - f_equal. eapply Honly; eassumption.
Qed.

(** X7: A weight on an asset the returns matrix does not have raises KeyError.
    *)
Theorem portfolio_return_series_unknown_asset (returns : DataFrame Q)
    (weights : list (string * Q)) (c : string) :
  In c (map fst weights) -> ~ In c (columns returns) ->
  portfolio_return_series returns weights = Raise KeyError.
Proof.
  intros Hin Hnin. unfold portfolio_return_series.
  rewrite (result_mapM_raise _ _ c KeyError Hin); [reflexivity | |].
  - now rewrite index_of_None.
  - intros y e'. destruct (index_of y (columns returns)); congruence.
Qed.

Lemma portfolio_return_series_unknown_example :
  portfolio_return_series example_returns
    [("A"%string, 0.5); ("C"%string, 0.5)] = Raise KeyError.
Proof.
  apply (portfolio_return_series_unknown_asset _ _ "C"%string).
  - right. left. reflexivity.
  - simpl. intros [E|[E|[]]]; discriminate.
Defined.

Lemma index_of_app_fresh (a : string) (pre suf : list string) :
  ~ In a pre -> index_of a (pre ++ a :: suf) = Some (length pre).
Proof.
  induction pre as [|b pre IH]; simpl; intros Hnin.
  - destruct (decide (a = a)); [reflexivity | congruence].
  - destruct (decide (a = b)) as [->|Hne]; [tauto|].
    rewrite IH; [reflexivity | tauto].
Qed.

Lemma result_mapM_index_of (pre suf : list string) :
  List.NoDup (pre ++ suf) ->
  result_mapM (fun c => match index_of c (pre ++ suf) with
                        | Some i => Ok i
                        | None => Raise KeyError
                        end) suf
  = Ok (seq (length pre) (length suf)).
Proof.
  revert pre. induction suf as [|a suf IH]; intros pre Hnd; [reflexivity|].
  simpl. rewrite index_of_app_fresh.
  - simpl. replace (pre ++ a :: suf) with ((pre ++ [a]) ++ suf) in *
      by (rewrite <- app_assoc; reflexivity).
    rewrite (IH (pre ++ [a]) Hnd). simpl.
    rewrite length_app. simpl. now rewrite Nat.add_1_r.
  - apply List.NoDup_remove_2 in Hnd. intros F. apply Hnd.
    apply List.in_or_app. now left.
Qed.

Lemma map_nth_seq {A} (d : A) (row : list A) :
  map (fun i => nth i row d) (seq 0 (length row)) = row.
Proof.
  induction row as [|x row IH]; [reflexivity|].
  simpl. f_equal. rewrite <- seq_shift, map_map. exact IH.
Qed.

(** X8: With one weight per column, in column order, the portfolio return at
    every date is the dot product of that date's row with the weights, and the
    dates are those of the returns matrix. *)
Theorem portfolio_return_series_dot (returns : DataFrame Q) (w : list Q) :
  NoDup (columns returns) -> rectangular returns ->
  length w = length (columns returns) ->
  portfolio_return_series returns (zip (columns returns) w)
  = Ok (map (fun r => (fst r, Qsum (map2 Qmult (snd r) w))) (rows returns)).
Proof.
  intros Hnd Hrect Hlen. unfold portfolio_return_series.
  rewrite fst_zip_eq, snd_zip_eq by exact Hlen.
  pose proof (result_mapM_index_of [] (columns returns)) as Hidx.
  simpl in Hidx. rewrite Hidx by now apply NoDup_ListNoDup.
  simpl. f_equal. apply map_ext_in. intros r Hr. f_equal. f_equal. f_equal.
  apply list_elem_of_In in Hr.
  rewrite <- (proj1 (Forall_forall _ _) Hrect r Hr).
  apply map_nth_seq.
Qed.

Lemma portfolio_return_series_example :
  portfolio_return_series example_returns
    (zip (columns example_returns) [0.6; 0.4])
  = Ok (map (fun r => (fst r, Qsum (map2 Qmult (snd r) [0.6; 0.4])))
            (rows example_returns)).
Proof.
  apply portfolio_return_series_dot;
    [compute_done | repeat constructor | reflexivity].
Defined.

(** * Further properties of buy and hold *)

Lemma Forall2_Qeq_sym (v t : list Q) : Forall2 Qeq v t -> Forall2 Qeq t v.
Proof. induction 1; constructor; auto. now symmetry. Qed.

Lemma Forall2_Qeq_trans (u v t : list Q) :
  Forall2 Qeq u v -> Forall2 Qeq v t -> Forall2 Qeq u t.
Proof.
  intros Huv. revert t. induction Huv as [|x y u v Hxy Huv IH]; intros t Hvt;
    inversion Hvt; subst; constructor; [|now apply IH].
  etransitivity; eassumption.
Qed.

Lemma nonneg_proper (v t : list Q) :
  Forall2 Qeq v t -> Forall (fun x => 0 <= x) t -> Forall (fun x => 0 <= x) v.
Proof.
  induction 1 as [|x y v t Hxy Hvt IH]; intros Ht; [constructor|].
  inversion Ht; subst. constructor; [lra | auto].
Qed.

Lemma nonneg_le_sum (v : list Q) :
  Forall (fun x => 0 <= x) v -> Forall (fun x => x <= Qsum v) v.
Proof.
  induction 1 as [|x v Hx Hv IH]; [constructor|].
  pose proof (Qsum_nonneg v Hv) as Hs.
  change (Qsum (x :: v)) with (x + Qsum v).
  constructor; [lra|]. eapply Forall_impl; [exact IH|].
  intros y Hy. cbv beta in *. lra.
Qed.

(** Normalizing a non-negative vector with a positive total gives proper
    weights. *)
Lemma normalize_row_proper_weights (v : list Q) :
  Forall (fun x => 0 <= x) v -> 0 < Qsum v -> proper_weights (normalize_row v).
Proof.
  intros Hnn Hpos. split; [apply normalize_row_sum; lra|].
  rewrite normalize_row_Fin by lra. apply Forall_map.
  pose proof (nonneg_le_sum v Hnn) as Hle.
  revert Hle. generalize (Qsum v) Hpos. clear Hpos. intros s Hs.
  induction Hnn as [|x v Hx Hv IH]; intros Hle; [constructor|].
  inversion Hle; subst. constructor; [|now apply IH].
  exists (x / s). split; [reflexivity|]. split.
  - apply Qle_shift_div_l; lra.
  - apply Qle_shift_div_r; lra.
Qed.

Lemma cumprod_rows_from_healthy (n : nat) (l : list (date * list Q))
    (v : list Q) :
  healthy n v -> ordinary_rows n l ->
  Forall (fun dv => healthy n (snd dv)) (cumprod_rows_from v l).
Proof.
  intros Hv Hl. revert v Hv.
  induction Hl as [|[d row] l [Hlen Hrow] Hl IH]; intros v Hv; simpl;
    [constructor|].
  assert (Hv' : healthy n (map2 (fun a x => a * (1 + x)) v row)).
  { destruct Hv as (Hnn & Hs & Hn). simpl in *. repeat split.
    - now apply step_nonneg.
    - apply step_sum_pos; auto. congruence.
    - rewrite map2_length_eq; congruence. }
  constructor; [exact Hv' | now apply IH].
Qed.

(** X9: With non-negative initial weights of positive total and no return of
    -100% or worse, every row of the buy-and-hold path is a proper weight
    vector: entries in [0,1] summing to 1. *)
Theorem buy_and_hold_weights_proper (returns : DataFrame Q)
    (init_weights : gmap string Q) :
  Forall (fun x => 0 <= x) (weight_vector (columns returns) init_weights) ->
  0 < Qsum (weight_vector (columns returns) init_weights) ->
  ordinary_rows (length (columns returns)) (rows returns) ->
  Forall (fun dw => proper_weights (snd dw))
         (rows (weights_over_time_buy_and_hold returns init_weights)).
Proof.
  intros Hnn Hpos Hrows.
  assert (Htr : Forall (fun dv => healthy (length (columns returns)) (snd dv))
                       (tracked_values returns init_weights)).
  { apply cumprod_rows_from_healthy; [|exact Hrows].
    repeat split; auto. apply weight_vector_length. }
  pose proof (buy_and_hold_values_tracked returns init_weights) as Hrel.
  unfold weights_over_time_buy_and_hold. cbn [rows].
  revert Htr Hrel. generalize (tracked_values returns init_weights).
  generalize (buy_and_hold_values returns init_weights).
  intros vals tr Htr Hrel.
  induction Hrel as [|[d v] [d' t] vals tr [Hd Hv] Hrel IH]; simpl;
    [constructor|].
  inversion Htr as [|? ? (Hnn' & Hs' & _) Htr']; subst. simpl in *.
  constructor; [|now apply IH]. simpl.
  apply normalize_row_proper_weights.
  - eapply nonneg_proper; eassumption.
  - rewrite (Qsum_proper v t Hv). exact Hs'.
Qed.

Lemma buy_and_hold_weights_proper_example :
  Forall (fun dw => proper_weights (snd dw))
         (rows (weights_over_time_buy_and_hold example_returns
                  example_weights)).
Proof.
  apply buy_and_hold_weights_proper; by_evaluation.
Defined.

Lemma flat_step (v w0 row : list Q) :
  Forall2 Qeq v w0 -> length row = length v ->
  Forall (fun x => x == 0) row ->
  Forall2 Qeq (map2 (fun a x => a * (1 + x)) v row) w0.
Proof.
  intros Hv. revert row. induction Hv as [|a b v w0 Hab Hv IH];
    intros [|x row] Hlen Hrow; simpl in *; try discriminate; constructor.
  - inversion Hrow; subst. match goal with E : x == 0 |- _ => rewrite E end.
    rewrite Hab. ring.
  - inversion Hrow; subst. apply IH; auto.
Qed.

Lemma Forall2_Qeq_length (v t : list Q) :
  Forall2 Qeq v t -> length v = length t.
Proof. induction 1; simpl; auto. Qed.

Lemma cumprod_rows_from_flat (w0 : list Q) (l : list (date * list Q))
    (v : list Q) :
  Forall2 Qeq v w0 -> flat_rows (length w0) l ->
  Forall (fun dv => Forall2 Qeq (snd dv) w0) (cumprod_rows_from v l).
Proof.
  intros Hv Hl. revert v Hv.
  induction Hl as [|[d row] l [Hlen Hrow] Hl IH]; intros v Hv; simpl;
    [constructor|].
  assert (Hv' : Forall2 Qeq (map2 (fun a x => a * (1 + x)) v row) w0).
  { apply flat_step; auto. simpl in Hlen.
    rewrite Hlen. symmetry. now apply Forall2_Qeq_length. }
  constructor; [exact Hv' | now apply IH].
Qed.

(** X10: When no asset ever moves, the buy-and-hold weights stay, at every
    date, at the normalized initial weights. *)
Theorem buy_and_hold_flat_returns (returns : DataFrame Q)
    (init_weights : gmap string Q) :
  flat_rows (length (columns returns)) (rows returns) ->
  Forall (fun dw =>
            Forall2 feq (snd dw)
                    (normalize_row
                       (weight_vector (columns returns) init_weights)))
         (rows (weights_over_time_buy_and_hold returns init_weights)).
Proof.
  intros Hflat.
  set (w0 := weight_vector (columns returns) init_weights).
  assert (Htr : Forall (fun dv => Forall2 Qeq (snd dv) w0)
                       (tracked_values returns init_weights)).
  { apply cumprod_rows_from_flat.
    - fold w0. clear. induction w0; constructor; auto. reflexivity.
    - unfold w0. rewrite weight_vector_length. exact Hflat. }
  pose proof (buy_and_hold_values_tracked returns init_weights) as Hrel.
  unfold weights_over_time_buy_and_hold. cbn [rows].
  revert Htr Hrel. generalize (tracked_values returns init_weights).
  generalize (buy_and_hold_values returns init_weights).
  intros vals tr Htr Hrel.
  induction Hrel as [|[d v] [d' t] vals tr [Hd Hv] Hrel IH]; simpl;
    [constructor|].
  inversion Htr as [|? ? Ht Htr']; subst. simpl in *.
  constructor; [|now apply IH]. simpl.
  apply normalize_row_proper. eapply Forall2_Qeq_trans; eassumption.
Qed.

Lemma buy_and_hold_flat_example :
  Forall (fun dw =>
            Forall2 feq (snd dw)
                    (normalize_row
                       (weight_vector (columns flat_returns)
                                      leveraged_weights)))
         (rows (weights_over_time_buy_and_hold flat_returns
                  leveraged_weights)).
Proof.
  apply buy_and_hold_flat_returns. by_evaluation.
Defined.

(** * Further properties of periodic rebalancing *)

Lemma expected_turnovers_keys (target : list Q)
    (gs : list (list (date * list Q))) (v : list Q) :
  map fst (expected_turnovers target v gs) = end_dates gs.
Proof.
  revert v. induction gs as [|g gs IH]; intros v; [reflexivity|].
  destruct g as [|r0 g]; simpl; [apply IH|]. f_equal. apply IH.
Qed.

Lemma end_dates_in_groups (gs : list (list (date * list Q))) (d : date) :
  In d (end_dates gs) -> exists g r, In g gs /\ In r g /\ fst r = d.
Proof.
  induction gs as [|g gs IH]; [intros []|].
  destruct g as [|r0 g].
  - intros Hin. destruct (IH Hin) as (g' & r & Hg & Hr & E).
    exists g', r. split; [right; exact Hg | auto].
  - intros [E|Hin].
    + exists (r0 :: g), (List.last (r0 :: g) r0). split; [left; reflexivity|].
      split; [|exact E].
      destruct (exists_last (l := r0 :: g)) as (g' & rl & E');
        [discriminate|].
      rewrite E', last_last. apply List.in_or_app. right. left. reflexivity.
    + destruct (IH Hin) as (g' & r & Hg & Hr & E).
      exists g', r. split; [right; exact Hg | auto].
Qed.

(** X11: On a frequency pandas accepts and a frame with at least one column,
    the turnover record has one entry per period that has dates, keyed by
    the period's last date: the keys are pairwise different dates of the
    returns matrix, in period order. *)
Theorem simulate_rebalancing_turnover_dates `{PandasGrouper}
    (returns : DataFrame Q) (target_weights : gmap string Q) (freq : string) :
  valid_freq freq = true ->
  columns returns <> [] ->
  exists weights_df turnovers,
    simulate_rebalancing returns target_weights freq
    = Ok (weights_df, turnovers) /\
    map fst turnovers = end_dates (groupby freq returns) /\
    List.NoDup (map fst turnovers) /\
    (forall d, In d (map fst turnovers) -> In d (index returns)) /\
    (length turnovers <= length (rows returns))%nat.
Proof.
  intros Hfreq Hcols.
  destruct (simulate_rebalancing_returns returns target_weights freq Hfreq)
    as (tbl & turnovers & Hrun & _ & Hkeys).
  specialize (Hkeys Hcols).
  eexists _, _. split; [exact Hrun|]. rewrite Hkeys.
  assert (Hsub : forall d, In d (end_dates (groupby freq returns)) ->
                           In d (index returns)).
  { intros d Hd. apply end_dates_in_groups in Hd.
    destruct Hd as (g & r & Hg & Hr & <-).
    apply List.in_map. eapply groupby_rows; eassumption. }
  pose proof (groupby_end_dates_NoDup freq returns) as Hnd.
  split; [reflexivity|]. split; [exact Hnd|]. split; [exact Hsub|].
  rewrite <- (length_map fst), Hkeys.
  unfold index in Hsub. rewrite <- (length_map fst (rows returns)).
  apply List.NoDup_incl_length; [exact Hnd | exact Hsub].
Qed.

Lemma simulate_rebalancing_turnover_dates_example :
  exists weights_df turnovers,
    @simulate_rebalancing thirty_day_calendar example_returns example_weights
                          "M"
    = Ok (weights_df, turnovers) /\
    map fst turnovers
    = end_dates (@groupby thirty_day_calendar "M" example_returns) /\
    List.NoDup (map fst turnovers) /\
    (forall d, In d (map fst turnovers) -> In d (index example_returns)) /\
    (length turnovers <= length (rows example_returns))%nat.
Proof.
  apply (@simulate_rebalancing_turnover_dates thirty_day_calendar
           example_returns example_weights "M");
    [reflexivity | discriminate].
Defined.

(** Weights that sum to 1 are weights of at least one asset. *)
Lemma weights_sum_columns (assets : list string) (w : gmap string Q) :
  Qsum (weight_vector assets w) == 1 -> assets <> [].
Proof. intros Hs ->. vm_compute in Hs. discriminate. Qed.

Lemma flat_compound (target : list Q) (g : list (date * list Q))
    (v : list Q) :
  Forall2 Qeq v target -> flat_rows (length target) g ->
  Forall2 Qeq (compound v g) target.
Proof.
  intros Hv Hg. revert v Hv. unfold compound.
  induction Hg as [|[d row] g [Hlen Hrow] Hg IH]; intros v Hv; simpl;
    [exact Hv|].
  apply IH. apply flat_step; auto. simpl in Hlen. rewrite Hlen. symmetry.
  now apply Forall2_Qeq_length.
Qed.

Lemma abs_diff_zero (target v : list Q) (s : Q) :
  Forall2 Qeq v target -> s == 1 ->
  Qsum (map Qabs (map2 Qminus target (map (fun x => x / s) v))) == 0.
Proof.
  intros Hv Hs. induction Hv as [|a b v target Hab Hv IH]; [reflexivity|].
  change (Qsum (map Qabs (map2 Qminus (b :: target)
                                (map (fun x => x / s) (a :: v)))))
    with (Qabs (b - a / s)
          + Qsum (map Qabs (map2 Qminus target (map (fun x => x / s) v)))).
  rewrite IH.
  assert (E : b - a / s == 0) by (rewrite Hab, Hs; field).
  rewrite (Qabs_wd _ _ E). reflexivity.
Qed.

Lemma expected_turnovers_flat (target : list Q)
    (gs : list (list (date * list Q))) (v : list Q) :
  Qsum target == 1 -> Forall2 Qeq v target ->
  Forall (flat_rows (length target)) gs ->
  Forall (fun dt => feq (snd dt) (Fin 0)) (expected_turnovers target v gs).
Proof.
  intros Hsum Hv Hgs. revert v Hv.
  induction Hgs as [|g gs Hg Hgs IH]; intros v Hv; [constructor|].
  destruct g as [|r0 g]; [now apply IH|].
  pose proof (flat_compound target (r0 :: g) v Hv Hg) as Hc.
  assert (Hs : Qsum (compound v (r0 :: g)) == 1)
    by (rewrite (Qsum_proper _ _ Hc); exact Hsum).
  cbn [expected_turnovers]. constructor.
  - cbn [snd]. rewrite turnover_Fin by (rewrite Hs; discriminate).
    simpl feq. rewrite (abs_diff_zero target _ _ Hc Hs). reflexivity.
  - apply IH. clear - Hs. induction target as [|t target IHt];
      constructor; [|exact IHt]. rewrite Hs. ring.
Qed.

Lemma groupby_Forall `{PandasGrouper} (freq : string) (returns : DataFrame Q)
    (P : date * list Q -> Prop) :
  Forall P (rows returns) -> Forall (Forall P) (groupby freq returns).
Proof.
  intros HP. apply Forall_forall. intros g Hg. apply Forall_forall.
  intros r Hr. apply list_elem_of_In in Hg, Hr.
  pose proof (groupby_rows freq returns g r Hg Hr) as Hin.
  apply list_elem_of_In in Hin.
  exact (proj1 (Forall_forall _ _) HP r Hin).
Qed.

(** X12: On a frequency pandas accepts, with distinct dates: when no asset
    ever moves and the target weights sum to 1, the weights never leave the
    target and every recorded turnover is 0. *)
Theorem simulate_rebalancing_flat_returns `{PandasGrouper}
    (returns : DataFrame Q) (target_weights : gmap string Q) (freq : string) :
  valid_freq freq = true ->
  NoDup (index returns) ->
  flat_rows (length (columns returns)) (rows returns) ->
  Qsum (weight_vector (columns returns) target_weights) == 1 ->
  exists weights_df turnovers,
    simulate_rebalancing returns target_weights freq
    = Ok (weights_df, turnovers) /\
    Forall (fun dt => feq (snd dt) (Fin 0)) turnovers.
Proof.
  intros Hfreq Hdist Hflat Hsum.
  destruct (simulate_rebalancing_run returns target_weights freq Hfreq
              (weights_sum_columns _ _ Hsum)
              (proj1 (NoDup_ListNoDup _) Hdist))
    as (tbl & Hrun & _).
  eexists _, _. split; [exact Hrun|].
  apply expected_turnovers_flat; [exact Hsum | |].
  - generalize (weight_vector (columns returns) target_weights).
    intros l. induction l; constructor; auto. reflexivity.
  - rewrite weight_vector_length. now apply groupby_Forall.
Qed.

Lemma simulate_rebalancing_flat_example :
  exists weights_df turnovers,
    @simulate_rebalancing thirty_day_calendar flat_returns equal_weights "M"
    = Ok (weights_df, turnovers) /\
    Forall (fun dt => feq (snd dt) (Fin 0)) turnovers.
Proof.
  apply simulate_rebalancing_flat_returns;
    [reflexivity | compute_done | by_evaluation | by_evaluation].
Defined.

Lemma table_ok_impl (P P' : date -> Prop) (tbl : list (date * list pyfloat)) :
  (forall d, P' d -> P d) -> table_ok P tbl -> table_ok P' tbl.
Proof.
  intros Himp Hok. unfold table_ok in *. eapply Forall_impl; [exact Hok|].
  intros dr H HP'. cbv beta in *. auto.
Qed.

Lemma loc_set_ok (P : date -> Prop) (d : date) (row : list pyfloat)
    (tbl : list (date * list pyfloat)) :
  proper_weights row -> table_ok P tbl ->
  table_ok (fun d' => d' = d \/ P d') (loc_set d row tbl).
Proof.
  intros Hrow Hok. unfold table_ok, loc_set in *. apply Forall_map.
  eapply Forall_impl; [exact Hok|]. intros [d' r] H. cbv beta in *.
  cbn [fst snd] in *. destruct (Z.eqb d' d) eqn:E; cbn [fst snd].
  - intros _. exact Hrow.
  - intros [->|HP]; [rewrite Z.eqb_refl in E; discriminate | auto].
Qed.

Lemma step_healthy (n : nat) (v row : list Q) :
  healthy n v -> length row = n -> Forall (fun x => -1 < x) row ->
  healthy n (map2 (fun a x => a * (1 + x)) v row).
Proof.
  intros (Hnn & Hs & Hn) Hlen Hrow. repeat split.
  - now apply step_nonneg.
  - apply step_sum_pos; auto. congruence.
  - rewrite map2_length_eq; congruence.
Qed.

Lemma fold_step_date_ok (n : nat) (g : list (date * list Q))
    (P : date -> Prop) (st : sim_state) :
  healthy n (sim_values st) -> ordinary_rows n g ->
  table_ok P (sim_weights st) ->
  healthy n (sim_values (fold_left step_date g st)) /\
  table_ok (fun d => In d (map fst g) \/ P d)
           (sim_weights (fold_left step_date g st)).
Proof.
  intros Hv Hg. revert P st Hv.
  induction Hg as [|[d row] g [Hlen Hrow] Hg IH]; intros P st Hv Hok.
  - simpl. split; [exact Hv|]. eapply table_ok_impl; [|exact Hok].
    intros d [[]|HP]; exact HP.
  - cbn [fold_left]. cbn [snd] in Hlen, Hrow.
    assert (Hv' : healthy n (sim_values (step_date st (d, row))))
      by (simpl; now apply step_healthy).
    destruct (IH (fun d' => d' = d \/ P d') (step_date st (d, row)) Hv')
      as [Hh Ht].
    + simpl. apply loc_set_ok; [|exact Hok].
      destruct Hv' as (Hnn & Hs & _). simpl in Hnn, Hs.
      now apply normalize_row_proper_weights.
    + split; [exact Hh|]. eapply table_ok_impl; [|exact Ht].
      intros d' [[<-|Hin]|HP]; simpl; tauto.
Qed.

Lemma step_period_ok (assets : list string) (target : list Q)
    (g : list (date * list Q)) (P : date -> Prop) (st st' : sim_state) :
  assets <> [] ->
  Forall (fun x => 0 <= x) target -> Qsum target == 1 ->
  healthy (length target) (sim_values st) ->
  ordinary_rows (length target) g ->
  table_ok P (sim_weights st) ->
  step_period assets target st g = Ok st' ->
  healthy (length target) (sim_values st') /\
  table_ok (fun d => In d (map fst g) \/ P d) (sim_weights st').
Proof.
  intros Ha Ht Hsum Hv Hg Hok Hstep.
  destruct assets as [|a assets]; [congruence|].
  destruct g as [|r0 g].
  - simpl in Hstep. inversion Hstep; subst. split; [exact Hv|].
    eapply table_ok_impl; [|exact Hok]. intros d [[]|HP]; exact HP.
  - destruct (fold_step_date_ok _ (r0 :: g) P st Hv Hg Hok) as [Hh Htab].
    unfold step_period in Hstep.
    destruct (loc_get _ _) as [pre|e]; [|discriminate].
    simpl in Hstep. inversion Hstep; subst. cbn [sim_values sim_weights].
    split; [|exact Htab].
    apply rebalance_healthy; auto. now destruct Hh as (_ & Hpos & _).
Qed.

Lemma run_periods_ok (assets : list string) (target : list Q)
    (gs : list (list (date * list Q))) (P : date -> Prop)
    (st st' : sim_state) :
  assets <> [] ->
  Forall (fun x => 0 <= x) target -> Qsum target == 1 ->
  healthy (length target) (sim_values st) ->
  Forall (ordinary_rows (length target)) gs ->
  table_ok P (sim_weights st) ->
  run_periods assets target st gs = Ok st' ->
  table_ok (fun d => (exists g, In g gs /\ In d (map fst g)) \/ P d)
           (sim_weights st').
Proof.
  intros Ha Ht Hsum Hv Hgs. revert P st Hv.
  induction Hgs as [|g gs Hg Hgs IH]; intros P st Hv Hok Hrun.
  - simpl in Hrun. inversion Hrun; subst.
    eapply table_ok_impl; [|exact Hok]. intros d [(g & [] & _)|HP]; exact HP.
  - cbn [run_periods] in Hrun.
    destruct (step_period assets target st g) as [st1|e] eqn:Hstep;
      [|discriminate].
    simpl in Hrun.
    destruct (step_period_ok assets target g P st st1 Ha Ht Hsum Hv Hg Hok
                Hstep)
      as [Hv1 Hok1].
    pose proof (IH _ st1 Hv1 Hok1 Hrun) as Hfin.
    eapply table_ok_impl; [|exact Hfin].
    intros d [(g' & [<-|Hg'] & Hd)|HP].
    + right. left. exact Hd.
    + left. exists g'. split; assumption.
    + right. right. exact HP.
Qed.

Lemma Zlist_min_le (d : Z) (l : list Z) (k : Z) :
  In k l -> (Zlist_min d l <= k)%Z.
Proof.
  induction l as [|x l IH]; [intros []|]. simpl. intros [->|Hin]; [lia|].
  specialize (IH Hin). lia.
Qed.

Lemma Zlist_max_ge (d : Z) (l : list Z) (k : Z) :
  In k l -> (k <= Zlist_max d l)%Z.
Proof.
  induction l as [|x l IH]; [intros []|]. simpl. intros [->|Hin]; [lia|].
  specialize (IH Hin). lia.
Qed.

(** Every row of the returns matrix belongs to one of the groups. *)
Lemma groupby_covers `{PandasGrouper} (freq : string) (returns : DataFrame Q)
    (r : date * list Q) :
  In r (rows returns) ->
  exists g, In g (groupby freq returns) /\ In r g.
Proof.
  intros Hr. unfold groupby.
  destruct (rows returns) as [|r0 l] eqn:E; [destruct Hr|].
  rewrite <- E in *.
  set (ps := map (fun r => period_of freq (fst r)) (rows returns)).
  assert (Hk : In (period_of freq (fst r)) ps).
  { unfold ps. apply (List.in_map (fun r => period_of freq (fst r))). exact Hr. }
  exists (period_group (period_of freq) (rows returns)
                       (period_of freq (fst r))).
  split.
  - apply List.in_map. apply list_elem_of_In, elem_of_seqZ.
    pose proof (Zlist_min_le (period_of freq (fst r0)) ps _ Hk).
    pose proof (Zlist_max_ge (period_of freq (fst r0)) ps _ Hk). lia.
  - unfold period_group. apply List.filter_In. split; [exact Hr|].
    apply Z.eqb_refl.
Qed.

(** X13: On a frequency pandas accepts, with non-negative target weights
    summing to 1 and no return of -100% or worse, the simulation leaves no
    placeholder row behind: every date of the returns matrix gets a row of
    proper weights (entries in [0,1] summing to 1). *)
Theorem simulate_rebalancing_weights_proper `{PandasGrouper}
    (returns : DataFrame Q) (target_weights : gmap string Q) (freq : string) :
  valid_freq freq = true ->
  Forall (fun x => 0 <= x) (weight_vector (columns returns) target_weights) ->
  Qsum (weight_vector (columns returns) target_weights) == 1 ->
  ordinary_rows (length (columns returns)) (rows returns) ->
  exists weights_df turnovers,
    simulate_rebalancing returns target_weights freq
    = Ok (weights_df, turnovers) /\
    index weights_df = index returns /\
    Forall (fun dw => proper_weights (snd dw)) (rows weights_df).
Proof.
  intros Hfreq Hnn Hsum Hrows.
  destruct (simulate_rebalancing_returns returns target_weights freq Hfreq)
    as (tbl & turnovers & Hrun & Hidx & _).
  eexists _, _. split; [exact Hrun|]. split; [exact Hidx|]. cbn [rows].
  unfold simulate_rebalancing in Hrun. rewrite Hfreq in Hrun.
  set (target := weight_vector (columns returns) target_weights) in *.
  destruct (run_periods (columns returns) target _ (groupby freq returns))
    as [st|e] eqn:Hr; [|discriminate].
  simpl in Hrun. inversion Hrun as [[Htbl Hturn]]. clear Hrun.
  assert (Hlen : length target = length (columns returns))
    by apply weight_vector_length.
  eapply (run_periods_ok (columns returns) target _ (fun _ => False)) in Hr;
    auto.
  - apply Forall_forall. intros [d row] Hin.
    pose proof (proj1 (Forall_forall _ _) Hr _ Hin) as Hrow.
    cbn [fst snd] in *. apply Hrow. left.
    assert (Hd : In d (index returns)).
    { rewrite <- Hidx, <- Htbl. apply list_elem_of_In in Hin.
      apply (List.in_map fst) in Hin. exact Hin. }
    unfold index in Hd. apply List.in_map_iff in Hd.
    destruct Hd as (r & <- & Hr').
    destruct (groupby_covers freq returns r Hr') as (g & Hg & Hrg).
    exists g. split; [exact Hg|]. now apply List.in_map.
  - exact (weights_sum_columns _ _ Hsum).
  - cbn [sim_values]. repeat split; auto. rewrite Hsum. reflexivity.
  - rewrite Hlen. now apply groupby_Forall.
  - cbn [sim_weights]. apply Forall_forall. intros dr _ [].
Qed.

Lemma simulate_rebalancing_weights_example :
  exists weights_df turnovers,
    @simulate_rebalancing thirty_day_calendar example_returns example_weights
                          "M"
    = Ok (weights_df, turnovers) /\
    index weights_df = index example_returns /\
    Forall (fun dw => proper_weights (snd dw)) (rows weights_df).
Proof.
  apply simulate_rebalancing_weights_proper; by_evaluation.
Defined.

Lemma loc_set_app (d : date) (row : list pyfloat)
    (t1 t2 : list (date * list pyfloat)) :
  loc_set d row (t1 ++ t2) = loc_set d row t1 ++ loc_set d row t2.
Proof. unfold loc_set. apply map_app. Qed.

(** On a table with distinct dates the inner loop fills the placeholder rows
    one by one with the normalized running values. *)
Lemma fold_step_date_table (n : nat) (l : list (date * list Q))
    (pre : list (date * list pyfloat)) (v : list Q)
    (t : list (date * pyfloat)) :
  List.NoDup (map fst pre ++ map fst l) ->
  sim_weights
    (fold_left step_date l
       (mkSim v (pre ++ map (fun r => (fst r, repeat NaN n)) l) t))
  = pre ++ map (fun dv => (fst dv, normalize_row (snd dv)))
               (cumprod_rows_from v l).
Proof.
  revert pre v. induction l as [|[d row] l IH]; intros pre v Hnd.
  - reflexivity.
  - cbn [fold_left map cumprod_rows_from fst snd].
    unfold step_date at 2. cbn [sim_values sim_weights sim_turnovers fst snd].
    set (v' := map2 (fun a x => a * (1 + x)) v row).
    assert (Hpre : ~ In d (map fst pre)).
    { intros F. cbn [map fst] in Hnd. apply List.NoDup_remove_2 in Hnd.
      apply Hnd. apply List.in_or_app. now left. }
    assert (Hl : ~ In d (map fst l)).
    { intros F. cbn [map fst] in Hnd. apply List.NoDup_remove_2 in Hnd.
      apply Hnd. apply List.in_or_app. now right. }
    rewrite loc_set_app, (loc_set_fresh d _ pre Hpre).
    assert (E : loc_set d (normalize_row v')
                  ((d, repeat NaN n)
                     :: map (fun r : date * list Q => (fst r, repeat NaN n)) l)
                = (d, normalize_row v')
                    :: map (fun r : date * list Q => (fst r, repeat NaN n)) l).
    { unfold loc_set at 1. cbn [map fst]. rewrite Z.eqb_refl. f_equal.
      apply loc_set_fresh. rewrite map_map. exact Hl. }
    rewrite E.
    change (pre ++ (d, normalize_row v') :: ?x)
      with (pre ++ [(d, normalize_row v')] ++ x).
    rewrite app_assoc, IH.
    + rewrite <- app_assoc. reflexivity.
    + rewrite map_app. cbn [map fst]. rewrite <- app_assoc. exact Hnd.
Qed.

Lemma last_nonempty_default {A} (x : A) (l : list A) (d d' : A) :
  List.last (x :: l) d = List.last (x :: l) d'.
Proof.
  revert x. induction l as [|y l IH]; intros x; [reflexivity|].
  change (List.last (x :: y :: l) d) with (List.last (y :: l) d).
  change (List.last (x :: y :: l) d') with (List.last (y :: l) d').
  apply IH.
Qed.

Lemma Zlist_min_const (p : Z) (l : list Z) :
  Forall (fun x => x = p) l -> Zlist_min p l = p.
Proof. induction 1 as [|x l -> _ IH]; simpl; [reflexivity|]. lia. Qed.

Lemma Zlist_max_const (p : Z) (l : list Z) :
  Forall (fun x => x = p) l -> Zlist_max p l = p.
Proof. induction 1 as [|x l -> _ IH]; simpl; [reflexivity|]. lia. Qed.

(** When every date falls in one period there is one group: the whole
    matrix. *)
Lemma groupby_one_period `{PandasGrouper} (freq : string)
    (returns : DataFrame Q) (p : Z) :
  rows returns <> [] ->
  Forall (fun r => period_of freq (fst r) = p) (rows returns) ->
  groupby freq returns = [rows returns].
Proof.
  intros Hne Hall. unfold groupby.
  destruct (rows returns) as [|r0 l] eqn:E; [congruence|].
  rewrite <- E in *.
  assert (Hp0 : period_of freq (fst r0) = p).
  { rewrite E in Hall. now inversion Hall. }
  assert (Hps : Forall (fun x => x = p)
                       (map (fun r => period_of freq (fst r)) (rows returns)))
    by now apply Forall_map.
  rewrite Hp0, (Zlist_min_const p _ Hps), (Zlist_max_const p _ Hps).
  replace (p - p + 1)%Z with 1%Z by lia.
  unfold seqZ. change (Z.to_nat 1) with 1%nat.
  change (map (period_group (period_of freq) (rows returns))
              ((fun i : nat => (Z.of_nat i + p)%Z) <$> seq 0 1))
    with [period_group (period_of freq) (rows returns) (Z.of_nat 0 + p)%Z].
  f_equal.
  replace (Z.of_nat 0 + p)%Z with p by lia.
  unfold period_group. clear - Hall.
  induction Hall as [|r l Hr Hl IH]; [reflexivity|].
  simpl. rewrite Hr, Z.eqb_refl. now f_equal.
Qed.

Lemma normalized_same_rows (vals tr : list (date * list Q)) :
  Forall2 (fun r1 r2 => fst r1 = fst r2 /\ Forall2 Qeq (snd r1) (snd r2))
          vals tr ->
  same_rows (map (fun dv => (fst dv, normalize_row (snd dv))) tr)
            (map (fun dv => (fst dv, normalize_row (snd dv))) vals).
Proof.
  induction 1 as [|[d v] [d' t] vals tr [Hd Hv] Hrel IH]; simpl;
    constructor; [|exact IH].
  simpl in *. split; [now symmetry|].
  apply normalize_row_proper. now apply Forall2_Qeq_sym.
Qed.

(** X14: Rebalancing composes with buy and hold: on a frequency pandas
    accepts, when the frame has at least one column and all its dates
    (distinct) fall in one period, nothing is traded before the last date,
    the weight path is the buy-and-hold path started at the target weights,
    and one turnover is recorded, at the last date. *)
Theorem simulate_rebalancing_single_period `{PandasGrouper}
    (returns : DataFrame Q) (target_weights : gmap string Q) (freq : string)
    (p : Z) :
  valid_freq freq = true ->
  columns returns <> [] ->
  rows returns <> [] ->
  NoDup (index returns) ->
  Forall (fun r => period_of freq (fst r) = p) (rows returns) ->
  exists weights_df t,
    simulate_rebalancing returns target_weights freq
    = Ok (weights_df, [(List.last (index returns) 0%Z, t)]) /\
    same_frame weights_df
               (weights_over_time_buy_and_hold returns target_weights).
Proof.
  intros Hfreq Hcols Hne Hnd Hall.
  unfold simulate_rebalancing. rewrite Hfreq.
  rewrite (groupby_one_period freq returns p Hne Hall).
  pose proof (buy_and_hold_values_tracked returns target_weights) as Hrel.
  unfold tracked_values in Hrel.
  unfold weights_over_time_buy_and_hold, same_frame. cbn [columns rows].
  revert Hrel. generalize (buy_and_hold_values returns target_weights).
  intros vals Hrel.
  set (target := weight_vector (columns returns) target_weights) in *.
  set (n := length (columns returns)).
  unfold index in *. revert Hnd Hrel.
  destruct (rows returns) as [|r0 l]; [congruence|]. intros Hnd Hrel.
  set (tbl0 := map (fun r : date * list Q => (fst r, repeat NaN n))
                   (r0 :: l)).
  assert (Hidx0 : map fst tbl0 = map fst (r0 :: l)).
  { unfold tbl0. now rewrite map_map. }
  assert (Hend : fst (List.last (r0 :: l) r0)
                 = List.last (map fst (r0 :: l)) 0%Z).
  { clear. destruct r0 as [d0 x0].
    rewrite (last_date _ d0 x0). cbn [map fst].
    apply last_nonempty_default. }
  assert (Hin : In (fst (List.last (r0 :: l) r0)) (map fst (r0 :: l))).
  { apply List.in_map, last_in. }
  cbn [run_periods].
  destruct (step_period_returns (columns returns) target
              (mkSim target tbl0 []) r0 l Hcols) as (t & Hstep).
  { cbn [sim_weights]. rewrite Hidx0. exact Hin. }
  rewrite Hstep.
  cbn [bind sim_turnovers dict_set sim_weights]. rewrite Hend.
  eexists _, _. split; [reflexivity|].
  split; [reflexivity|]. cbn [rows].
  pose proof (fold_step_date_table n (r0 :: l) [] target []) as Htab.
  cbn [app] in Htab. fold tbl0 in Htab. rewrite Htab.
  - now apply normalized_same_rows.
  - cbn [map app]. apply NoDup_ListNoDup. exact Hnd.
Qed.

Lemma simulate_rebalancing_single_period_example :
  exists weights_df t,
    @simulate_rebalancing thirty_day_calendar drift_returns equal_weights "M"
    = Ok (weights_df, [(List.last (index drift_returns) 0%Z, t)]) /\
    same_frame weights_df
               (weights_over_time_buy_and_hold drift_returns equal_weights).
Proof.
  apply (@simulate_rebalancing_single_period thirty_day_calendar
           drift_returns equal_weights "M" 0%Z).
  - reflexivity.
  - discriminate.
  - discriminate.
  - compute_done.
  - repeat constructor.
Defined.

(** * Further properties of the optimizers *)

Lemma clip01_nonneg (x : Q) : 0 <= clip01 x.
Proof.
  unfold clip01. apply Q.min_glb; [apply Q.le_max_r | discriminate].
Qed.

Lemma clip01_pos (x : Q) : 0 < x -> 0 < clip01 x.
Proof.
  intros Hx. unfold clip01.
  destruct (Q.min_spec (Qmax x 0) 1) as [[_ E]|[_ E]]; rewrite E;
    [|reflexivity].
  pose proof (Q.le_max_l x 0). lra.
Qed.

Lemma Qsum_pos (v : list Q) :
  v <> [] -> Forall (fun x => 0 < x) v -> 0 < Qsum v.
Proof.
  intros Hne Hv. destruct Hv as [|x v Hx Hv]; [congruence|].
  change (Qsum (x :: v)) with (x + Qsum v).
  assert (0 <= Qsum v); [|lra].
  apply Qsum_nonneg. eapply Forall_impl; [exact Hv|].
  intros y Hy. cbv beta in *. lra.
Qed.

(** What the two siblings return once the solver has produced an iterate
    with positive entries, one per asset. *)
Lemma clip_and_renormalize_proper (assets : list string)
    (res : OptimizeResult) :
  NoDup assets -> assets <> [] -> length (res_x res) = length assets ->
  Forall (fun x => 0 < x) (res_x res) ->
  exists d,
    returned (clip_and_renormalize assets (length assets) res) = Ok d /\
    map fst d = assets /\
    proper_weights (map snd d).
Proof.
  intros Hnd Hne Hlen Hpos. unfold clip_and_renormalize. cbn [returned].
  assert (Hl : length (normalize_row (map clip01 (res_x res)))
               = length assets).
  { unfold normalize_row. now rewrite !length_map. }
  rewrite weights_dict_zip by assumption.
  eexists. split; [reflexivity|]. split; [now apply fst_zip_eq|].
  rewrite snd_zip_eq by exact Hl.
  apply normalize_row_proper_weights.
  - apply Forall_map, Forall_forall. intros x _. apply clip01_nonneg.
  - apply Qsum_pos.
    + destruct (res_x res); [|discriminate].
      destruct assets; [congruence | discriminate].
    + apply Forall_map. eapply Forall_impl; [exact Hpos|].
      intros x Hx. now apply clip01_pos.
Qed.

Lemma solver_iterate_positive (solver : ScipyOptimize) :
  respects_bounds solver ->
  forall obj x0 method (lo hi : Q) (n : nat) cons opts,
    length x0 = n -> 0 < lo -> lo <= hi ->
    length (res_x (minimize obj x0 method (repeat (lo, hi) n) cons opts)) = n
    /\ Forall (fun x => 0 < x)
              (res_x (minimize obj x0 method (repeat (lo, hi) n) cons opts)).
Proof.
  intros Hsolver obj x0 method lo hi n cons opts Hlen Hlo Hle.
  destruct (solver_iterate_in_box solver Hsolver obj x0 method lo hi n cons
              opts Hlen Hle) as [Hl Hbox].
  split; [exact Hl|]. eapply Forall_impl; [exact Hbox|].
  intros x [H1 _]. cbv beta in *. lra.
Qed.

Lemma target_return_proper `{NumpyMath} (solver : ScipyOptimize)
    (returns : DataFrame Q) (target_annual_ret min_weight max_weight : Q) :
  respects_bounds solver ->
  NoDup (columns returns) -> columns returns <> [] ->
  0 < min_weight -> min_weight <= max_weight ->
  exists d,
    returned (recommend_weights_for_target_return returns target_annual_ret
                min_weight max_weight) = Ok d /\
    map fst d = columns returns /\ proper_weights (map snd d).
Proof.
  intros Hsolver Hnd Hne Hlo Hle.
  unfold recommend_weights_for_target_return.
  destruct (length (columns returns)) as [|m] eqn:En.
  { destruct (columns returns); [congruence | discriminate]. }
  rewrite <- En.
  match goal with
  | |- context [clip_and_renormalize _ _
                  (minimize ?o ?x ?mt (repeat (?lo, ?hi) ?n) ?c ?op)] =>
      destruct (solver_iterate_positive solver Hsolver o x mt lo hi n c op
                  ltac:(apply repeat_length) Hlo Hle) as [Hlen Hpos]
  end.
  now apply clip_and_renormalize_proper.
Qed.

Lemma max_vol_proper `{NumpyMath} (solver : ScipyOptimize)
    (returns : DataFrame Q) (max_annual_vol min_weight max_weight : Q) :
  respects_bounds solver ->
  NoDup (columns returns) -> columns returns <> [] ->
  0 < min_weight -> min_weight <= max_weight ->
  exists d,
    returned (recommend_weights_for_max_vol returns max_annual_vol
                min_weight max_weight) = Ok d /\
    map fst d = columns returns /\ proper_weights (map snd d).
Proof.
  intros Hsolver Hnd Hne Hlo Hle.
  unfold recommend_weights_for_max_vol.
  destruct (length (columns returns)) as [|m] eqn:En.
  { destruct (columns returns); [congruence | discriminate]. }
  rewrite <- En.
  match goal with
  | |- context [clip_and_renormalize _ _
                  (minimize ?o ?x ?mt (repeat (?lo, ?hi) ?n) ?c ?op)] =>
      destruct (solver_iterate_positive solver Hsolver o x mt lo hi n c op
                  ltac:(apply repeat_length) Hlo Hle) as [Hlen Hpos]
  end.
  now apply clip_and_renormalize_proper.
Qed.

(** X15: With distinct asset names, a positive lower bound and a solver that
    stays in the box, the two siblings always return one weight per asset,
    each in [0,1], summing to 1: feasible or not, converged or not. *)
Theorem recommend_weights_proper `{NumpyMath} (solver : ScipyOptimize)
    (returns : DataFrame Q)
    (target_annual_ret max_annual_vol min_weight max_weight : Q) :
  respects_bounds solver ->
  NoDup (columns returns) -> columns returns <> [] ->
  0 < min_weight -> min_weight <= max_weight ->
  (exists d,
      returned (recommend_weights_for_target_return returns target_annual_ret
                  min_weight max_weight) = Ok d /\
      map fst d = columns returns /\ proper_weights (map snd d)) /\
  (exists d,
      returned (recommend_weights_for_max_vol returns max_annual_vol
                  min_weight max_weight) = Ok d /\
      map fst d = columns returns /\ proper_weights (map snd d)).
Proof.
  intros. split; [now apply target_return_proper | now apply max_vol_proper].
Qed.

Lemma recommend_weights_proper_example :
  (exists d,
      returned (@recommend_weights_for_target_return projecting_solver
                  example_returns 0.05 0.1 0.3) = Ok d /\
      map fst d = columns example_returns /\ proper_weights (map snd d)) /\
  (exists d,
      returned (@recommend_weights_for_max_vol simple_math projecting_solver
                  example_returns 0.2 0.1 0.3) = Ok d /\
      map fst d = columns example_returns /\ proper_weights (map snd d)).
Proof.
  apply (@recommend_weights_proper simple_math projecting_solver
           example_returns 0.05 0.2 0.1 0.3
           projecting_solver_respects_bounds);
    [compute_done | discriminate | reflexivity | by_evaluation].
Defined.

Lemma Fin_cells (cells : list pyfloat) :
  Forall (fun c => exists w, c = Fin w /\ 0 <= w /\ w <= 1) cells ->
  exists ws, cells = map Fin ws.
Proof.
  induction 1 as [|c cells (w & -> & _) _ (ws & ->)]; [now exists []|].
  now exists (w :: ws).
Qed.

Lemma some_above_average (m : Q) (ws : list Q) :
  inject_Z (Z.of_nat (length ws)) * m < Qsum ws ->
  Exists (fun w => m < w) ws.
Proof.
  induction ws as [|w ws IH].
  - simpl. intros H. exfalso. revert H. apply Qle_not_lt.
    assert (E : inject_Z 0 * m == 0) by ring. rewrite E. lra.
  - intros Hlt. destruct (Qlt_le_dec m w) as [Hw|Hw]; [now left|].
    right. apply IH.
    change (Qsum (w :: ws)) with (w + Qsum ws) in Hlt.
    cbn [length] in Hlt. rewrite Nat2Z.inj_succ in Hlt. unfold Z.succ in Hlt.
    rewrite inject_Z_plus in Hlt.
    change (inject_Z 1) with 1 in Hlt. lra.
Qed.

Lemma proper_weights_exceed (d : list (string * pyfloat)) (m : Q) :
  proper_weights (map snd d) ->
  inject_Z (Z.of_nat (length d)) * m < 1 ->
  Exists (fun aw => exists w, snd aw = Fin w /\ m < w) d.
Proof.
  intros [Hsum Hcells] Hm.
  destruct (Fin_cells _ Hcells) as (ws & Hws).
  rewrite Hws, fsum_Fin in Hsum. simpl in Hsum.
  assert (Hlen : length ws = length d).
  { rewrite <- (length_map Fin ws), <- Hws. apply length_map. }
  assert (Hex : Exists (fun w => m < w) ws).
  { apply some_above_average. rewrite Hlen, Hsum. exact Hm. }
  clear Hsum Hcells Hm Hlen. revert ws Hws Hex.
  induction d as [|[a c] d IH]; intros [|w ws] Hws Hex; simpl in Hws;
    try discriminate; inversion Hex; subst.
  - left. exists w. split; [simpl; congruence | assumption].
  - right. apply (IH ws); [congruence | assumption].
Qed.

(** X16: The renormalization is applied after the bounds and can break them:
    when the box cannot hold a total weight of 1 ([n * max_weight < 1]), each
    sibling returns some weight above [max_weight]. *)
Theorem recommend_weights_exceed_max_weight `{NumpyMath}
    (solver : ScipyOptimize) (returns : DataFrame Q)
    (target_annual_ret max_annual_vol min_weight max_weight : Q) :
  respects_bounds solver ->
  NoDup (columns returns) -> columns returns <> [] ->
  0 < min_weight -> min_weight <= max_weight ->
  inject_Z (Z.of_nat (length (columns returns))) * max_weight < 1 ->
  (exists d,
      returned (recommend_weights_for_target_return returns target_annual_ret
                  min_weight max_weight) = Ok d /\
      Exists (fun aw => exists w, snd aw = Fin w /\ max_weight < w) d) /\
  (exists d,
      returned (recommend_weights_for_max_vol returns max_annual_vol
                  min_weight max_weight) = Ok d /\
      Exists (fun aw => exists w, snd aw = Fin w /\ max_weight < w) d).
Proof.
  intros Hsolver Hnd Hne Hlo Hle Hbox. split.
  - destruct (target_return_proper solver returns target_annual_ret
                min_weight max_weight Hsolver Hnd Hne Hlo Hle)
      as (d & Hd & Hk & Hp).
    exists d. split; [exact Hd|]. apply proper_weights_exceed; [exact Hp|].
    now rewrite <- (length_map fst), Hk.
  - destruct (max_vol_proper solver returns max_annual_vol
                min_weight max_weight Hsolver Hnd Hne Hlo Hle)
      as (d & Hd & Hk & Hp).
    exists d. split; [exact Hd|]. apply proper_weights_exceed; [exact Hp|].
    now rewrite <- (length_map fst), Hk.
Qed.

Lemma recommend_weights_exceed_example :
  (exists d,
      returned (@recommend_weights_for_target_return projecting_solver
                  example_returns 0.05 0.1 0.3) = Ok d /\
      Exists (fun aw => exists w, snd aw = Fin w /\ 0.3 < w) d) /\
  (exists d,
      returned (@recommend_weights_for_max_vol simple_math projecting_solver
                  example_returns 0.2 0.1 0.3) = Ok d /\
      Exists (fun aw => exists w, snd aw = Fin w /\ 0.3 < w) d).
Proof.
  apply (@recommend_weights_exceed_max_weight simple_math projecting_solver
           example_returns 0.05 0.2 0.1 0.3
           projecting_solver_respects_bounds);
    [compute_done | discriminate | reflexivity | by_evaluation
    | reflexivity].
Defined.

(** * Further properties of the random portfolios *)

Lemma enumerate_dict_from_zip (key : string -> string)
    (assets : list string) (s : list Q) (k i : nat) :
  NoDup (map key assets) -> length s = length assets ->
  (i + k)%nat = length assets ->
  enumerate_dict key (drop i assets) s i
                 (zip (map key (take i assets)) (take i s))
  = Ok (zip (map key assets) s).
Proof.
  intros Hnd Hlen. revert i. induction k as [|k IH]; intros i Hik.
  - rewrite drop_ge, !take_ge by lia. reflexivity.
  - destruct (lookup_lt_is_Some_2 assets i) as [a Ha]; [lia|].
    destruct (lookup_lt_is_Some_2 s i) as [v Hv]; [lia|].
    rewrite (drop_S assets a i Ha). cbn [enumerate_dict]. rewrite Hv.
    rewrite dict_set_fresh.
    + rewrite <- (IH (S i)) by lia. f_equal.
      rewrite (take_S_r assets i a Ha), (take_S_r s i v Hv).
      rewrite map_app. cbn [map].
      rewrite zip_with_app; [reflexivity|].
      rewrite length_map, !length_take. lia.
    + intros Hin. apply zip_fst_subset in Hin.
      rewrite <- (take_drop_middle assets i a Ha) in Hnd.
      rewrite map_app in Hnd. cbn [map] in Hnd.
      apply NoDup_app in Hnd. destruct Hnd as (_ & Hdis & _).
      apply list_elem_of_In in Hin. apply (Hdis _ Hin). left.
Qed.

(** With distinct keys the comprehension pairs every key with the entry of
    the sample at the asset's position. *)
Lemma enumerate_dict_zip (key : string -> string) (assets : list string)
    (s : list Q) :
  NoDup (map key assets) -> length s = length assets ->
  enumerate_dict key assets s 0 [] = Ok (zip (map key assets) s).
Proof.
  intros Hnd Hlen.
  exact (enumerate_dict_from_zip key assets s (length assets) 0 Hnd Hlen
           eq_refl).
Qed.

Lemma result_mapM_Ok {A B} (f : A -> result B) (l : list A) (bs : list B) :
  result_mapM f l = Ok bs -> Forall2 (fun a b => f a = Ok b) l bs.
Proof.
  revert bs. induction l as [|a l IH]; intros bs Hm; simpl in Hm.
  - inversion Hm. constructor.
  - destruct (f a) as [b|e] eqn:Ea; [|discriminate]. simpl in Hm.
    destruct (result_mapM f l) as [bs'|e]; [|discriminate]. simpl in Hm.
    inversion Hm; subst. constructor; auto.
Qed.

Lemma prefixed_NoDup (assets : list string) :
  NoDup assets -> NoDup (map (fun a => "w_" ++ a)%string assets).
Proof.
  intros Hnd. apply NoDup_fmap_2; [|exact Hnd].
  intros a b E. now inversion E.
Qed.

Lemma sample_row_shape `{NumpyMath} (returns : DataFrame Q) (s : list Q)
    (r : PortfolioSample) :
  NoDup (columns returns) -> length s = length (columns returns) ->
  sample_row returns s = Ok r ->
  s_weights r = zip (map (fun a => "w_" ++ a)%string (columns returns)) s /\
  s_Return r = s_CAGR r.
Proof.
  intros Hnd Hlen Hrow. unfold sample_row in Hrow.
  destruct (enumerate_dict (fun a => a) _ s 0 []) as [w|e]; [|discriminate].
  simpl in Hrow.
  destruct (portfolio_return_series returns w) as [rets|e]; [|discriminate].
  simpl in Hrow.
  destruct (portfolio_metrics_from_returns rets 1 0) as [m|e];
    [|discriminate].
  simpl in Hrow.
  rewrite (enumerate_dict_zip _ _ s (prefixed_NoDup _ Hnd) Hlen) in Hrow.
  simpl in Hrow. inversion Hrow; subst. simpl. auto.
Qed.

(** X17: When the call succeeds it returns one row per drawn sample, in draw
    order; a row carries its sample under the columns [w_<asset>] and its
    [Return] column repeats its [CAGR]. *)
Theorem generate_random_portfolios_rows `{NumpyMath} `{NumpyRandom}
    (returns : DataFrame Q) (num_portfolios seed : Z) (g s : rng_state)
    (samples : list (list Q)) (rws : list PortfolioSample) :
  NoDup (columns returns) ->
  np_random_seed seed = Ok s ->
  fst (np_random_dirichlet (repeat 1 (length (columns returns)))
                           num_portfolios s) = Ok samples ->
  Forall (fun smp => length smp = length (columns returns)) samples ->
  fst (generate_random_portfolios returns num_portfolios seed g) = Ok rws ->
  Forall2 (fun smp r =>
             s_weights r
             = zip (map (fun a => "w_" ++ a)%string (columns returns)) smp /\
             s_Return r = s_CAGR r)
          samples rws.
Proof.
  intros Hnd Hseed Hdraw Hlen Hgen.
  unfold generate_random_portfolios in Hgen. rewrite Hseed in Hgen.
  destruct (np_random_dirichlet _ num_portfolios s) as [drawn g2].
  simpl in Hdraw, Hgen. subst drawn. simpl in Hgen.
  destruct (result_mapM (sample_row returns) samples) as [rs|e] eqn:Hm;
    [|discriminate].
  simpl in Hgen. assert (rs = rws) by (destruct rs; congruence). subst rs.
  apply result_mapM_Ok in Hm. clear Hgen.
  induction Hm as [|smp r samples rws Hr Hm IH]; [constructor|].
  inversion Hlen; subst. constructor; [|now apply IH].
  now apply sample_row_shape.
Qed.

(** X18: Asking for no portfolio at all: nothing is drawn, the table has no
    column, and reading its [CAGR] column raises KeyError. *)
Theorem generate_random_portfolios_no_draw `{NumpyMath} `{NumpyRandom}
    (returns : DataFrame Q) (num_portfolios seed : Z) (g s : rng_state) :
  np_random_seed seed = Ok s ->
  fst (np_random_dirichlet (repeat 1 (length (columns returns)))
                           num_portfolios s) = Ok [] ->
  fst (generate_random_portfolios returns num_portfolios seed g)
  = Raise KeyError.
Proof.
  intros Hseed Hdraw. unfold generate_random_portfolios. rewrite Hseed.
  destruct (np_random_dirichlet _ num_portfolios s) as [drawn g2].
  simpl in *. now subst drawn.
Qed.

Lemma generate_random_portfolios_no_draw_example :
  fst (@generate_random_portfolios simple_math counter_generator
         example_returns 0 42 7%Z) = Raise KeyError.
Proof.
  apply (@generate_random_portfolios_no_draw simple_math counter_generator
           example_returns 0 42 7%Z 42%Z); reflexivity.
Defined.

Lemma enumerate_dict_keys (key : string -> string) (assets : list string)
    (s : list Q) (i : nat) (d : list (string * Q)) :
  (i + length assets <= length s)%nat ->
  exists w, enumerate_dict key assets s i d = Ok w /\
            forall c, In c (map fst w) ->
                      In c (map fst d) \/ In c (map key assets).
Proof.
  revert i d. induction assets as [|a assets IH]; intros i d Hlen.
  - exists d. split; [reflexivity | auto].
  - simpl in Hlen. destruct (lookup_lt_is_Some_2 s i) as [v Hv]; [lia|].
    cbn [enumerate_dict]. rewrite Hv.
    destruct (IH (S i) (dict_set (key a) v d)) as (w & Hw & Hk); [lia|].
    exists w. split; [exact Hw|]. intros c Hc.
    destruct (Hk c Hc) as [Hd|Ha]; [|right; right; exact Ha].
    clear - Hd. induction d as [|[k' v'] d IHd]; simpl in Hd.
    + destruct Hd as [<-|[]]. right. left. reflexivity.
    + destruct (decide (key a = k')) as [<-|Hne]; simpl in Hd.
      * destruct Hd as [<-|Hd]; [left; left; reflexivity|].
        left. right. exact Hd.
      * destruct Hd as [<-|Hd]; [left; left; reflexivity|].
        destruct (IHd Hd) as [Hx|Hx]; [left; right; exact Hx | right; exact Hx].
Qed.

Lemma result_mapM_all_Ok {A B} (f : A -> result B) (l : list A) :
  Forall (fun a => exists b, f a = Ok b) l ->
  exists bs, result_mapM f l = Ok bs /\ length bs = length l.
Proof.
  induction 1 as [|a l (b & Hb) _ (bs & Hbs & Hl)]; [now exists []|].
  exists (b :: bs). simpl. rewrite Hb, Hbs. simpl. split; [reflexivity | lia].
Qed.

Lemma index_of_Some (a : string) (l : list string) :
  In a l -> exists i, index_of a l = Some i.
Proof.
  induction l as [|b l IH]; [intros []|]. simpl. intros Hin.
  destruct (decide (a = b)) as [->|Hne]; [now exists O|].
  destruct Hin as [->|Hin]; [congruence|].
  destruct (IH Hin) as (i & ->). now exists (S i).
Qed.

Lemma portfolio_return_series_known (returns : DataFrame Q)
    (weights : list (string * Q)) :
  (forall c, In c (map fst weights) -> In c (columns returns)) ->
  exists rets, portfolio_return_series returns weights = Ok rets /\
               map fst rets = index returns.
Proof.
  intros Hk. unfold portfolio_return_series.
  destruct (result_mapM_all_Ok
              (fun c => match index_of c (columns returns) with
                        | Some i => Ok i
                        | None => Raise KeyError
                        end) (map fst weights)) as (idxs & Hidx & _).
  { apply Forall_forall. intros c Hc. apply list_elem_of_In in Hc.
    destruct (index_of_Some c _ (Hk c Hc)) as (i & ->). now exists i. }
  rewrite Hidx. simpl. eexists. split; [reflexivity|].
  unfold index. now rewrite map_map.
Qed.

Lemma cagr_same_date `{NumpyMath} (portfolio_rets : Series Q) (d : date) :
  portfolio_rets <> [] -> Forall (fun dv => fst dv = d) portfolio_rets ->
  portfolio_metrics_from_returns portfolio_rets 1 0 = Raise ZeroDivisionError.
Proof.
  intros Hne Hall.
  pose proof (portfolio_metrics_cases portfolio_rets 1 0) as Hc.
  destruct portfolio_rets as [|[d0 r0] rest]; [congruence|].
  apply (proj1 Hc).
  assert (Hd : Forall (fun x => x = d) (map fst ((d0, r0) :: rest)))
    by now apply Forall_map.
  assert (d0 = d) by (inversion Hall; assumption). subst d0.
  revert Hd. generalize (map fst ((d, r0) :: rest)). intros ds Hd.
  induction Hd as [|x ds -> Hd IH]; [reflexivity|].
  destruct ds as [|y ds]; [reflexivity|]. exact IH.
Qed.

(** X19: The metrics need two different dates, so the sampler does too: on a
    returns matrix whose dates are all the same (a single row, for one) the
    call raises ZeroDivisionError as soon as one sample is drawn. *)
Theorem generate_random_portfolios_single_date `{NumpyMath} `{NumpyRandom}
    (returns : DataFrame Q) (num_portfolios seed : Z) (g s : rng_state)
    (smp : list Q) (samples : list (list Q)) (d : date) :
  np_random_seed seed = Ok s ->
  fst (np_random_dirichlet (repeat 1 (length (columns returns)))
                           num_portfolios s) = Ok (smp :: samples) ->
  length smp = length (columns returns) ->
  rows returns <> [] -> Forall (fun r => fst r = d) (rows returns) ->
  fst (generate_random_portfolios returns num_portfolios seed g)
  = Raise ZeroDivisionError.
Proof.
  intros Hseed Hdraw Hlen Hne Hdates.
  unfold generate_random_portfolios. rewrite Hseed.
  destruct (np_random_dirichlet _ num_portfolios s) as [drawn g2].
  simpl in Hdraw. subst drawn. cbn [fst bind result_mapM].
  assert (Hrow : sample_row returns smp = Raise ZeroDivisionError).
  { unfold sample_row.
    destruct (enumerate_dict_keys (fun a => a) (columns returns) smp 0 [])
      as (w & Hw & Hk); [simpl; lia|].
    rewrite Hw. cbn [bind].
    destruct (portfolio_return_series_known returns w) as (rets & Hr & Hi).
    { intros c Hc. destruct (Hk c Hc) as [[]|Hin].
      now rewrite map_id in Hin. }
    rewrite Hr. cbn [bind].
    rewrite (cagr_same_date rets d); [reflexivity | |].
    - intros ->. unfold index in Hi. destruct (rows returns);
        [congruence | discriminate].
    - apply Forall_forall. intros dv Hdv. apply list_elem_of_In in Hdv.
      apply (List.in_map fst) in Hdv. rewrite Hi in Hdv.
      unfold index in Hdv. apply List.in_map_iff in Hdv.
      destruct Hdv as (r & <- & Hr').
      apply list_elem_of_In in Hr'.
      exact (proj1 (Forall_forall _ _) Hdates r Hr'). }
  rewrite Hrow. reflexivity.
Qed.

Lemma generate_random_portfolios_single_date_example :
  fst (@generate_random_portfolios simple_math counter_generator
         drift_returns 3 42 7%Z) = Raise ZeroDivisionError.
Proof.
  apply (@generate_random_portfolios_single_date simple_math
           counter_generator drift_returns 3 42 7%Z 42%Z
           [1 / (1 + (1 + 0)); 1 / (1 + (1 + 0))]
           (repeat [1 / (1 + (1 + 0)); 1 / (1 + (1 + 0))] 2) 0%Z);
    try reflexivity; [discriminate | repeat constructor].
Defined.

Lemma generate_random_portfolios_rows_example :
  exists rws,
    fst (@generate_random_portfolios simple_math counter_generator
           example_returns 2 42 7%Z) = Ok rws /\
    Forall2 (fun smp r =>
               s_weights r
               = zip (map (fun a => "w_" ++ a)%string
                          (columns example_returns)) smp /\
               s_Return r = s_CAGR r)
            (repeat [1 / (1 + (1 + 0)); 1 / (1 + (1 + 0))] 2) rws.
Proof.
  destruct (fst (@generate_random_portfolios simple_math counter_generator
                   example_returns 2 42 7%Z)) as [rws|e] eqn:E;
    [|vm_compute in E; discriminate].
  exists rws. split; [reflexivity|].
  apply (@generate_random_portfolios_rows simple_math counter_generator
           example_returns 2 42 7%Z 42%Z _ rws);
    [compute_done | reflexivity | reflexivity | repeat constructor | exact E].
Defined.

(** * The cash column *)

(** X20: whatever the date, the repo rate returned by
    [get_historical_riksbanken_rate] lies between 0 and 3.5 %. *)
Theorem riksbanken_rate_range `{PandasCalendar} (d : date) :
  0 <= get_historical_riksbanken_rate d /\
  get_historical_riksbanken_rate d <= 0.035.
Proof.
  unfold get_historical_riksbanken_rate.
  repeat match goal with
         | |- context [Z.ltb ?a ?b] => destruct (Z.ltb a b)
         end; split; intro; discriminate.
Qed.

(** X21: when the change dates come in calendar order, the repo rate never
    decreases from 1 July 2010 on. *)
Theorem riksbanken_rate_rises_after_2010 `{PandasCalendar} (d1 d2 : date) :
  (timestamp 2010 7 1 <= timestamp 2021 1 1 <= timestamp 2022 4 1)%Z ->
  (timestamp 2022 4 1 <= timestamp 2022 9 1 <= timestamp 2022 11 1)%Z ->
  (timestamp 2022 11 1 <= timestamp 2022 12 1 <= timestamp 2023 2 1)%Z ->
  (timestamp 2023 2 1 <= timestamp 2023 9 1 <= timestamp 2024 1 1)%Z ->
  (timestamp 2024 1 1 <= timestamp 2024 5 1)%Z ->
  (timestamp 2009 1 1 <= timestamp 2010 7 1 <= d1)%Z ->
  (d1 <= d2)%Z ->
  get_historical_riksbanken_rate d1 <= get_historical_riksbanken_rate d2.
Proof.
  intros H1 H2 H3 H4 H5 H6 H7.
  unfold get_historical_riksbanken_rate.
  repeat match goal with
         | |- context [Z.ltb ?a ?b] => destruct (Z.ltb_spec a b)
         end; try lia; intro; discriminate.
Qed.

Lemma riksbanken_rate_rises_example :
  @get_historical_riksbanken_rate civil_calendar 19100%Z
  <= @get_historical_riksbanken_rate civil_calendar 19700%Z.
Proof.
  apply (@riksbanken_rate_rises_after_2010 civil_calendar 19100%Z 19700%Z);
    by_evaluation.
Defined.

(** ** Assigning a column *)

Lemma index_of_None_inv (a : string) (l : list string) :
  index_of a l = None -> ~ In a l.
Proof.
  induction l as [|b l IH]; simpl; [tauto|].
  destruct (decide (a = b)) as [->|Hne]; [discriminate|].
  destruct (index_of a l); [discriminate|]. intros _ [Hb|Hin]; [congruence|].
  now apply IH.
Qed.

Lemma index_of_lookup (a : string) (l : list string) (j : nat) :
  index_of a l = Some j -> l !! j = Some a.
Proof.
  revert j. induction l as [|b l IH]; simpl; intros j; [discriminate|].
  destruct (decide (a = b)) as [->|Hne].
  - intros [= <-]. reflexivity.
  - destruct (index_of a l) as [i|]; [|discriminate]. intros [= <-].
    simpl. now apply IH.
Qed.

Lemma index_of_app_other (a b : string) (l : list string) :
  a <> b -> index_of a (l ++ [b]) = index_of a l.
Proof.
  intros Hne. induction l as [|c l IH]; simpl.
  - destruct (decide (a = b)); [congruence | reflexivity].
  - destruct (decide (a = c)); [reflexivity|]. now rewrite IH.
Qed.

Lemma map2_rows_index {A B} (f : list A -> B -> list A)
    (rs : list (date * list A)) (vals : list B) :
  length vals = length rs ->
  map fst (map2 (fun r v => (fst r, f (snd r) v)) rs vals) = map fst rs.
Proof.
  revert vals. induction rs as [|r rs IH]; intros [|v vals] Hl;
    try discriminate; [reflexivity|].
  simpl. f_equal. apply IH. simpl in Hl. lia.
Qed.

Lemma set_column_index {A} (name : string) (vals : list A)
    (df : DataFrame A) :
  length vals = length (rows df) ->
  index (set_column name vals df) = index df.
Proof.
  intros Hl. unfold set_column, index.
  destruct (index_of name (columns df)); cbn [rows].
  - apply (map2_rows_index (fun r v => <[n := v]> r)), Hl.
  - apply (map2_rows_index (fun r v => r ++ [v])), Hl.
Qed.

Lemma set_column_rectangular {A} (name : string) (vals : list A)
    (df : DataFrame A) :
  rectangular df -> rectangular (set_column name vals df).
Proof.
  unfold rectangular, set_column. intros Hr.
  destruct (index_of name (columns df)); cbn [rows columns].
  - revert vals. induction Hr as [|r rs Hr _ IH]; intros [|v vals];
      simpl; constructor; auto. cbn [snd]. now rewrite length_insert.
  - revert vals. induction Hr as [|r rs Hr _ IH]; intros [|v vals];
      simpl; constructor; auto. cbn [snd].
    rewrite !length_app. simpl. lia.
Qed.

Lemma set_column_again {A} (name : string) (vals : list A)
    (df : DataFrame A) :
  rectangular df ->
  set_column name vals (set_column name vals df) = set_column name vals df.
Proof.
  unfold rectangular. intros Hr. unfold set_column at 2 3.
  destruct (index_of name (columns df)) as [j|] eqn:Ej.
  - unfold set_column. cbn [columns rows]. rewrite Ej. f_equal.
    clear Hr. revert vals.
    induction (rows df) as [|r rs IH]; intros [|v vals]; simpl;
      try reflexivity.
    rewrite list_insert_insert_eq. f_equal. apply IH.
  - unfold set_column. cbn [columns rows].
    rewrite (index_of_app_fresh name (columns df) []);
      [|now apply index_of_None_inv]. f_equal.
    revert vals.
    induction Hr as [|r rs Hr _ IH]; intros [|v vals]; simpl;
      try reflexivity.
    f_equal; [|apply IH]. f_equal.
    rewrite <- Hr. replace (length (snd r)) with (length (snd r) + 0)%nat by lia.
    rewrite insert_app_r. reflexivity.
Qed.

Lemma set_column_other {A} (name other : string) (vals : list A)
    (df : DataFrame A) :
  rectangular df -> length vals = length (rows df) -> other <> name ->
  df_column other (set_column name vals df) = df_column other df.
Proof.
  unfold rectangular. intros Hr Hl Hne. unfold df_column, set_column.
  destruct (index_of name (columns df)) as [j|] eqn:Ej; cbn [columns rows].
  - destruct (index_of other (columns df)) as [i|] eqn:Ei; [|reflexivity].
    assert (i <> j) as Hij.
    { intros ->. apply index_of_lookup in Ej, Ei. congruence. }
    f_equal. clear Hr. revert vals Hl.
    induction (rows df) as [|r rs IH]; intros [|v vals] Hl;
      try discriminate; [reflexivity|].
    simpl. rewrite list_lookup_insert_ne by auto. f_equal. apply IH.
    simpl in Hl. lia.
  - rewrite index_of_app_other by assumption.
    destruct (index_of other (columns df)) as [i|] eqn:Ei; [|reflexivity].
    assert (i < length (columns df))%nat as Hi.
    { apply index_of_lookup in Ei. now apply lookup_lt_Some in Ei. }
    f_equal. revert vals Hl.
    induction Hr as [|r rs Hr _ IH]; intros [|v vals] Hl;
      try discriminate; [reflexivity|].
    simpl. rewrite lookup_app_l by lia. f_equal. apply IH.
    simpl in Hl. lia.
Qed.

Lemma set_column_this {A} (name : string) (vals : list A)
    (df : DataFrame A) :
  rectangular df -> length vals = length (rows df) ->
  df_column name (set_column name vals df)
  = Some (map2 (fun d v => (d, Some v)) (index df) vals).
Proof.
  unfold rectangular, index. intros Hr Hl. unfold df_column, set_column.
  destruct (index_of name (columns df)) as [j|] eqn:Ej; cbn [columns rows].
  - rewrite Ej. f_equal.
    assert (j < length (columns df))%nat as Hj.
    { apply index_of_lookup in Ej. now apply lookup_lt_Some in Ej. }
    revert vals Hl.
    induction Hr as [|r rs Hr _ IH]; intros [|v vals] Hl;
      try discriminate; [reflexivity|].
    simpl. rewrite list_lookup_insert_eq by lia. f_equal. apply IH.
    simpl in Hl. lia.
  - rewrite (index_of_app_fresh name (columns df) []);
      [|now apply index_of_None_inv]. f_equal.
    revert vals Hl.
    induction Hr as [|r rs Hr _ IH]; intros [|v vals] Hl;
      try discriminate; [reflexivity|].
    simpl. f_equal; [|apply IH; simpl in Hl; lia].
    f_equal. rewrite <- Hr. rewrite lookup_app_r by lia.
    replace (length (snd r) - length (snd r))%nat with O by lia.
    reflexivity.
Qed.

(** ** add_cash_returns *)

Lemma result_mapM_length {A B} (f : A -> result B) (l : list A)
    (bs : list B) :
  result_mapM f l = Ok bs -> length bs = length l.
Proof.
  intros Hm. apply result_mapM_Ok in Hm.
  induction Hm; simpl; congruence.
Qed.

(** The call assigns one column of as many cells as there are dates, and
    the cells depend on the frame through its dates only. *)
Lemma add_cash_returns_assigns `{PandasCalendar} `{PythonMath}
    (returns out : DataFrame pynumber) (cash_rate : option Q)
    (bank_margin : Q) (use_riksbanken : bool) (trading_days : Z) :
  add_cash_returns returns cash_rate bank_margin use_riksbanken trading_days
  = Ok out ->
  exists cells,
    length cells = length (rows returns) /\
    out = set_column "Cash" cells returns /\
    forall returns',
      index returns' = index returns ->
      add_cash_returns returns' cash_rate bank_margin use_riksbanken
                       trading_days
      = Ok (set_column "Cash" cells returns').
Proof.
  unfold add_cash_returns. intros Hc.
  assert (forall returns' : DataFrame pynumber,
             index returns' = index returns ->
             length (rows returns') = length (rows returns)) as Hlen.
  { intros returns' Hi. unfold index in Hi.
    rewrite <- (length_map fst (rows returns')), Hi. apply length_map. }
  destruct use_riksbanken; [destruct cash_rate as [c|]|].
  1, 3: (destruct (daily_cash_rate _ trading_days) as [p|e]; [|discriminate];
         simpl in Hc; injection Hc as <-;
         exists (repeat p (length (rows returns)));
         split; [apply repeat_length|]; split; [reflexivity|];
         intros returns' Hi; simpl; now rewrite (Hlen _ Hi)).
  destruct (result_mapM _ (index returns)) as [cells|e] eqn:Em;
    [|discriminate].
  simpl in Hc. injection Hc as <-. exists cells.
  split; [|split; [reflexivity|]].
  - apply result_mapM_length in Em. rewrite Em. apply length_map.
  - intros returns' ->. rewrite Em. reflexivity.
Qed.

(** X22: a successful [add_cash_returns] keeps the dates and every column
    other than "Cash" of a rectangular frame, and the result has a "Cash"
    column with one cell per date. *)
Theorem add_cash_returns_keeps_columns `{PandasCalendar} `{PythonMath}
    (returns out : DataFrame pynumber) (cash_rate : option Q)
    (bank_margin : Q) (use_riksbanken : bool) (trading_days : Z) :
  rectangular returns ->
  add_cash_returns returns cash_rate bank_margin use_riksbanken trading_days
  = Ok out ->
  index out = index returns /\
  rectangular out /\
  (forall name, name <> "Cash"%string ->
                df_column name out = df_column name returns) /\
  exists cells,
    length cells = length (rows returns) /\
    df_column "Cash" out
    = Some (map2 (fun d v => (d, Some v)) (index returns) cells).
Proof.
  intros Hr Hc.
  destruct (add_cash_returns_assigns _ _ _ _ _ _ Hc) as (cells & Hl & -> & _).
  split; [now apply set_column_index|].
  split; [now apply set_column_rectangular|].
  split; [intros name Hne; now apply set_column_other|].
  exists cells. split; [exact Hl|]. now apply set_column_this.
Qed.

(** X23: adding the cash column twice with the same arguments is the same
    as adding it once: the second call overwrites the column with the same
    cells. *)
Theorem add_cash_returns_twice `{PandasCalendar} `{PythonMath}
    (returns out : DataFrame pynumber) (cash_rate : option Q)
    (bank_margin : Q) (use_riksbanken : bool) (trading_days : Z) :
  rectangular returns ->
  add_cash_returns returns cash_rate bank_margin use_riksbanken trading_days
  = Ok out ->
  add_cash_returns out cash_rate bank_margin use_riksbanken trading_days
  = Ok out.
Proof.
  intros Hr Hc.
  destruct (add_cash_returns_assigns _ _ _ _ _ _ Hc) as (cells & Hl & -> & Hn).
  rewrite Hn by now apply set_column_index.
  now rewrite set_column_again.
Qed.

(** X24: with [trading_days = 0] the division [1 / trading_days] raises
    ZeroDivisionError, except on a frame without dates in the Riksbanken
    branch, where the loop body never runs and an empty "Cash" column is
    assigned. *)
Theorem add_cash_returns_zero_trading_days `{PandasCalendar} `{PythonMath}
    (returns : DataFrame pynumber) (cash_rate : option Q)
    (bank_margin : Q) (use_riksbanken : bool) :
  add_cash_returns returns cash_rate bank_margin use_riksbanken 0
  = match use_riksbanken, cash_rate, rows returns with
    | true, None, [] => Ok (set_column "Cash" [] returns)
    | _, _, _ => Raise ZeroDivisionError
    end.
Proof.
  unfold add_cash_returns, index.
  destruct use_riksbanken, cash_rate as [c|]; try reflexivity.
  destruct (rows returns) as [|r rs]; reflexivity.
Qed.

Lemma add_cash_returns_keeps_example :
  match @add_cash_returns civil_calendar simple_pow sample_frame None 0.0075
                          true 1 with
  | Ok out => index out = index sample_frame /\
              df_column "A" out = df_column "A" sample_frame
  | Raise _ => False
  end.
Proof.
  destruct (@add_cash_returns civil_calendar simple_pow sample_frame None
              0.0075 true 1) as [out|e] eqn:E.
  - destruct (@add_cash_returns_keeps_columns civil_calendar simple_pow
                sample_frame out None 0.0075 true 1%Z) as (Hi & _ & Ho & _).
    + by_evaluation.
    + exact E.
    + split; [exact Hi|]. apply Ho. discriminate.
  - vm_compute in E. discriminate.
Defined.

Lemma add_cash_returns_twice_example :
  exists out,
    @add_cash_returns civil_calendar simple_pow sample_frame_with_cash
                      (Some 0.02) 0.0075 false 1 = Ok out /\
    @add_cash_returns civil_calendar simple_pow out
                      (Some 0.02) 0.0075 false 1 = Ok out.
Proof.
  eexists. split; [by_evaluation|].
  apply (@add_cash_returns_twice civil_calendar simple_pow
           sample_frame_with_cash); by_evaluation.
Defined.

(** * Prices to returns *)

Lemma simple_return_cells (r prev : list Q) :
  Forall (fun x => ~ x == 0) prev ->
  map (fun x => fsub x (Fin 1))
      (map2 (fun p q => fdiv (Fin p) (Fin q)) r prev)
  = map Fin (map2 (fun p q => p / q + - (1)) r prev).
Proof.
  intros Hp. revert r. induction Hp as [|q prev Hq _ IH]; intros [|p r];
    try reflexivity.
  cbn [map2 map]. rewrite (fdiv_Fin p q Hq), IH. reflexivity.
Qed.

Lemma no_nan_in_Fin (l : list Q) : existsb is_nan (map Fin l) = false.
Proof. induction l; simpl; auto. Qed.

Lemma compound_simple_returns (acc prev r : list Q) :
  Forall2 Qeq acc prev -> Forall (fun x => ~ x == 0) prev ->
  length r = length prev ->
  Forall2 Qeq (map2 (fun a x => a * (1 + x)) acc
                    (map2 (fun p q => p / q + - (1)) r prev)) r.
Proof.
  intros Ha. revert r. induction Ha as [|a q acc prev Haq _ IH];
    intros [|p r] Hq Hl; try discriminate; [constructor|].
  inversion Hq as [|? ? Hq0 Hq']; subst. cbn [map2]. constructor.
  - rewrite Haq. field. exact Hq0.
  - apply IH; [assumption | simpl in Hl; lia].
Qed.

Lemma ratios_from_simple (prev acc : list Q) (l : list (date * list Q)) :
  Forall2 Qeq acc prev -> Forall (fun x => ~ x == 0) prev ->
  nonzero_prices (length prev) l ->
  exists R,
    dropna (map (fun r => (fst r, map (fun x => fsub x (Fin 1)) (snd r)))
                (ratios_from prev l))
    = map (fun r => (fst r, map Fin (snd r))) R /\
    same_values (cumprod_rows_from acc R) l.
Proof.
  intros Ha Hp Hl. revert prev acc Ha Hp Hl.
  induction l as [|[d r] l IH]; intros prev acc Ha Hp Hl.
  - exists []. split; [reflexivity | constructor].
  - inversion Hl as [|? ? [Hlen Hnz] Hl']; subst. cbn [snd] in Hlen, Hnz.
    pose proof (compound_simple_returns acc prev r Ha Hp Hlen) as Hc.
    destruct (IH r (map2 (fun a x => a * (1 + x)) acc
                         (map2 (fun p q => p / q + - (1)) r prev)))
      as (R & HR & Hsame); [exact Hc | exact Hnz | now rewrite Hlen |].
    exists ((d, map2 (fun p q => p / q + - (1)) r prev) :: R). split.
    + cbn [ratios_from map fst snd]. rewrite simple_return_cells by exact Hp.
      unfold dropna in *. cbn [List.filter snd].
      rewrite no_nan_in_Fin. cbn [negb]. cbn [map fst snd]. f_equal.
      exact HR.
    + cbn [cumprod_rows_from]. constructor; [|exact Hsame].
      split; [reflexivity | exact Hc].
Qed.

Lemma Forall2_Qeq_refl (l : list Q) : Forall2 Qeq l l.
Proof. induction l; constructor; auto. reflexivity. Qed.

(** X25: any [method] other than "log" gives simple returns, and on prices
    that are never zero these are finite and compound back to the prices:
    starting from the first price row and multiplying by 1 + return date
    after date reproduces every later price row. *)
Theorem compute_returns_compound_to_prices `{NumpyLog}
    (prices : DataFrame Q) (method : string) (d0 : date) (p0 : list Q)
    (rest : list (date * list Q)) :
  method <> "log"%string ->
  rows prices = (d0, p0) :: rest ->
  p0 <> [] ->
  nonzero_prices (length p0) (rows prices) ->
  exists R,
    rows (compute_returns prices method)
    = map (fun r => (fst r, map Fin (snd r))) R /\
    same_values (cumprod_rows_from p0 R) rest.
Proof.
  intros Hm Hrows Hne Hnz. rewrite Hrows in Hnz.
  inversion Hnz as [|? ? [_ Hp0] Hrest]; subst. cbn [snd] in Hp0.
  destruct (ratios_from_simple p0 p0 rest (Forall2_Qeq_refl p0) Hp0 Hrest)
    as (R & HR & Hsame).
  exists R. split; [|exact Hsame].
  unfold compute_returns. apply String.eqb_neq in Hm. rewrite Hm.
  cbn [rows]. rewrite Hrows. cbn [price_ratios map fst snd].
  unfold dropna in *. cbn [List.filter snd].
  destruct p0 as [|p p0]; [congruence|]. cbn [map existsb]. exact HR.
Qed.

Lemma compute_returns_compound_example :
  exists R,
    rows (@compute_returns simple_log example_prices "simple")
    = map (fun r => (fst r, map Fin (snd r))) R /\
    same_values (cumprod_rows_from [100; 50] R)
                [ (1%Z, [110; 45]); (2%Z, [121; 54]) ].
Proof.
  apply (@compute_returns_compound_to_prices simple_log example_prices
           "simple" 0%Z [100; 50]); try discriminate; try reflexivity.
  unfold nonzero_prices. by_evaluation.
Defined.

Lemma dropna_sublist (l : list (date * list pyfloat)) :
  sublist (map fst (dropna l)) (map fst l).
Proof.
  unfold dropna. induction l as [|r l IH]; simpl; [constructor|].
  destruct (negb _); simpl; now constructor.
Qed.

Lemma ratios_from_dates (f : pyfloat -> pyfloat) (prev : list Q)
    (l : list (date * list Q)) :
  map fst (map (fun r => (fst r, map f (snd r))) (ratios_from prev l))
  = map fst l.
Proof.
  revert prev. induction l as [|[d r] l IH]; intros prev; simpl; f_equal.
  apply IH.
Qed.

(** X26: whatever the method, the first date of a price frame with at least
    one column is not in the result (its row has nothing before it and is
    all NaN), and the other dates keep their order. *)
Theorem compute_returns_drops_first_date `{NumpyLog}
    (prices : DataFrame Q) (method : string) (d0 : date) (p0 : list Q)
    (rest : list (date * list Q)) :
  np_log NaN = NaN ->
  rows prices = (d0, p0) :: rest ->
  p0 <> [] ->
  columns (compute_returns prices method) = columns prices /\
  sublist (index (compute_returns prices method)) (map fst rest).
Proof.
  intros Hlog Hrows Hne. unfold compute_returns, index.
  destruct p0 as [|p p0]; [congruence|].
  destruct (String.eqb method "log"); cbn [rows columns];
    (split; [reflexivity|]); rewrite Hrows; cbn [price_ratios map fst snd].
  - unfold dropna at 1. cbn [List.filter snd]. rewrite Hlog.
    cbn [existsb is_nan orb negb].
    rewrite <- (ratios_from_dates np_log (p :: p0) rest).
    apply dropna_sublist.
  - unfold dropna at 1.
    cbn [List.filter snd existsb is_nan orb negb fsub fadd].
    rewrite <- (ratios_from_dates (fun x => fsub x (Fin 1)) (p :: p0) rest).
    apply dropna_sublist.
Qed.

Lemma simple_log_nan : @np_log simple_log NaN = NaN.
Proof. reflexivity. Qed.

Lemma compute_returns_drops_example :
  columns (@compute_returns simple_log example_prices "log")
  = columns example_prices /\
  sublist (index (@compute_returns simple_log example_prices "log"))
          [1%Z; 2%Z].
Proof.
  apply (@compute_returns_drops_first_date simple_log example_prices "log"
           0%Z [100; 50] [ (1%Z, [110; 45]); (2%Z, [121; 54]) ]).
  - exact simple_log_nan.
  - reflexivity.
  - discriminate.
Defined.

(** * Fees *)

Lemma items_get_fresh {V} (k : string) (d : list (string * V)) (v : V) :
  ~ In k (map fst d) -> items_get k d v = v.
Proof.
  induction d as [|[k' v'] d IH]; simpl; [reflexivity|]. intros Hn.
  destruct (decide (k = k')) as [->|Hne]; [tauto|]. apply IH. tauto.
Qed.

Lemma daily_fees_keys `{PythonMath} (days : Q) (fees : list (string * Q))
    (daily : list (string * pynumber)) :
  result_mapM (fun kv => do f <- daily_rate (snd kv) days; Ok (fst kv, f))
              fees = Ok daily ->
  map fst daily = map fst fees.
Proof.
  intros Hm. apply result_mapM_Ok in Hm.
  induction Hm as [|kv kd fees daily Hk _ IH]; [reflexivity|].
  simpl. f_equal; [|exact IH].
  destruct (daily_rate (snd kv) days); simpl in Hk; [|discriminate].
  now inversion Hk.
Qed.

(** X27: [apply_annual_fees] keeps the columns and the dates, and in a
    rectangular frame every column without an entry in the fee dictionary
    keeps its returns (a fee keyed by a name that is no column is not
    applied to anything). *)
Theorem apply_annual_fees_other_columns `{PythonMath}
    (returns : DataFrame Q) (annual_fees : list (string * Q))
    (out : DataFrame pynumber) :
  rectangular returns ->
  apply_annual_fees returns annual_fees = Ok out ->
  columns out = columns returns /\
  Forall2 (fun r r' =>
             fst r' = fst r /\
             Forall3 (fun col x c =>
                        ~ In col (map fst annual_fees) ->
                        exists y, c = PyFloat (Fin y) /\ y == x)
                     (columns returns) (snd r) (snd r'))
          (rows returns) (rows out).
Proof.
  unfold rectangular, apply_annual_fees. intros Hr Ha.
  destruct (result_mapM _ annual_fees) as [daily|e] eqn:Em; [|discriminate].
  simpl in Ha. injection Ha as <-. cbn [columns rows].
  split; [reflexivity|]. apply daily_fees_keys in Em. rewrite <- Em.
  induction Hr as [|r rs Hr _ IH]; [constructor|].
  cbn [map]. constructor; [|exact IH]. cbn [fst snd].
  split; [reflexivity|]. clear IH. revert Hr.
  generalize (snd r) as cells. generalize (columns returns) as cols. clear.
  induction cols as [|col cols IH]; intros [|x cells] Hl; try discriminate;
    [constructor|].
  cbn [map2]. constructor; [|apply IH; simpl in Hl; lia].
  intros Hn. rewrite items_get_fresh by exact Hn.
  exists (x + - 0). split; [reflexivity | ring].
Qed.

Lemma apply_annual_fees_example :
  exists out,
    @apply_annual_fees simple_pow example_returns
                       [("A"%string, 0.5); ("Z"%string, 0.1)] = Ok out /\
    columns out = columns example_returns /\
    Forall2 (fun r r' =>
               fst r' = fst r /\
               Forall3 (fun col x c =>
                          ~ In col ["A"; "Z"]%string ->
                          exists y, c = PyFloat (Fin y) /\ y == x)
                       (columns example_returns) (snd r) (snd r'))
            (rows example_returns) (rows out).
Proof.
  eexists. split; [by_evaluation|].
  apply (@apply_annual_fees_other_columns simple_pow example_returns
           [("A"%string, 0.5); ("Z"%string, 0.1)]); by_evaluation.
Defined.

(** * The yearly tax on the value series *)

Section IskProperties.
Context `{PandasCalendar}.

Lemma deduct_from_dates (idx : date) (amount : Q) (started : bool)
    (l : Series Q) :
  map fst (deduct_from idx amount started l) = map fst l.
Proof.
  revert started. induction l as [|[d v] l IH]; intros started; simpl;
    f_equal; apply IH.
Qed.

Lemma series_get_known (idx : date) (l : Series Q) :
  In idx (map fst l) -> exists v, series_get idx l = Ok v.
Proof.
  unfold series_get. induction l as [|[d v] l IH]; simpl; [tauto|].
  intros [->|Hin].
  - rewrite Z.eqb_refl. now exists v.
  - destruct (Z.eqb d idx); [now exists v | now apply IH].
Qed.

Lemma tax_years_total (rate : Q) (ends : list date) (vals : Series Q) :
  Forall (fun d => In d (map fst vals)) ends ->
  exists out, tax_years rate vals ends = Ok out /\
              map fst out = map fst vals.
Proof.
  revert vals. induction ends as [|idx ends IH]; intros vals He.
  - now exists vals.
  - inversion He as [|? ? Hidx He']; subst.
    destruct (series_get_known idx vals Hidx) as (v & Hv).
    cbn [tax_years]. unfold tax_year. rewrite Hv. cbn [bind].
    destruct (IH (deduct_from idx (rate * v) false vals)) as (out & Ho & Hd).
    + now rewrite deduct_from_dates.
    + exists out. split; [exact Ho|]. now rewrite Hd, deduct_from_dates.
Qed.

Lemma year_ends_in_index (idx : list date) :
  Forall (fun d => In d idx) (year_ends idx).
Proof.
  unfold year_ends. destruct idx as [|d0 idx]; [constructor|].
  apply List.Forall_forall. intros d Hd.
  apply list_elem_of_In, list_elem_of_omap in Hd.
  destruct Hd as (y & _ & Hl). apply last_Some_elem_of in Hl.
  apply list_elem_of_In, List.filter_In in Hl. tauto.
Qed.

Lemma deduct_nothing (idx : date) (amount : Q) (started : bool)
    (l : Series Q) :
  amount == 0 -> same_series l (deduct_from idx amount started l).
Proof.
  intros Ha. revert started. unfold same_series.
  induction l as [|[d v] l IH]; intros started; simpl; constructor; auto.
  cbn [fst snd]. split; [reflexivity|].
  destruct (started || Z.eqb d idx)%bool; [rewrite Ha; ring | reflexivity].
Qed.

Lemma same_series_trans (a b c : Series Q) :
  same_series a b -> same_series b c -> same_series a c.
Proof.
  unfold same_series. intros Hab. revert c.
  induction Hab as [|x y a b [Hf Hs] _ IH]; intros c Hbc;
    inversion Hbc as [|? z ? c' [Hf' Hs'] Hbc']; subst; constructor.
  - split; [congruence | now rewrite Hs].
  - now apply IH.
Qed.

Lemma same_series_refl (a : Series Q) : same_series a a.
Proof.
  unfold same_series. induction a; constructor; auto.
  split; reflexivity.
Qed.

Lemma tax_years_zero_rate (ends : list date) (vals out : Series Q) :
  tax_years 0 vals ends = Ok out -> same_series vals out.
Proof.
  revert vals. induction ends as [|idx ends IH]; intros vals Ht.
  - injection Ht as <-. apply same_series_refl.
  - cbn [tax_years] in Ht. unfold tax_year in Ht.
    destruct (series_get idx vals) as [v|e]; [|discriminate].
    cbn [bind] in Ht. eapply same_series_trans; [|apply IH, Ht].
    apply deduct_nothing. ring.
Qed.

Lemma deduct_from_last (idx : date) (amount v : Q) (init : Series Q) :
  ~ In idx (map fst init) ->
  deduct_from idx amount false (init ++ [(idx, v)])
  = init ++ [(idx, v - amount)].
Proof.
  induction init as [|[d x] init IH]; simpl; intros Hn.
  - now rewrite Z.eqb_refl.
  - destruct (Z.eqb_spec d idx) as [->|Hne]; [tauto|].
    simpl. f_equal. apply IH. tauto.
Qed.

Lemma series_get_last (idx : date) (v : Q) (init : Series Q) :
  ~ In idx (map fst init) -> series_get idx (init ++ [(idx, v)]) = Ok v.
Proof.
  unfold series_get. induction init as [|[d x] init IH]; simpl; intros Hn.
  - now rewrite Z.eqb_refl.
  - destruct (Z.eqb_spec d idx) as [->|Hne]; [tauto|]. apply IH. tauto.
Qed.

Lemma filter_all {A} (f : A -> bool) (l : list A) :
  Forall (fun x => f x = true) l -> List.filter f l = l.
Proof. induction 1 as [|x l Hx _ IH]; simpl; [|rewrite Hx, IH]; reflexivity. Qed.

Lemma year_ends_one_year (y : Z) (init : list date) (d : date) :
  Forall (fun d' => year_of d' = y) (init ++ [d]) ->
  year_ends (init ++ [d]) = [d].
Proof.
  intros Hy. unfold year_ends.
  assert (exists d0 l, init ++ [d] = d0 :: l) as (d0 & l & El).
  { destruct init as [|d0 init]; simpl; eauto. }
  assert (year_of d0 = y) as Hd0.
  { rewrite El in Hy. now inversion Hy. }
  rewrite El at 1. rewrite Hd0.
  rewrite Zlist_min_const, Zlist_max_const
    by (apply List.Forall_map; exact Hy).
  replace (y - y + 1)%Z with 1%Z by lia.
  rewrite seqZ_cons by lia. rewrite seqZ_nil by lia.
  cbn [omap list_omap]. rewrite filter_all.
  - rewrite last_snoc. reflexivity.
  - eapply Forall_impl; [exact Hy|]. intros d' ->. apply Z.eqb_refl.
Qed.

End IskProperties.

(** X28: on a series with distinct dates [apply_isk_simple_tax_on_annual]
    never raises (every year end it looks up is a date of the series) and
    returns a series over the same dates. *)
Theorem apply_isk_keeps_dates `{PandasCalendar} (values : Series Q)
    (annual_tax_rate : Q) :
  List.NoDup (map fst values) ->
  exists out,
    apply_isk_simple_tax_on_annual values annual_tax_rate = Ok out /\
    map fst out = map fst values.
Proof.
  intros _. unfold apply_isk_simple_tax_on_annual.
  apply tax_years_total, year_ends_in_index.
Qed.

Lemma apply_isk_keeps_dates_example :
  exists out,
    @apply_isk_simple_tax_on_annual civil_calendar example_values 0.01
    = Ok out /\
    map fst out = map fst example_values.
Proof.
  apply (@apply_isk_keeps_dates civil_calendar example_values 0.01).
  apply NoDup_ListNoDup. compute_done.
Defined.

(** X29: with a tax rate of zero the values of a series with distinct dates
    are returned unchanged. *)
Theorem apply_isk_zero_rate `{PandasCalendar} (values : Series Q) :
  List.NoDup (map fst values) ->
  exists out,
    apply_isk_simple_tax_on_annual values 0 = Ok out /\
    same_series values out.
Proof.
  intros _. unfold apply_isk_simple_tax_on_annual.
  destruct (tax_years_total 0 (year_ends (map fst values)) values
              (year_ends_in_index _)) as (out & Ho & _).
  exists out. split; [exact Ho|]. eapply tax_years_zero_rate, Ho.
Qed.

Lemma apply_isk_zero_rate_example :
  exists out,
    @apply_isk_simple_tax_on_annual civil_calendar example_values 0 = Ok out /\
    same_series example_values out.
Proof.
  apply (@apply_isk_zero_rate civil_calendar example_values).
  apply NoDup_ListNoDup. compute_done.
Defined.

(** X30: on a series with distinct dates that all fall in one calendar year
    the tax is taken once, from the value at the last date only (the last
    date counts as the year end even when the year is not over). *)
Theorem apply_isk_single_year `{PandasCalendar} (init : Series Q) (d : date)
    (v : Q) (annual_tax_rate : Q) (y : Z) :
  List.NoDup (map fst (init ++ [(d, v)])) ->
  Forall (fun d' => year_of d' = y) (map fst (init ++ [(d, v)])) ->
  apply_isk_simple_tax_on_annual (init ++ [(d, v)]) annual_tax_rate
  = Ok (init ++ [(d, v - annual_tax_rate * v)]).
Proof.
  intros Hnd Hy. unfold apply_isk_simple_tax_on_annual.
  rewrite map_app in *. cbn [map fst] in *.
  rewrite (year_ends_one_year y) by exact Hy.
  assert (~ In d (map fst init)) as Hn.
  { apply List.NoDup_remove_2 in Hnd. rewrite app_nil_r in Hnd. exact Hnd. }
  cbn [tax_years]. unfold tax_year.
  rewrite series_get_last by exact Hn. cbn [bind].
  now rewrite deduct_from_last.
Qed.

Lemma apply_isk_single_year_example :
  @apply_isk_simple_tax_on_annual civil_calendar
    ([ (19400%Z, 120); (19500%Z, 110) ] ++ [ (19722%Z, 130) ]) 0.01
  = Ok ([ (19400%Z, 120); (19500%Z, 110) ]
        ++ [ (19722%Z, 130 - 0.01 * 130) ]).
Proof.
  refine (@apply_isk_single_year civil_calendar
            [ (19400%Z, 120); (19500%Z, 110) ] 19722%Z 130 0.01 2023%Z _ _).
  - apply NoDup_ListNoDup. compute_done.
  - repeat (apply List.Forall_cons; [vm_compute; reflexivity|]).
    apply List.Forall_nil.
Defined.
